(** * Cab navigation: preference extraction, price comparison and booking

    A shallow embedding of [tools/nlp_parser.py], [config.py], the record
    types of [models/] and [orchestrator.py], followed by the properties of
    the comparison/booking orchestrator and of the rule-based preference
    extractor.

    Conventions of the embedding.
    - A Python [str] is a [string]; a character is a code point in 0..255.
    - [estimated_price] is a Python float. The quotes the orchestrator
      handles are taken finite and are represented by the rational they
      denote ([Q]); [<] on finite floats is [<] on those rationals, and
      every statement about those quotes is a statement about finite
      prices. The price tools of [tools/price_comparator.py] read their
      prices from dictionaries, and for them the infinities and NaN are
      modelled as well.
    - A Python [dict] is an association list kept in insertion order, with
      unique keys.
    - [try]/[except] is an error monad; the orchestrator additionally
      threads its own fields and the record of the calls it makes to the
      provider agents. *)

From Stdlib Require Import List String Ascii Bool Arith NArith ZArith QArith Lia.
From Stdlib Require Import DecimalString Permutation.
Import ListNotations.

Local Open Scope string_scope.
Local Open Scope list_scope.

(* ================================================================== *)
(** * Python values *)

Module Py.

(** ** Exceptions: the result of running a block that may raise. *)

Inductive exn : Type :=
| ValueError (msg : string)
| KeyError (key : string)
| JSONDecodeError (msg : string).

Inductive outcome (A : Type) : Type :=
| Ok (a : A)
| Raised (e : exn).

Arguments Ok {A} a.
Arguments Raised {A} e.

Definition bind {A B} (m : outcome A) (f : A -> outcome B) : outcome B :=
  match m with
  | Ok a => f a
  | Raised e => Raised e
  end.

(** [str(e)] for the exceptions above. *)
Definition str_exn (e : exn) : string :=
  match e with
  | ValueError msg => msg
  | KeyError key => "'" ++ key ++ "'"
  | JSONDecodeError msg => msg
  end.

(** ** Characters *)

Definition code (c : ascii) : N := N_of_ascii c.

Definition between (lo hi : N) (c : ascii) : bool :=
  ((lo <=? code c) && (code c <=? hi))%N.

(** [str.isspace] on one character, which is also what [\s] matches in a
    [str] pattern: TAB..CR, FS..US, space, NEL and NBSP. *)
Definition isspace (c : ascii) : bool :=
  between 9 13 c || between 28 32 c || (code c =? 133)%N || (code c =? 160)%N.

(** [0-9]; among the code points below 256 these are also all of [\d]. *)
Definition isdigit_char (c : ascii) : bool := between 48 57 c.

(** [a-zA-Z] *)
Definition isalpha_ascii (c : ascii) : bool :=
  between 97 122 c || between 65 90 c.

(** [str.lower] on one character: A..Z and the Latin-1 capitals
    (U+00C0..U+00DE without the multiplication sign U+00D7) move up by 32. *)
Definition lower_char (c : ascii) : ascii :=
  if between 65 90 c || (between 192 222 c && negb (code c =? 215)%N)
  then ascii_of_N (code c + 32)
  else c.

(** ** Strings *)

Fixpoint lower (s : string) : string :=
  match s with
  | EmptyString => EmptyString
  | String c s' => String (lower_char c) (lower s')
  end.

(** [kw in s] for two strings: [kw] occurs in [s] as a contiguous piece. *)
Fixpoint contains (kw s : string) : bool :=
  prefix kw s ||
  match s with
  | EmptyString => false
  | String _ s' => contains kw s'
  end.

(** [any(word in s for word in words)] *)
Definition any_in (words : list string) (s : string) : bool :=
  existsb (fun word => contains word s) words.

(** [str.isdigit] on one character: 0..9 and the superscripts two, three
    and one (U+00B2, U+00B3, U+00B9). *)
Definition isdigit_any (c : ascii) : bool :=
  between 48 57 c
  || (code c =? 178)%N || (code c =? 179)%N || (code c =? 185)%N.

(** [kw.isdigit()]: non-empty and made of digits only. *)
Fixpoint all_digits (s : string) : bool :=
  match s with
  | EmptyString => true
  | String c s' => isdigit_any c && all_digits s'
  end.

Definition isdigit (s : string) : bool :=
  match s with
  | EmptyString => false
  | _ => all_digits s
  end.

Fixpoint lstrip (s : string) : string :=
  match s with
  | EmptyString => EmptyString
  | String c s' => if isspace c then lstrip s' else s
  end.

Fixpoint rstrip (s : string) : string :=
  match s with
  | EmptyString => EmptyString
  | String c s' =>
      match rstrip s' with
      | EmptyString => if isspace c then EmptyString else String c EmptyString
      | t => String c t
      end
  end.

(** [s.strip()] *)
Definition strip (s : string) : string := rstrip (lstrip s).

(** Truth value of a string: empty is false. *)
Definition truthy (s : string) : bool :=
  match s with
  | EmptyString => false
  | _ => true
  end.

(** ** [int(digits)]

    The interpreter refuses to convert a decimal literal of more than
    [sys.int_max_str_digits] (4300 by default) digits and raises
    [ValueError]; leading zeros count. *)

Definition int_max_str_digits : nat := 4300.

Definition digit_value (c : ascii) : Z := Z.of_N (code c - 48).

Fixpoint int_digits (acc : Z) (s : string) : Z :=
  match s with
  | EmptyString => acc
  | String c s' => int_digits (10 * acc + digit_value c) s'
  end.

Definition str_nat (n : nat) : string :=
  NilEmpty.string_of_uint (Nat.to_uint n).

Definition int (s : string) : outcome Z :=
  if Nat.ltb int_max_str_digits (String.length s)
  then Raised (ValueError
         ("Exceeds the limit (4300 digits) for integer string conversion: value has "
          ++ str_nat (String.length s)
          ++ " digits; use sys.set_int_max_str_digits() to increase the limit"))
  else Ok (int_digits 0 s).

(** ** Dictionaries: insertion-ordered, keyed by strings. *)

Definition dict (V : Type) : Type := list (string * V).

Fixpoint get {V} (k : string) (d : dict V) : option V :=
  match d with
  | [] => None
  | (k', v) :: d' => if String.eqb k k' then Some v else get k d'
  end.

(** [k in d] *)
Definition mem {V} (k : string) (d : dict V) : bool :=
  match get k d with
  | Some _ => true
  | None => false
  end.

(** [d[k] = v]: an existing key keeps its place, a new one goes last. *)
Fixpoint set {V} (k : string) (v : V) (d : dict V) : dict V :=
  match d with
  | [] => [(k, v)]
  | (k', v') :: d' =>
      if String.eqb k k' then (k', v) :: d' else (k', v') :: set k v d'
  end.

Definition keys {V} (d : dict V) : list string := map fst d.

(** [d[k]], raising [KeyError] on a missing key. *)
Definition getitem {V} (k : string) (d : dict V) : outcome V :=
  match get k d with
  | Some v => Ok v
  | None => Raised (KeyError k)
  end.

(** ** [min] and [max] with a key function

    Both scan left to right and replace the current choice only on a
    strict improvement, so the first of several equal extremes is kept. *)

Definition Qlt_bool (x y : Q) : bool := negb (Qle_bool y x).

Fixpoint min_scan {A} (key : A -> Q) (best : A) (l : list A) : A :=
  match l with
  | [] => best
  | x :: l' => min_scan key (if Qlt_bool (key x) (key best) then x else best) l'
  end.

(** [min(l, key=key)]; [None] stands for the [ValueError] on an empty [l]. *)
Definition min_by {A} (key : A -> Q) (l : list A) : option A :=
  match l with
  | [] => None
  | x :: l' => Some (min_scan key x l')
  end.

Fixpoint max_scan {A} (key : A -> nat) (best : A) (l : list A) : A :=
  match l with
  | [] => best
  | x :: l' => max_scan key (if Nat.ltb (key best) (key x) then x else best) l'
  end.

(** [max(l, key=key)] *)
Definition max_by {A} (key : A -> nat) (l : list A) : option A :=
  match l with
  | [] => None
  | x :: l' => Some (max_scan key x l')
  end.

End Py.

(* ================================================================== *)
(** * The fragment of [re] used by the parser

    A backtracking matcher with the priorities of Python's [re]: the
    alternatives of [|] are tried left to right, [?] and [+] try the longer
    match first, [+?] the shorter one first, and [search] tries the start
    positions from the left. There is one capturing group. *)

Module Re.

Inductive regex : Type :=
| Lit (t : string)                     (* literal text *)
| Alt (r1 r2 : regex)                  (* r1|r2 *)
| Seq (r1 r2 : regex)                  (* r1r2 *)
| Opt (r : regex)                      (* (?:r)? *)
| Plus (cls : ascii -> bool)           (* [cls]+ *)
| PlusLazy (cls : ascii -> bool)       (* [cls]+? *)
| Group (r : regex).                   (* (r), group 1 *)

(** [s] without its prefix [t], when it starts with [t]. *)
Fixpoint drop_prefix (t s : string) : option string :=
  match t, s with
  | EmptyString, _ => Some s
  | String a t', String b s' =>
      if Ascii.eqb a b then drop_prefix t' s' else None
  | String _ _, EmptyString => None
  end.

Fixpoint take (n : nat) (s : string) : string :=
  match n, s with
  | S n', String c s' => String c (take n' s')
  | _, _ => EmptyString
  end.

(** The text consumed between the suffix [s] and its later suffix [s']. *)
Definition consumed (s s' : string) : string :=
  take (String.length s - String.length s') s.

Section Matcher.
Context {R : Type}.

(** [cls+] then [k]: longest run first. *)
Fixpoint plus_greedy (cls : ascii -> bool) (s : string)
         (k : string -> option R) : option R :=
  match s with
  | EmptyString => None
  | String c s' =>
      if cls c then
        match plus_greedy cls s' k with
        | Some x => Some x
        | None => k s'
        end
      else None
  end.

(** [cls+?] then [k]: shortest run first. *)
Fixpoint plus_lazy (cls : ascii -> bool) (s : string)
         (k : string -> option R) : option R :=
  match s with
  | EmptyString => None
  | String c s' =>
      if cls c then
        match k s' with
        | Some x => Some x
        | None => plus_lazy cls s' k
        end
      else None
  end.

(** Match [r] at the head of [s], then hand the rest of the input and
    the content of group 1 to [k]; a failure of [k] makes the matcher
    try its next choice. *)
Fixpoint run (r : regex) (s : string) (g : option string)
         (k : string -> option string -> option R) : option R :=
  match r with
  | Lit t =>
      match drop_prefix t s with
      | Some s' => k s' g
      | None => None
      end
  | Alt r1 r2 =>
      match run r1 s g k with
      | Some x => Some x
      | None => run r2 s g k
      end
  | Seq r1 r2 => run r1 s g (fun s' g' => run r2 s' g' k)
  | Opt r1 =>
      match run r1 s g k with
      | Some x => Some x
      | None => k s g
      end
  | Plus cls => plus_greedy cls s (fun s' => k s' g)
  | PlusLazy cls => plus_lazy cls s (fun s' => k s' g)
  | Group r1 => run r1 s g (fun s' _ => k s' (Some (consumed s s')))
  end.
End Matcher.

(** [re.search(r, s)]: the content of group 1 of the leftmost match. *)
Fixpoint search (r : regex) (s : string) : option (option string) :=
  match run r s None (fun _ g => Some g) with
  | Some g => Some g
  | None =>
      match s with
      | EmptyString => None
      | String _ s' => search r s'
      end
  end.

(** [m.group(1)] of a match in which group 1 took part. *)
Definition group1 (m : option string) : string :=
  match m with
  | Some t => t
  | None => EmptyString
  end.

Fixpoint alts (r : regex) (rs : list regex) : regex :=
  match rs with
  | [] => r
  | r' :: rs' => Alt r (alts r' rs')
  end.

End Re.

(* ================================================================== *)
(** * [config.py] *)

Module Config.

(** Common destinations with keywords for smart matching. *)
Definition COMMON_DESTINATIONS : Py.dict (list string) :=
  [ ("work", ["work"; "office"; "workplace"; "company"]);
    ("home", ["home"; "house"; "apartment"; "residence"]);
    ("jaypee institute of information technology sec 62 noida",
     ["jaypee"; "jiit"; "sec 62"; "sector 62"; "noida"]);
    ("jaypee institute of information technology sec 128 jaypee wishtown noida",
     ["jaypee"; "jiit"; "sec 128"; "sector 128"; "wishtown"; "noida"]) ].

Definition DEFAULT_APPS : list string := ["uber"; "ola"; "rapido"].

End Config.

(* ================================================================== *)
(** * [models/] *)

Module RidePreferences.
Record t : Type := Build {
  destination : string;
  ride_type : string;
  vehicle_type : option string;
  passengers : Z;
  luggage : bool;
  ac_preference : option bool;
  budget_constraint : option Q
}.
End RidePreferences.

Module PriceInfo.
Record t : Type := Build {
  app_name : string;
  ride_type : string;
  estimated_price : Q;
  estimated_time : string;
  distance : option string;
  currency : string;
  extra_charges : option string;
  available : bool
}.
End PriceInfo.

Module BookingInfo.
Record t : Type := Build {
  booking_id : string;
  app_name : string;
  ride_type : string;
  estimated_price : Q;
  estimated_arrival : string;
  driver_name : option string;
  driver_rating : option Q;
  vehicle_details : option string;
  status : string;
  pickup_location : option string;
  destination : option string
}.
End BookingInfo.

(* ================================================================== *)
(** * [tools/nlp_parser.py] *)

Module NlpParser.
Import Re.

(** ** [_match_destination] *)

(** [[kw for kw in keywords if kw in user_lower]] *)
Definition matching_keywords (keywords : list string) (user_lower : string)
  : list string :=
  filter (fun kw => Py.contains kw user_lower) keywords.

(** The first loop: one entry of [matches] per destination with a hit. *)
Fixpoint find_matches (items : Py.dict (list string)) (user_lower : string)
         (matches : Py.dict nat) : Py.dict nat :=
  match items with
  | [] => matches
  | (dest_full_name, keywords) :: rest =>
      let found := matching_keywords keywords user_lower in
      find_matches rest user_lower
        (match found with
         | [] => matches
         | _ :: _ => Py.set dest_full_name (List.length found) matches
         end)
  end.

(** [len(kw) > 3 and kw.isdigit() or "sec" in kw or "sector" in kw];
    [and] binds tighter than [or]. *)
Definition is_specific (kw : string) : bool :=
  (Nat.ltb 3 (String.length kw) && Py.isdigit kw)
  || Py.contains "sec" kw
  || Py.contains "sector" kw.

Definition specific_matches (keywords : list string) (user_lower : string)
  : list string :=
  filter (fun kw => Py.contains kw user_lower) (filter is_specific keywords).

(** The second loop: the first matched destination with a specific hit. *)
Fixpoint disambiguate (items : Py.dict (list string)) (user_lower : string)
         (matches : Py.dict nat) : option string :=
  match items with
  | [] => None
  | (dest_full_name, keywords) :: rest =>
      if negb (Py.mem dest_full_name matches)
      then disambiguate rest user_lower matches
      else
        match specific_matches keywords user_lower with
        | _ :: _ => Some dest_full_name
        | [] => disambiguate rest user_lower matches
        end
  end.

(** [_match_destination] over a destination table; [None] is Python's. *)
Definition match_destination_in (table : Py.dict (list string))
           (user_input : string) : option string :=
  let user_lower := Py.lower user_input in
  let matches := find_matches table user_lower [] in
  match matches with
  | [] => None
  | [(dest, _)] => Some dest
  | _ :: _ :: _ =>
      match disambiguate table user_lower matches with
      | Some dest => Some dest
      | None => option_map fst (Py.max_by snd matches)
      end
  end.

Definition _match_destination (user_input : string) : option string :=
  match_destination_in Config.COMMON_DESTINATIONS user_input.

(** ** The disambiguation rule in the words of the specification *)

(** The raw match count: how many keywords occur in the input, counted
    one keyword at a time. *)
Fixpoint count_hits (user_lower : string) (keywords : list string) : nat :=
  match keywords with
  | [] => 0
  | kw :: rest =>
      if Py.contains kw user_lower
      then S (count_hits user_lower rest)
      else count_hits user_lower rest
  end.

Definition hit_count (user_lower : string) (entry : string * list string)
  : nat :=
  count_hits user_lower (snd entry).

(** The entry is a candidate, it has keyword matches: some keyword of it
    occurs in the input. *)
Definition candidate (user_lower : string) (entry : string * list string)
  : bool :=
  existsb (fun kw => Py.contains kw user_lower) (snd entry).

(** What [matches] holds for a candidate. *)
Definition tally (user_lower : string) (entry : string * list string)
  : string * nat :=
  (fst entry, hit_count user_lower entry).

(** A specific keyword: longer than 3 characters and purely numeric, or
    containing "sec", or containing "sector". *)
Definition specific_keyword (kw : string) : Prop :=
  (3 < String.length kw /\ Py.isdigit kw = true)%nat
  \/ Py.contains "sec" kw = true
  \/ Py.contains "sector" kw = true.

(** The entry has a hit on a specific keyword. *)
Definition specific_hit (user_lower : string) (entry : string * list string)
  : Prop :=
  exists kw, In kw (snd entry) /\ specific_keyword kw
             /\ Py.contains kw user_lower = true.

(** ** [parse_ride_preferences] *)

Definition letter_or_space (c : ascii) : bool :=
  Py.isalpha_ascii c || Py.isspace c.

(** [(?:to|go to|take me to|head to|towards?|near)] *)
Definition direction_marker : regex :=
  alts (Lit "to")
       [Lit "go to"; Lit "take me to"; Lit "head to";
        Seq (Lit "toward") (Opt (Lit "s")); Lit "near"].

(** [(?:\s+(?:in|by|using|with|as|please|now))?] *)
Definition trailing_qualifier : regex :=
  Opt (Seq (Plus Py.isspace)
           (alts (Lit "in")
                 [Lit "by"; Lit "using"; Lit "with"; Lit "as";
                  Lit "please"; Lit "now"])).

(** [(?:to|go to|take me to|head to|towards?|near)\s+([a-zA-Z\s]+?)
     (?:\s+(?:in|by|using|with|as|please|now))?] *)
Definition destination_pattern : regex :=
  Seq direction_marker
   (Seq (Plus Py.isspace)
    (Seq (Group (PlusLazy letter_or_space)) trailing_qualifier)).

(** [(\d+)\s+(?:of us|people|passengers|persons)] *)
Definition passengers_pattern : regex :=
  Seq (Group (Plus Py.isdigit_char))
   (Seq (Plus Py.isspace)
        (alts (Lit "of us") [Lit "people"; Lit "passengers"; Lit "persons"])).

(** The regex fallback of the destination. *)
Definition regex_destination (user_input : string) : string :=
  match search destination_pattern (Py.lower user_input) with
  | Some destination_match => Py.strip (group1 destination_match)
  | None => "current location"
  end.

(** Destination: smart matching first, the regex when that gave nothing
    ([if not destination] holds for [None] and for the empty string). *)
Definition extract_destination (user_input : string) : string :=
  match _match_destination user_input with
  | Some destination =>
      if Py.truthy destination then destination
      else regex_destination user_input
  | None => regex_destination user_input
  end.

(** Detect ride type from keywords. *)
Definition detect_ride_type (user_input : string) : string :=
  let l := Py.lower user_input in
  if Py.any_in ["rick"; "rickshaw"; "auto-rickshaw"] l then "rickshaw"
  else if Py.any_in ["bike"; "motorcycle"; "two-wheeler"] l then "bike"
  else if Py.any_in ["auto"; "auto rickshaw"] l then "auto"
  else if Py.any_in ["premium"; "comfortable"; "xl"; "suv"] l then "premium"
  else "car".

(** Detect AC preference. *)
Definition detect_ac_preference (user_input : string) : option bool :=
  let l := Py.lower user_input in
  if Py.contains "ac" l || Py.contains "air" l then Some true
  else if Py.any_in ["no ac"; "without ac"; "non-ac"] l then Some false
  else None.

(** Detect luggage requirement. *)
Definition detect_luggage (user_input : string) : bool :=
  Py.any_in ["luggage"; "bag"; "baggage"; "suitcase"] (Py.lower user_input).

(** Detect passenger count; [int] may raise. *)
Definition detect_passengers (user_input : string) : Py.outcome Z :=
  let l := Py.lower user_input in
  if Py.contains "we" l || Py.contains "us" l then
    match search passengers_pattern l with
    | Some num_match => Py.int (group1 num_match)
    | None => Py.Ok 1%Z
    end
  else Py.Ok 1%Z.

(** The body of the [try] block, up to the preferences object. *)
Definition build_preferences (user_input : string)
  : Py.outcome RidePreferences.t :=
  let destination := extract_destination user_input in
  let ride_type := detect_ride_type user_input in
  let ac_preference := detect_ac_preference user_input in
  let luggage := detect_luggage user_input in
  Py.bind (detect_passengers user_input) (fun passengers =>
  Py.Ok {| RidePreferences.destination := destination;
           RidePreferences.ride_type := ride_type;
           RidePreferences.vehicle_type := None;
           RidePreferences.passengers := passengers;
           RidePreferences.luggage := luggage;
           RidePreferences.ac_preference := ac_preference;
           RidePreferences.budget_constraint := None |}).

(** The returned [str]: either the JSON text of a preferences object,
    represented by the object it encodes, or a plain message. *)
Inductive reply : Type :=
| Json (prefs : RidePreferences.t)
| Message (text : string).

Definition parse_ride_preferences (user_input : string) : reply :=
  match build_preferences user_input with
  | Py.Ok prefs => Json prefs
  | Py.Raised e => Message ("Error: " ++ Py.str_exn e)
  end.

End NlpParser.

(* ================================================================== *)
(** * [orchestrator.py] *)

Module Orchestrator.
Import Py.

(** Result of price comparison. The [comparison_summary] text, rendered
    from the other three fields, is not carried. *)
Record ComparisonResult : Type := {
  prices : dict PriceInfo.t;
  cheapest_app : string;
  cheapest_price : Q
}.

(** The keys of [self.agents], in the order of [__init__]. *)
Definition agents : list string := ["uber"; "ola"; "rapido"].

(** [app_name in self.agents] *)
Definition registered (app_name : string) : bool :=
  existsb (String.eqb app_name) agents.

(** What the provider agents answer. The methods of [BaseCabAgent] catch
    every exception themselves and answer [False] or [None] instead; their
    answers depend on the device, so they are a parameter. A price fetch is
    identified by its position among the launched tasks and by the agent it
    runs on; [close_app] always answers [True]. *)
Record World : Type := {
  open_app : nat -> string -> bool;
  get_price : nat -> string -> string -> string -> RidePreferences.t
              -> option PriceInfo.t;
  book_ride : string -> string -> string -> RidePreferences.t -> PriceInfo.t
              -> option BookingInfo.t
}.

(** The calls the orchestrator makes, in the order it issues them. *)
Inductive call : Type :=
| Fetch (app_name : string)
| Book (app_name : string) (price_info : PriceInfo.t).

(** The orchestrator's own fields and the calls made so far. *)
Record state : Type := {
  last_comparison : option ComparisonResult;
  last_booking : option BookingInfo.t;
  calls : list call
}.

Definition initial : state :=
  {| last_comparison := None; last_booking := None; calls := [] |}.

(** Computations that read and write the orchestrator and may raise. *)
Definition M (A : Type) : Type := state -> outcome A * state.

Definition ret {A} (a : A) : M A := fun s => (Ok a, s).

Definition raise {A} (e : exn) : M A := fun s => (Raised e, s).

Definition mbind {A B} (m : M A) (f : A -> M B) : M B :=
  fun s =>
    match m s with
    | (Ok a, s') => f a s'
    | (Raised e, s') => (Raised e, s')
    end.

(** [try: m except Exception as e: h e]; what [m] did before raising stays
    done. *)
Definition try_except {A} (m : M A) (h : exn -> M A) : M A :=
  fun s =>
    match m s with
    | (Ok a, s') => (Ok a, s')
    | (Raised e, s') => h e s'
    end.

Definition lift {A} (o : outcome A) : M A := fun s => (o, s).

Definition record (cs : list call) : M unit :=
  fun s => (Ok tt, {| last_comparison := last_comparison s;
                      last_booking := last_booking s;
                      calls := calls s ++ cs |}).

Definition set_last_comparison (r : ComparisonResult) : M unit :=
  fun s => (Ok tt, {| last_comparison := Some r;
                      last_booking := last_booking s;
                      calls := calls s |}).

Definition set_last_booking (b : BookingInfo.t) : M unit :=
  fun s => (Ok tt, {| last_comparison := last_comparison s;
                      last_booking := Some b;
                      calls := calls s |}).

Declare Scope orch_scope.
Delimit Scope orch_scope with orch.
Notation "x <- m ;; k" := (mbind m (fun x => k))
  (at level 61, m at next level, right associativity) : orch_scope.
Notation "m ;;; k" := (mbind m (fun _ => k))
  (at level 61, right associativity) : orch_scope.
Local Open Scope orch_scope.

Section Request.
Variable w : World.
Variables (pickup_location destination : string).
Variable preferences : RidePreferences.t.

(** Fetch price from a single app, as the [task]-th launched task:
    [None] when [self.agents[app_name]] raises [KeyError], which the
    handler swallows, and when the app does not open, else what
    [get_price] answers. *)
Definition _fetch_price_from_app (task : nat) (app_name : string)
  : option PriceInfo.t :=
  if negb (registered app_name) then None
  else if negb (open_app w task app_name) then None
  else get_price w task app_name pickup_location destination preferences.

(** The launch loop: one task per entry of [apps] that is in
    [self.agents]. *)
Definition launch (apps : list string) : list string :=
  filter registered apps.

(** [asyncio.gather] over the tasks: the results in the order of the
    tasks. *)
Fixpoint gather (task : nat) (tasks : list string)
  : list (option PriceInfo.t) :=
  match tasks with
  | [] => []
  | app_name :: rest =>
      _fetch_price_from_app task app_name :: gather (S task) rest
  end.

(** The loop [for i, app_name in enumerate(apps)] that fills [prices].
    [results[i]] beyond the end raises [IndexError], which the [except]
    inside the loop body swallows; a [None] result stores nothing. No
    gathered result is an exception, since the fetch answers [None] where
    an agent fails, and a [PriceInfo] is always true. *)
Fixpoint collect (i : nat) (apps : list string)
         (results : list (option PriceInfo.t)) (prices : dict PriceInfo.t)
  : dict PriceInfo.t :=
  match apps with
  | [] => prices
  | app_name :: rest =>
      collect (S i) rest results
        (if registered app_name then
           match nth_error results i with
           | Some (Some result) => set app_name result prices
           | Some None => prices
           | None => prices
           end
         else prices)
  end.

(** [prices[k].estimated_price], for [k] among the keys of [prices]. *)
Definition price_of (prices : dict PriceInfo.t) (k : string) : Q :=
  match get k prices with
  | Some price_info => PriceInfo.estimated_price price_info
  | None => 0
  end.

(** [if apps is None: apps = list(self.agents.keys())] *)
Definition requested (apps : option (list string)) : list string :=
  match apps with
  | None => agents
  | Some given => given
  end.

(** Compare prices across multiple cab apps; [apps = None] means all. *)
Definition compare_prices (apps : option (list string))
  : M ComparisonResult :=
  let apps := requested apps in
  let tasks := launch apps in
  record (map Fetch tasks) ;;;
  let results := gather 0 tasks in
  let prices := collect 0 apps results [] in
  match prices with
  | [] => raise (ValueError "Could not fetch prices from any app")
  | _ :: _ =>
      match min_by (price_of prices) (keys prices) with
      | None => raise (ValueError "min() arg is an empty sequence")
      | Some cheapest =>
          let comparison_result :=
            {| prices := prices;
               cheapest_app := cheapest;
               cheapest_price := price_of prices cheapest |} in
          set_last_comparison comparison_result ;;;
          ret comparison_result
      end
  end.

(** The quote map in the words of the specification: the providers of
    [apps] that returned a quote, each with the quote of its own fetch, in
    the order of [apps]; the [i]-th entry of [apps] is fetched by task
    [first + i]. *)
Fixpoint quotes_in_order (first : nat) (apps : list string)
  : dict PriceInfo.t :=
  match apps with
  | [] => []
  | app_name :: rest =>
      match _fetch_price_from_app first app_name with
      | Some quote => (app_name, quote) :: quotes_in_order (S first) rest
      | None => quotes_in_order (S first) rest
      end
  end.

(** Book the cheapest ride from the comparison; [None] on any failure. *)
Definition book_cheapest (comparison : option ComparisonResult)
  : M (option BookingInfo.t) :=
  try_except
    (comparison <- match comparison with
                   | None => compare_prices None
                   | Some given => ret given
                   end ;;
     let cheapest := cheapest_app comparison in
     price_info <- lift (getitem cheapest (prices comparison)) ;;
     (if registered cheapest then ret tt else raise (KeyError cheapest)) ;;;
     record [Book cheapest price_info] ;;;
     let booking :=
       book_ride w cheapest pickup_location destination preferences
                 price_info in
     match booking with
     | Some confirmed => set_last_booking confirmed ;;; ret booking
     | None => ret booking
     end)
    (fun _ => ret None).

End Request.

(** Parse natural language user input to extract preferences: the text
    returned by the parser goes through [json.loads]; a text that is not
    JSON raises, and the handler re-raises. *)
Definition parse_user_input (user_input : string)
  : outcome RidePreferences.t :=
  match NlpParser.parse_ride_preferences user_input with
  | NlpParser.Json prefs => Ok prefs
  | NlpParser.Message _ =>
      Raised (JSONDecodeError "Expecting value: line 1 column 1 (char 0)")
  end.

End Orchestrator.

(* ================================================================== *)
(** * Concrete requests used in the statements below *)

Module Scenario.
Import Orchestrator.

Definition quote (app ride : string) (price : Q) : PriceInfo.t :=
  {| PriceInfo.app_name := app;
     PriceInfo.ride_type := ride;
     PriceInfo.estimated_price := price;
     PriceInfo.estimated_time := "7 mins";
     PriceInfo.distance := None;
     PriceInfo.currency := "INR";
     PriceInfo.extra_charges := None;
     PriceInfo.available := true |}.

Definition to_airport : RidePreferences.t :=
  {| RidePreferences.destination := "airport";
     RidePreferences.ride_type := "car";
     RidePreferences.vehicle_type := None;
     RidePreferences.passengers := 1%Z;
     RidePreferences.luggage := false;
     RidePreferences.ac_preference := None;
     RidePreferences.budget_constraint := None |}.

Definition uber_quote : PriceInfo.t := quote "Uber" "UberGo" 120.
Definition ola_quote : PriceInfo.t := quote "Ola" "Mini" 150.
Definition rapido_quote : PriceInfo.t := quote "Rapido" "Bike" 99.

(** A world whose price fetches answer by agent name alone and in which
    every booking fails. *)
Definition answering (answer : string -> option PriceInfo.t) : World :=
  {| open_app := fun _ _ => true;
     get_price := fun _ app_name _ _ _ => answer app_name;
     book_ride := fun _ _ _ _ _ => None |}.

(** The three providers report 120, 150 and 99. *)
Definition three_quotes : World :=
  answering (fun app_name =>
    if String.eqb app_name "uber" then Some uber_quote
    else if String.eqb app_name "ola" then Some ola_quote
    else if String.eqb app_name "rapido" then Some rapido_quote
    else None).

(** No provider reports anything. *)
Definition all_fail : World := answering (fun _ => None).

(** Uber fails, the other two report 150 and 99. *)
Definition uber_down : World :=
  answering (fun app_name =>
    if String.eqb app_name "ola" then Some ola_quote
    else if String.eqb app_name "rapido" then Some rapido_quote
    else None).

(** Only uber reports a quote. *)
Definition only_uber : World :=
  answering (fun app_name =>
    if String.eqb app_name "uber" then Some uber_quote else None).

(** Uber is asked twice: its first fetch fails, its second reports 100,
    the price ola reports in between. *)
Definition uber_twice : World :=
  {| open_app := fun _ _ => true;
     get_price := fun task app_name _ _ _ =>
       match task with
       | O => None
       | S O => Some (quote "Ola" "Mini" 100)
       | _ => Some (quote "Uber" "UberGo" 100)
       end;
     book_ride := fun _ _ _ _ _ => None |}.

(** A text with a passenger count of [n] digits. *)
Fixpoint ones (n : nat) : string :=
  match n with
  | O => EmptyString
  | S n' => String "1" (ones n')
  end.

Definition crowd : string := "us " ++ ones 4301 ++ " people".

End Scenario.

(* ================================================================== *)
(** * [tools/nlp_parser.py]: [validate_location] *)

Module LocationTools.

Definition common_locations : Py.dict string :=
  [ ("airport", "Indira Gandhi International Airport");
    ("igai", "Indira Gandhi International Airport");
    ("railway station", "New Delhi Railway Station");
    ("station", "New Delhi Railway Station");
    ("home", "Home");
    ("office", "Office") ].

(** Validate and normalize location string: strip, then look the
    lower-cased text up, keeping the stripped text when it is unknown.
    Nothing in the [try] block raises on a string. *)
Definition validate_location (location : string) : string :=
  let location := Py.strip location in
  let location_lower := Py.lower location in
  match Py.get location_lower common_locations with
  | Some normalized => normalized
  | None => location
  end.

End LocationTools.

(* ================================================================== *)
(** * [agents/]: the ride type each agent asks for *)

Module UberAgent.

Definition mapping : Py.dict string :=
  [ ("car", "UberGo"); ("rickshaw", "Uber Auto"); ("bike", "Uber Moto");
    ("premium", "Uber XL"); ("auto", "Uber Auto") ].

(** Map ride preference to Uber ride types. *)
Definition _map_ride_type (preference : string) : string :=
  match Py.get (Py.lower preference) mapping with
  | Some label => label
  | None => "UberGo"
  end.

End UberAgent.

Module OlaAgent.

Definition mapping : Py.dict string :=
  [ ("car", "Ola Prime"); ("rickshaw", "Ola Auto"); ("bike", "Ola Bike");
    ("premium", "Ola Plus"); ("auto", "Ola Auto") ].

(** Map ride preference to Ola ride types. *)
Definition _map_ride_type (preference : string) : string :=
  match Py.get (Py.lower preference) mapping with
  | Some label => label
  | None => "Ola Prime"
  end.

End OlaAgent.

Module RapidoAgent.

Definition mapping : Py.dict string :=
  [ ("car", "Auto"); ("rickshaw", "Auto"); ("bike", "Bike");
    ("premium", "Auto"); ("auto", "Auto") ].

(** Map ride preference to Rapido ride types. *)
Definition _map_ride_type (preference : string) : string :=
  match Py.get (Py.lower preference) mapping with
  | Some label => label
  | None => "Auto"
  end.

End RapidoAgent.

(* ================================================================== *)
(** * [orchestrator.py] and [main.py]: the ranking of the summary *)

Module Ranking.
Import Py.

(** [sorted(l, key=key)] for finite keys: the stable sort; entries with
    equal keys keep the order they have in [l]. *)
Fixpoint insert_sorted {A} (key : A -> Q) (x : A) (l : list A) : list A :=
  match l with
  | [] => [x]
  | y :: l' =>
      if Qlt_bool (key y) (key x) then y :: insert_sorted key x l'
      else x :: l
  end.

Fixpoint sorted {A} (key : A -> Q) (l : list A) : list A :=
  match l with
  | [] => []
  | x :: l' => insert_sorted key x (sorted key l')
  end.

(** [sorted(prices.items(), key=lambda x: x[1].estimated_price)] *)
Definition sorted_prices (prices : dict PriceInfo.t)
  : list (string * PriceInfo.t) :=
  sorted (fun x => PriceInfo.estimated_price (snd x)) prices.

(** The three medals printed in front of a row. *)
Inductive medal : Type := Gold | Silver | Bronze.

(** [_build_comparison_summary]: gold [if app_name == cheapest_app], else
    silver [if rank == 2], else bronze. *)
Definition summary_medal (cheapest_app app_name : string) (rank : nat)
  : medal :=
  if String.eqb app_name cheapest_app then Gold
  else if Nat.eqb rank 2 then Silver
  else Bronze.

(** [_display_comparison]: gold [if rank == 1], else silver
    [if rank == 2], else bronze. *)
Definition display_medal (rank : nat) : medal :=
  if Nat.eqb rank 1 then Gold
  else if Nat.eqb rank 2 then Silver
  else Bronze.

(** The rows of [_build_comparison_summary], in the order of
    [enumerate(sorted_prices, 1)], before they are rendered as text:
    medal, rank, app and quote. *)
Fixpoint summary_rows_from (cheapest_app : string) (rank : nat)
         (items : list (string * PriceInfo.t))
  : list (medal * nat * string * PriceInfo.t) :=
  match items with
  | [] => []
  | (app_name, price_info) :: rest =>
      (summary_medal cheapest_app app_name rank, rank, app_name, price_info)
      :: summary_rows_from cheapest_app (S rank) rest
  end.

Definition summary_rows (prices : dict PriceInfo.t) (cheapest_app : string)
  : list (medal * nat * string * PriceInfo.t) :=
  summary_rows_from cheapest_app 1 (sorted_prices prices).

(** The rows of the table of [_display_comparison], likewise. *)
Fixpoint display_rows_from (rank : nat) (items : list (string * PriceInfo.t))
  : list (medal * nat * string * PriceInfo.t) :=
  match items with
  | [] => []
  | (app_name, price_info) :: rest =>
      (display_medal rank, rank, app_name, price_info)
      :: display_rows_from (S rank) rest
  end.

Definition display_rows (prices : dict PriceInfo.t)
  : list (medal * nat * string * PriceInfo.t) :=
  display_rows_from 1 (sorted_prices prices).

End Ranking.

(* ================================================================== *)
(** * [orchestrator.py]: which quote a repeated name keeps *)

Module Pairing.
Import Orchestrator.

Section Request.
Variable w : World.
Variables (pickup_location destination : string).
Variable preferences : RidePreferences.t.

(** Among the fetches launched for [k], in a list whose [i]-th entry is
    fetched by task [first + i], the quote of the last one that returned
    a quote. *)
Fixpoint last_quote (first : nat) (apps : list string) (k : string)
  : option PriceInfo.t :=
  match apps with
  | [] => None
  | app_name :: rest =>
      match last_quote (S first) rest k with
      | Some quote => Some quote
      | None =>
          if String.eqb k app_name
          then _fetch_price_from_app w pickup_location destination
                                     preferences first app_name
          else None
      end
  end.

End Request.
End Pairing.

(* ================================================================== *)
(** * The fragment of [re] used by the validators of [utils.py]

    Matching without groups, with the same priorities as before: [|]
    tries its left side first, [?], [+] and [*] the longer match first.
    [re.match] tries the start of the text only, where [^] holds. *)

Module Rx.

Inductive rx : Type :=
| Chr (cls : ascii -> bool)            (* one character of a class *)
| Txt (t : string)                     (* literal text *)
| Alt (r1 r2 : rx)                     (* r1|r2 *)
| Seq (r1 r2 : rx)                     (* r1r2 *)
| Opt (r : rx)                         (* (?:r)? *)
| Plus (cls : ascii -> bool)           (* [cls]+ *)
| Star (cls : ascii -> bool)           (* [cls]* *)
| Eol.                                 (* $ *)

Definition is_newline (c : ascii) : bool := (Py.code c =? 10)%N.

Section Matcher.
Context {R : Type}.

(** [cls*] then [k]: longest run first. *)
Fixpoint star_greedy (cls : ascii -> bool) (s : string)
         (k : string -> option R) : option R :=
  match s with
  | EmptyString => k s
  | String c s' =>
      if cls c then
        match star_greedy cls s' k with
        | Some x => Some x
        | None => k s
        end
      else k s
  end.

(** [$]: the end of the text, or the place before a newline that ends
    the text. *)
Definition at_end (s : string) : bool :=
  match s with
  | EmptyString => true
  | String c EmptyString => is_newline c
  | String _ (String _ _) => false
  end.

Fixpoint run (r : rx) (s : string) (k : string -> option R) : option R :=
  match r with
  | Chr cls =>
      match s with
      | EmptyString => None
      | String c s' => if cls c then k s' else None
      end
  | Txt t =>
      match Re.drop_prefix t s with
      | Some s' => k s'
      | None => None
      end
  | Alt r1 r2 =>
      match run r1 s k with
      | Some x => Some x
      | None => run r2 s k
      end
  | Seq r1 r2 => run r1 s (fun s' => run r2 s' k)
  | Opt r1 =>
      match run r1 s k with
      | Some x => Some x
      | None => k s
      end
  | Plus cls => Re.plus_greedy cls s k
  | Star cls => star_greedy cls s k
  | Eol => if at_end s then k s else None
  end.
End Matcher.

(** [r{n}] for [n >= 1] *)
Fixpoint times (n : nat) (r : rx) : rx :=
  match n with
  | O => Txt EmptyString
  | S O => r
  | S n' => Seq r (times n' r)
  end.

(** [bool(re.match(r, s))] *)
Definition matches (r : rx) (s : string) : bool :=
  match run r s (fun _ => Some tt) with
  | Some _ => true
  | None => false
  end.

End Rx.

(* ================================================================== *)
(** * Matching with two groups

    The matcher of [nlp_parser] with a second capturing group, as the
    pattern of [format_time_estimate] needs it. A group that took part in
    a choice which is given up loses what it captured there, since every
    choice hands its own groups to the continuation. *)

Module Rg.

Inductive regex : Type :=
| Txt (t : string)                     (* literal text *)
| Alt (r1 r2 : regex)                  (* r1|r2 *)
| Seq (r1 r2 : regex)                  (* r1r2 *)
| Opt (r : regex)                      (* (?:r)? *)
| Plus (cls : ascii -> bool)           (* [cls]+ *)
| Group (n : nat) (r : regex).         (* (r), group n *)

Record groups : Type := {
  group_1 : option string;
  group_2 : option string
}.

Definition no_groups : groups := {| group_1 := None; group_2 := None |}.

Definition set_group (n : nat) (t : string) (g : groups) : groups :=
  match n with
  | 1%nat => {| group_1 := Some t; group_2 := group_2 g |}
  | 2%nat => {| group_1 := group_1 g; group_2 := Some t |}
  | _ => g
  end.

Section Matcher.
Context {R : Type}.

Fixpoint run (r : regex) (s : string) (g : groups)
         (k : string -> groups -> option R) : option R :=
  match r with
  | Txt t =>
      match Re.drop_prefix t s with
      | Some s' => k s' g
      | None => None
      end
  | Alt r1 r2 =>
      match run r1 s g k with
      | Some x => Some x
      | None => run r2 s g k
      end
  | Seq r1 r2 => run r1 s g (fun s' g' => run r2 s' g' k)
  | Opt r1 =>
      match run r1 s g k with
      | Some x => Some x
      | None => k s g
      end
  | Plus cls => Re.plus_greedy cls s (fun s' => k s' g)
  | Group n r1 =>
      run r1 s g (fun s' g' => k s' (set_group n (Re.consumed s s') g'))
  end.
End Matcher.

(** [re.search(r, s)]: the groups of the leftmost match. *)
Fixpoint search (r : regex) (s : string) : option groups :=
  match run r s no_groups (fun _ g => Some g) with
  | Some g => Some g
  | None =>
      match s with
      | EmptyString => None
      | String _ s' => search r s'
      end
  end.

End Rg.

(* ================================================================== *)
(** * [utils.py] *)

Module Utils.
Import Py.

(** [s.replace(c, '')] for a one-character [c] *)
Fixpoint remove_char (c : ascii) (s : string) : string :=
  match s with
  | EmptyString => EmptyString
  | String d s' =>
      if Ascii.eqb d c then remove_char c s' else String d (remove_char c s')
  end.

(** [^(?:\+91|0)?[6-9]\d{9}$] *)
Definition phone_pattern : Rx.rx :=
  Rx.Seq (Rx.Opt (Rx.Alt (Rx.Txt "+91") (Rx.Txt "0")))
   (Rx.Seq (Rx.Chr (between 54 57))
    (Rx.Seq (Rx.times 9 (Rx.Chr isdigit_char)) Rx.Eol)).

(** Validate Indian phone number. *)
Definition validate_phone_number (phone : string) : bool :=
  Rx.matches phone_pattern (remove_char "-" (remove_char " " phone)).

(** [a-zA-Z0-9] *)
Definition isalnum_ascii (c : ascii) : bool :=
  isalpha_ascii c || isdigit_char c.

(** [a-zA-Z0-9._%+-] *)
Definition local_char (c : ascii) : bool :=
  isalnum_ascii c
  || Ascii.eqb c "." || Ascii.eqb c "_" || Ascii.eqb c "%"
  || Ascii.eqb c "+" || Ascii.eqb c "-".

(** [a-zA-Z0-9.-] *)
Definition domain_char (c : ascii) : bool :=
  isalnum_ascii c || Ascii.eqb c "." || Ascii.eqb c "-".

(** [^[a-zA-Z0-9._%+-]+@[a-zA-Z0-9.-]+\.[a-zA-Z]{2,}$] *)
Definition email_pattern : Rx.rx :=
  Rx.Seq (Rx.Plus local_char)
   (Rx.Seq (Rx.Txt "@")
    (Rx.Seq (Rx.Plus domain_char)
     (Rx.Seq (Rx.Txt ".")
      (Rx.Seq (Rx.times 2 (Rx.Chr isalpha_ascii))
       (Rx.Seq (Rx.Star isalpha_ascii) Rx.Eol))))).

(** Validate email address. *)
Definition validate_email (email : string) : bool :=
  Rx.matches email_pattern email.

(** [(\d+)] *)
Definition eta_pattern : Re.regex := Re.Group (Re.Plus isdigit_char).

(** Extract number of minutes from ETA string; [None] when there is no
    number or when [int] raises. *)
Definition calculate_eta_in_minutes (eta_string : string) : option Z :=
  match Re.search eta_pattern eta_string with
  | Some found =>
      match int (Re.group1 found) with
      | Ok minutes => Some minutes
      | Raised _ => None
      end
  | None => None
  end.

(** [(\d+)(?:-(\d+))?\s+(?:mins?|minutes?)?] *)
Definition time_pattern : Rg.regex :=
  Rg.Seq (Rg.Group 1 (Rg.Plus isdigit_char))
  (Rg.Seq (Rg.Opt (Rg.Seq (Rg.Txt "-") (Rg.Group 2 (Rg.Plus isdigit_char))))
  (Rg.Seq (Rg.Plus isspace)
          (Rg.Opt (Rg.Alt (Rg.Seq (Rg.Txt "min") (Rg.Opt (Rg.Txt "s")))
                          (Rg.Seq (Rg.Txt "minute") (Rg.Opt (Rg.Txt "s"))))))).

(** [str(n)] for an [int], as an f-string prints it. *)
Definition str_int (n : Z) : string := NilZero.string_of_int (Z.to_int n).

(** Parse and format time estimate string. Both [int] calls are inside
    the [try]; when one raises, the text is returned as it came. *)
Definition format_time_estimate (minutes : string) : string :=
  match Rg.search time_pattern (lower minutes) with
  | Some m =>
      match int (Re.group1 (Rg.group_1 m)) with
      | Raised _ => minutes
      | Ok start =>
          let last :=
            if truthy (Re.group1 (Rg.group_2 m))
            then int (Re.group1 (Rg.group_2 m))
            else Ok start in
          match last with
          | Raised _ => minutes
          | Ok end_ =>
              if (start =? end_)%Z
              then "~" ++ str_int start ++ " min"
              else str_int start ++ "-" ++ str_int end_ ++ " min"
          end
      end
  | None => minutes
  end.

(** Every character of [s] passes [p]; the first character of [s] does. *)
Fixpoint all_chars (p : ascii -> bool) (s : string) : bool :=
  match s with
  | EmptyString => true
  | String c s' => p c && all_chars p s'
  end.

Definition head_is (p : ascii -> bool) (s : string) : bool :=
  match s with
  | EmptyString => false
  | String c _ => p c
  end.

Section BestDeal.
(** Subtraction of two floats, rounding included. *)
Variable float_sub : Q -> Q -> Q.

(** The loop that fills [savings]. *)
Fixpoint savings_from (cheapest_app : string) (cheapest_price : Q)
         (items : list (string * PriceInfo.t)) (savings : dict Q) : dict Q :=
  match items with
  | [] => savings
  | (app, price) :: rest =>
      savings_from cheapest_app cheapest_price rest
        (if negb (String.eqb app cheapest_app)
         then set app (float_sub (PriceInfo.estimated_price price)
                                 cheapest_price) savings
         else savings)
  end.

(** Find the best deal from multiple prices:
    [(app_name, price_info, savings_dict)]. *)
Definition get_best_deal (prices_dict : dict PriceInfo.t)
  : option string * option PriceInfo.t * dict Q :=
  match prices_dict with
  | [] => (None, None, [])
  | _ :: _ =>
      match min_by (Orchestrator.price_of prices_dict) (keys prices_dict) with
      | None => (None, None, [])
      | Some cheapest_app =>
          let cheapest_price :=
            Orchestrator.price_of prices_dict cheapest_app in
          (Some cheapest_app,
           get cheapest_app prices_dict,
           savings_from cheapest_app cheapest_price prices_dict [])
      end
  end.
End BestDeal.

End Utils.

(* ================================================================== *)
(** * [utils.py]: [FareHistory] *)

Module FareHistory.

Record entry : Type := {
  timestamp : string;
  data : Py.dict PriceInfo.t
}.

Record t : Type := {
  history : list entry;
  max_entries : Z
}.

(** [FareHistory(max_entries)] *)
Definition init (max_entries : Z) : t :=
  {| history := []; max_entries := max_entries |}.

(** [l[start:]]: a negative [start] counts from the end, and the bound
    is clipped to the list. *)
Definition slice_from {A} (start : Z) (l : list A) : list A :=
  let n := Z.of_nat (List.length l) in
  let first := if (start <? 0)%Z then Z.max (start + n) 0
               else Z.min start n in
  skipn (Z.to_nat first) l.

(** Add a comparison to history; [now] is [datetime.now().isoformat()]. *)
Definition add_comparison (now : string)
           (comparison_data : Py.dict PriceInfo.t) (self : t) : t :=
  let appended :=
    history self ++ [{| timestamp := now; data := comparison_data |}] in
  if (Z.of_nat (List.length appended) >? max_entries self)%Z
  then {| history := slice_from (- max_entries self) appended;
          max_entries := max_entries self |}
  else {| history := appended; max_entries := max_entries self |}.

(** [to_dict()["total_entries"]] *)
Definition total_entries (self : t) : nat := List.length (history self).

End FareHistory.

(* ================================================================== *)
(** * [tools/price_comparator.py] *)

Module PriceComparator.

(** A [float] as a price dictionary can carry it: a finite number, one
    of the two infinities, or NaN. *)
Inductive float : Type :=
| Finite (q : Q)
| PosInf
| NegInf
| NaN.

(** [x < y] and [x <= y] on floats: every comparison with NaN is false. *)
Definition lt_float (x y : float) : bool :=
  match x, y with
  | NaN, _ | _, NaN => false
  | _, NegInf => false
  | NegInf, _ => true
  | PosInf, _ => false
  | Finite _, PosInf => true
  | Finite a, Finite b => Py.Qlt_bool a b
  end.

Definition le_float (x y : float) : bool :=
  match x, y with
  | NaN, _ | _, NaN => false
  | NegInf, _ => true
  | _, PosInf => true
  | PosInf, _ => false
  | Finite _, NegInf => false
  | Finite a, Finite b => Qle_bool a b
  end.

(** A price info dictionary as these tools receive it: of the keys they
    read, each is present or missing, and a present key holds a value of
    the type of that field of [PriceInfo]. The other keys are carried
    along unread and are left out. *)
Record price : Type := {
  app_name : option string;
  ride_type : option string;
  estimated_price : option float
}.

(** A returned [str]: the JSON text of a value, represented by that
    value, or a plain message. *)
Inductive reply (A : Type) : Type :=
| Json (value : A)
| Message (text : string).

Arguments Json {A} value.
Arguments Message {A} text.

(** [x.get('estimated_price', float('inf'))]: a missing price counts as
    infinity. *)
Definition price_key (x : price) : float :=
  match estimated_price x with
  | Some amount => amount
  | None => PosInf
  end.

(** [min(prices, key=...)]: the current choice is replaced only by an
    entry whose key is smaller; [None] stands for the [ValueError] on an
    empty list. *)
Fixpoint min_scan (best : price) (l : list price) : price :=
  match l with
  | [] => best
  | x :: l' =>
      min_scan (if lt_float (price_key x) (price_key best)
                then x else best) l'
  end.

Definition min_by_price (l : list price) : option price :=
  match l with
  | [] => None
  | x :: l' => Some (min_scan x l')
  end.

(** Find the cheapest option from prices list. The log line reads
    [cheapest['app_name']] and then [cheapest['estimated_price']], and a
    missing key raises [KeyError], which the handler turns into text. *)
Definition find_cheapest (prices : list price) : reply price :=
  match prices with
  | [] => Message "No prices available"
  | _ :: _ =>
      match min_by_price prices with
      | None => Message "Error: min() arg is an empty sequence"
      | Some cheapest =>
          match app_name cheapest with
          | None =>
              Message ("Error: " ++ Py.str_exn (Py.KeyError "app_name"))
          | Some _ =>
              match estimated_price cheapest with
              | None =>
                  Message ("Error: "
                           ++ Py.str_exn (Py.KeyError "estimated_price"))
              | Some _ => Json cheapest
              end
          end
      end
  end.

(** Map ride type to app-specific equivalents. *)
Definition ride_type_mapping : Py.dict (list string) :=
  [ ("car", ["UberGo"; "Ola Prime"; "Rapido Bike"; "economy"]);
    ("rickshaw", ["Auto"; "Ola Auto"; "Rickshaw"]);
    ("bike", ["Rapido"; "UberMoto"; "Bike"]);
    ("premium", ["UberX"; "Comfort+"; "Premium"]) ].

(** [p.get('ride_type', '')] *)
Definition ride_type_of (p : price) : string :=
  match ride_type p with
  | Some s => s
  | None => EmptyString
  end.

(** [ride_type_mapping.get(ride_type.lower(), [ride_type])] *)
Definition ride_types_to_match (ride_type : string) : list string :=
  match Py.get (Py.lower ride_type) ride_type_mapping with
  | Some names => names
  | None => [ride_type]
  end.

(** The condition of the list comprehension. *)
Definition matches_ride_type (ride_type : string) (p : price) : bool :=
  existsb (fun rt => Py.contains (Py.lower rt) (Py.lower (ride_type_of p)))
          (ride_types_to_match ride_type)
  || String.eqb (Py.lower (ride_type_of p)) (Py.lower ride_type).

(** Filter prices by specific ride type. *)
Definition filter_by_ride_type (prices : list price) (ride_type : string)
  : reply (list price) :=
  Json (filter (matches_ride_type ride_type) prices).

(** Filter prices by budget constraint. *)
Definition apply_budget_filter (prices : list price) (budget : float)
  : reply (list price) :=
  Json (filter (fun p => le_float (price_key p) budget) prices).

End PriceComparator.

(* ================================================================== *)
(** * Properties of the preference extractor *)

Module ParserFacts.
Import NlpParser Re.

(** ** Substring test *)

Lemma prefix_app (kw s : string) :
  prefix kw s = true <-> exists rest, s = (kw ++ rest)%string.
Proof.
  revert s; induction kw as [|a kw IH]; intros s.
  - destruct s; simpl; split; intros; eauto.
  - destruct s as [|b s]; simpl.
    + split; [discriminate | intros [rest H]; discriminate].
    + destruct (ascii_dec a b) as [->|Hab].
      * rewrite IH. split; intros [rest H]; exists rest.
        -- now subst.
        -- now inversion H.
      * split; [discriminate | intros [rest H]; simpl in H; congruence].
Qed.

Lemma contains_nil (kw : string) :
  Py.contains kw EmptyString = prefix kw EmptyString || false.
Proof. reflexivity. Qed.

Lemma contains_cons (kw : string) (c : ascii) (s : string) :
  Py.contains kw (String c s) = prefix kw (String c s) || Py.contains kw s.
Proof. reflexivity. Qed.

Lemma contains_app (kw s : string) :
  Py.contains kw s = true <->
  exists before after, s = (before ++ kw ++ after)%string.
Proof.
  induction s as [|c s IH].
  - rewrite contains_nil, orb_false_r, prefix_app. split.
    + intros [rest H]. exists EmptyString, rest. exact H.
    + intros [before [after H]].
      destruct before; simpl in H; [eauto | discriminate].
  - rewrite contains_cons, orb_true_iff, prefix_app, IH. split.
    + intros [[rest H] | [before [after H]]].
      * exists EmptyString, rest. exact H.
      * exists (String c before), after. simpl. now rewrite H.
    + intros [before [after H]]. destruct before as [|b before]; simpl in H.
      * left. eauto.
      * right. inversion H. eauto.
Qed.

Lemma string_app_assoc (a b c : string) :
  ((a ++ b) ++ c = a ++ b ++ c)%string.
Proof. induction a; simpl; congruence. Qed.

(** A piece of a piece is a piece. *)
Lemma contains_trans (x y s : string) :
  Py.contains x y = true -> Py.contains y s = true -> Py.contains x s = true.
Proof.
  rewrite !contains_app.
  intros [b1 [a1 ->]] [b2 [a2 ->]].
  exists (b2 ++ b1)%string, (a1 ++ a2)%string.
  now rewrite !string_app_assoc.
Qed.

Lemma any_in_true (words : list string) (s : string) :
  Py.any_in words s = true <->
  exists word, In word words /\ Py.contains word s = true.
Proof. unfold Py.any_in. apply existsb_exists. Qed.

Lemma any_in_false (words : list string) (s : string) :
  Py.any_in words s = false <->
  forall word, In word words -> Py.contains word s = false.
Proof.
  unfold Py.any_in. rewrite <- not_true_iff_false, existsb_exists. split.
  - intros H word Hin. apply not_true_iff_false. intros Hc. apply H. eauto.
  - intros H [word [Hin Hc]]. rewrite (H word Hin) in Hc. discriminate.
Qed.

(** A successful reply carries the fields computed by the named steps. *)
Lemma parse_json_fields (user_input : string) (prefs : RidePreferences.t) :
  parse_ride_preferences user_input = Json prefs ->
  RidePreferences.destination prefs = extract_destination user_input /\
  RidePreferences.ride_type prefs = detect_ride_type user_input /\
  RidePreferences.ac_preference prefs = detect_ac_preference user_input /\
  RidePreferences.luggage prefs = detect_luggage user_input /\
  detect_passengers user_input = Py.Ok (RidePreferences.passengers prefs).
Proof.
  unfold parse_ride_preferences, build_preferences.
  destruct (detect_passengers user_input) as [n|e]; simpl; [|discriminate].
  intros H. inversion H. simpl. repeat split.
Qed.


(** ** The backtracking matcher *)

Lemma plus_greedy_inv {R} cls s (k : string -> option R) x :
  plus_greedy cls s k = Some x -> exists s', k s' = Some x.
Proof.
  induction s as [|c s IH]; simpl; [discriminate|].
  destruct (cls c); [|discriminate].
  destruct (plus_greedy cls s k) eqn:E.
  - intros H; inversion H; subst. now apply IH.
  - eauto.
Qed.

Lemma plus_lazy_inv {R} cls s (k : string -> option R) x :
  plus_lazy cls s k = Some x -> exists s', k s' = Some x.
Proof.
  induction s as [|c s IH]; simpl; [discriminate|].
  destruct (cls c); [|discriminate].
  destruct (k s) eqn:E.
  - intros H; inversion H; subst. eauto.
  - exact IH.
Qed.

(** A successful match ends in a successful continuation. *)
Lemma run_inv {R} (r : regex) :
  forall s g (k : string -> option string -> option R) x,
    run r s g k = Some x -> exists s' g', k s' g' = Some x.
Proof.
  induction r as [t|r1 IH1 r2 IH2|r1 IH1 r2 IH2|r1 IH1|cls|cls|r1 IH1];
    intros s g k x; simpl.
  - destruct (drop_prefix t s); [eauto | discriminate].
  - destruct (run r1 s g k) eqn:E.
    + intros H; inversion H; subst. eapply IH1; eauto.
    + apply IH2.
  - intros H. apply IH1 in H. destruct H as [s' [g' H]]. eapply IH2; eauto.
  - destruct (run r1 s g k) eqn:E.
    + intros H; inversion H; subst. eapply IH1; eauto.
    + eauto.
  - intros H. apply plus_greedy_inv in H. destruct H; eauto.
  - intros H. apply plus_lazy_inv in H. destruct H; eauto.
  - intros H. apply IH1 in H. destruct H as [s' [_ H]]. eauto.
Qed.

Lemma search_inv (r : regex) (s : string) (x : option string) :
  search r s = Some x ->
  exists s', run r s' None (fun _ g => Some g) = Some x.
Proof.
  induction s as [|c s IH]; simpl.
  - destruct (run r EmptyString None (fun _ g => Some g)) eqn:E;
      [|discriminate].
    intros H; inversion H; subst. eauto.
  - destruct (run r (String c s) None (fun _ g => Some g)) eqn:E.
    + intros H; inversion H; subst. eauto.
    + exact IH.
Qed.

(** The optional qualifier never fails and leaves group 1 alone. *)
Lemma trailing_qualifier_accepts (s : string) (g : option string) :
  run trailing_qualifier s g (fun _ g' => Some g') = Some g.
Proof.
  unfold trailing_qualifier.
  cbn [run].
  destruct (plus_greedy _ _ _) as [x|] eqn:E; [|reflexivity].
  apply plus_greedy_inv in E. destruct E as [s' E].
  f_equal.
  cbn [alts run] in E.
  repeat match type of E with
         | context [drop_prefix ?t ?u] => destruct (drop_prefix t u)
         end; congruence.
Qed.

Lemma consumed_one (c : ascii) (s : string) :
  consumed (String c s) s = String c EmptyString.
Proof.
  unfold consumed. simpl String.length.
  replace (S (String.length s) - String.length s)%nat with 1%nat by lia.
  reflexivity.
Qed.

(** Because the qualifier is optional and nothing follows it, the lazy
    group stops after its first character. *)
Lemma lazy_group_one_character (s : string) (g x : option string) :
  run (Seq (Group (PlusLazy letter_or_space)) trailing_qualifier) s g
      (fun _ g' => Some g') = Some x ->
  exists c, x = Some (String c EmptyString).
Proof.
  cbn [run]. destruct s as [|c s]; cbn [plus_lazy]; [discriminate|].
  destruct (letter_or_space c); [|discriminate].
  rewrite trailing_qualifier_accepts, consumed_one.
  intros H; inversion H. eauto.
Qed.

Lemma destination_pattern_one_character (s : string) (x : option string) :
  search destination_pattern s = Some x ->
  exists c, x = Some (String c EmptyString).
Proof.
  intros H. apply search_inv in H. destruct H as [s1 H].
  unfold destination_pattern in H. cbn [run] in H.
  apply run_inv in H. destruct H as [s2 [g2 H]].
  apply plus_greedy_inv in H. destruct H as [s3 H].
  exact (lazy_group_one_character s3 g2 x H).
Qed.

Lemma strip_one_character (c : ascii) :
  (String.length (Py.strip (String c EmptyString)) <= 1)%nat.
Proof.
  unfold Py.strip. simpl. destruct (Py.isspace c) eqn:E; simpl.
  - lia.
  - rewrite E. simpl. lia.
Qed.

End ParserFacts.

Section ExtractorClaims.
Import NlpParser ParserFacts.

(** C7. Ride-category classification tests the lower-cased input against
    the keyword groups in the order rickshaw, bike, auto, premium and falls
    back to "car": a group decides as soon as one of its tokens occurs and
    no token of an earlier group does. In particular an input with both a
    rickshaw token and a premium token is classified "rickshaw". *)
Theorem ride_type_priority_order
        (user_input : string) (prefs : RidePreferences.t) :
  parse_ride_preferences user_input = Json prefs ->
  let has := fun words =>
    exists word, In word words /\
                 Py.contains word (Py.lower user_input) = true in
  let rickshaw := ["rick"; "rickshaw"; "auto-rickshaw"] in
  let bike := ["bike"; "motorcycle"; "two-wheeler"] in
  let auto := ["auto"; "auto rickshaw"] in
  let premium := ["premium"; "comfortable"; "xl"; "suv"] in
  let category := RidePreferences.ride_type prefs in
  (has rickshaw -> category = "rickshaw") /\
  (~ has rickshaw -> has bike -> category = "bike") /\
  (~ has rickshaw -> ~ has bike -> has auto -> category = "auto") /\
  (~ has rickshaw -> ~ has bike -> ~ has auto -> has premium ->
   category = "premium") /\
  (~ has rickshaw -> ~ has bike -> ~ has auto -> ~ has premium ->
   category = "car") /\
  (has rickshaw -> has premium -> category = "rickshaw").
Proof.
  intros Hparse has rickshaw bike auto premium category.
  destruct (parse_json_fields _ _ Hparse) as (_ & Hrt & _).
  assert (Hyes : forall words, has words ->
                   Py.any_in words (Py.lower user_input) = true)
    by (intros words H; now apply any_in_true).
  assert (Hno : forall words, ~ has words ->
                  Py.any_in words (Py.lower user_input) = false).
  { intros words H. apply not_true_iff_false. intros Hc. apply H.
    now apply any_in_true. }
  unfold category. rewrite Hrt. unfold detect_ride_type.
  fold rickshaw bike auto premium.
  repeat split; intros;
    repeat match goal with
           | H : has _ |- _ => apply Hyes in H; rewrite H
           | H : ~ has _ |- _ => apply Hno in H; rewrite H
           end; reflexivity.
Qed.

Lemma ride_type_priority_order_witness :
  exists prefs,
    parse_ride_preferences "Premium rickshaw to the airport" = Json prefs /\
    RidePreferences.ride_type prefs = "rickshaw".
Proof.
  eexists. split; [vm_compute; reflexivity|].
  refine (proj1 (ride_type_priority_order
                   "Premium rickshaw to the airport" _ eq_refl) _).
  exists "rick". split; [simpl; auto | reflexivity].
Defined.

(** C8 (the code differs). The negation tokens "no ac", "without ac" and
    "non-ac" all contain "ac", which the first test already accepts: the
    extracted AC preference is never "not needed", and an input such as
    "Go to airport without AC" is extracted as "preferred". *)
Theorem ac_negation_never_detected :
  (forall user_input, detect_ac_preference user_input <> Some false) /\
  (forall user_input,
      Py.any_in ["no ac"; "without ac"; "non-ac"] (Py.lower user_input) = true ->
      detect_ac_preference user_input = Some true) /\
  exists prefs,
    parse_ride_preferences "Go to airport without AC" = Json prefs /\
    RidePreferences.ac_preference prefs = Some true.
Proof.
  assert (Hneg : forall user_input,
      Py.any_in ["no ac"; "without ac"; "non-ac"] (Py.lower user_input) = true ->
      Py.contains "ac" (Py.lower user_input) = true).
  { intros user_input H. apply any_in_true in H.
    destruct H as [word [Hin Hc]].
    apply contains_trans with (y := word); [|exact Hc].
    simpl in Hin. destruct Hin as [<-|[<-|[<-|[]]]]; reflexivity. }
  split; [|split].
  - intros user_input. unfold detect_ac_preference.
    destruct (Py.contains "ac" (Py.lower user_input)) eqn:Hac; cbn [orb];
      [discriminate|].
    destruct (Py.contains "air" (Py.lower user_input)); [discriminate|].
    destruct (Py.any_in ["no ac"; "without ac"; "non-ac"] (Py.lower user_input))
      eqn:Hany; [|discriminate].
    apply Hneg in Hany. congruence.
  - intros user_input H. unfold detect_ac_preference.
    now rewrite (Hneg _ H).
  - eexists. split; vm_compute; reflexivity.
Qed.

(** C9 (the code differs). The lazy group of the destination pattern is
    followed only by an optional part, so it stops after one character:
    whenever the fallback finds a directional marker, the destination it
    extracts has at most one character ("Go to airport by car" gives "a",
    not "airport"); without a marker it is "current location". *)
Theorem regex_destination_single_character :
  (forall user_input,
      regex_destination user_input = "current location" \/
      (String.length (regex_destination user_input) <= 1)%nat) /\
  _match_destination "Go to airport by car" = None /\
  (exists prefs,
      parse_ride_preferences "Go to airport by car" = Json prefs /\
      RidePreferences.destination prefs = "a") /\
  regex_destination "Book me a cab" = "current location".
Proof.
  split; [|split; [|split]].
  - intros user_input. unfold regex_destination.
    destruct (Re.search destination_pattern (Py.lower user_input))
      as [x|] eqn:E; [right | now left].
    apply destination_pattern_one_character in E. destruct E as [c ->].
    apply strip_one_character.
  - vm_compute; reflexivity.
  - eexists. split; vm_compute; reflexivity.
  - vm_compute; reflexivity.
Qed.

(** C3, as the code has it. [parse_ride_preferences] never raises: it
    returns the JSON of a preferences record, whose fields are the ones
    extracted from the text, or, when a step inside raised, the bare text
    "Error: " followed by the exception's message; no default record is
    substituted. The step that can raise is the conversion of the
    passenger count. [parse_user_input] returns the record in the first
    case and raises in the second. *)
Theorem parse_reply_is_record_or_error_text (user_input : string) :
  (exists prefs,
      parse_ride_preferences user_input = Json prefs /\
      Orchestrator.parse_user_input user_input = Py.Ok prefs /\
      RidePreferences.destination prefs = extract_destination user_input /\
      RidePreferences.ride_type prefs = detect_ride_type user_input) \/
  (exists msg,
      detect_passengers user_input = Py.Raised (Py.ValueError msg) /\
      parse_ride_preferences user_input = Message ("Error: " ++ msg) /\
      Orchestrator.parse_user_input user_input
        = Py.Raised
            (Py.JSONDecodeError "Expecting value: line 1 column 1 (char 0)")).
Proof.
  unfold Orchestrator.parse_user_input, parse_ride_preferences,
    build_preferences.
  destruct (detect_passengers user_input) as [n|e] eqn:E; simpl.
  - left. eexists. repeat split.
  - right. unfold detect_passengers in E.
    assert (Hint : forall digits, Py.int digits = Py.Raised e ->
                     exists msg, e = Py.ValueError msg).
    { intros digits. unfold Py.int.
      destruct (Nat.ltb Py.int_max_str_digits (String.length digits));
        [|discriminate].
      intros H. injection H as <-. eauto. }
    destruct (Py.contains "we" (Py.lower user_input)
              || Py.contains "us" (Py.lower user_input)); [|discriminate].
    destruct (Re.search passengers_pattern (Py.lower user_input))
      as [num_match|]; [|discriminate].
    destruct (Hint _ E) as [msg ->]. exists msg. repeat split.
Qed.

(** C3 fails for a request whose passenger count has more digits than
    [int] converts: the parser answers with an error text, not with a
    record for "car" to "current location", and the orchestrator raises. *)
Lemma parse_failure_gives_no_default :
  (exists msg,
      parse_ride_preferences Scenario.crowd = Message msg) /\
  (forall prefs, parse_ride_preferences Scenario.crowd <> Json prefs) /\
  Orchestrator.parse_user_input Scenario.crowd
    = Py.Raised
        (Py.JSONDecodeError "Expecting value: line 1 column 1 (char 0)").
Proof.
  assert (H : build_preferences Scenario.crowd
              = Py.Raised (Py.ValueError
                  "Exceeds the limit (4300 digits) for integer string conversion: value has 4301 digits; use sys.set_int_max_str_digits() to increase the limit"))
    by (vm_compute; reflexivity).
  unfold Orchestrator.parse_user_input, parse_ride_preferences.
  rewrite H. repeat split; eauto. discriminate.
Qed.

End ExtractorClaims.

(* ================================================================== *)
(** * Dictionaries and scans *)

Module DictFacts.

Lemma get_none_not_in {V} (k : string) (d : Py.dict V) :
  Py.get k d = None <-> ~ In k (Py.keys d).
Proof.
  induction d as [|[k' v] d IH]; simpl.
  - tauto.
  - destruct (String.eqb k k') eqn:E.
    + apply String.eqb_eq in E. subst. split; [discriminate | tauto].
    + apply String.eqb_neq in E. rewrite IH. split.
      * intros H [H1|H1]; [congruence | tauto].
      * tauto.
Qed.

Lemma mem_true_in {V} (k : string) (d : Py.dict V) :
  Py.mem k d = true <-> In k (Py.keys d).
Proof.
  unfold Py.mem. destruct (Py.get k d) eqn:E.
  - split; [|reflexivity]. intros _.
    destruct (in_dec string_dec k (Py.keys d)) as [H|H]; [exact H|].
    apply get_none_not_in in H. congruence.
  - apply get_none_not_in in E. split; [discriminate | tauto].
Qed.

(** Storing under a fresh key appends. *)
Lemma set_fresh {V} (k : string) (v : V) (d : Py.dict V) :
  ~ In k (Py.keys d) -> Py.set k v d = d ++ [(k, v)].
Proof.
  induction d as [|[k' v'] d IH]; simpl; [reflexivity|].
  intros H. destruct (String.eqb k k') eqn:E.
  - apply String.eqb_eq in E. subst. tauto.
  - rewrite IH; tauto.
Qed.

Lemma get_set {V} (k k' : string) (v : V) (d : Py.dict V) :
  Py.get k (Py.set k' v d)
  = if String.eqb k k' then Some v else Py.get k d.
Proof.
  induction d as [|[k0 v0] d IH]; simpl.
  - reflexivity.
  - destruct (String.eqb k' k0) eqn:E; simpl.
    + apply String.eqb_eq in E. subst k0.
      destruct (String.eqb k k'); reflexivity.
    + rewrite IH. destruct (String.eqb k k0) eqn:E0; [|reflexivity].
      apply String.eqb_eq in E0. subst k0.
      rewrite String.eqb_sym, E. reflexivity.
Qed.

Lemma get_some_in {V} (k : string) (v : V) (d : Py.dict V) :
  Py.get k d = Some v -> In (k, v) d.
Proof.
  induction d as [|[k' v'] d IH]; simpl; [discriminate|].
  destruct (String.eqb k k') eqn:E.
  - apply String.eqb_eq in E. intros H; injection H as ->. subst. now left.
  - intros H. right. now apply IH.
Qed.

Lemma keys_in {V} (k : string) (v : V) (d : Py.dict V) :
  In (k, v) d -> In k (Py.keys d).
Proof. intros H. apply (in_map fst) in H. exact H. Qed.

Lemma get_in_nodup {V} (k : string) (v : V) (d : Py.dict V) :
  NoDup (Py.keys d) -> In (k, v) d -> Py.get k d = Some v.
Proof.
  induction d as [|[k' v'] d IH]; simpl; [tauto|].
  intros Hnd. inversion Hnd as [|? ? Hk Hd]; subst.
  intros [H|H].
  - injection H as -> ->. now rewrite String.eqb_refl.
  - destruct (String.eqb k k') eqn:E.
    + apply String.eqb_eq in E. subst k'. exfalso. apply Hk.
      now apply keys_in with (v := v).
    + now apply IH.
Qed.

(** ** Lists *)

Lemma filter_split {A} (f : A -> bool) (l l1 l2 : list A) (x : A) :
  filter f l = l1 ++ x :: l2 ->
  exists a b, l = a ++ x :: b /\ filter f a = l1 /\ filter f b = l2.
Proof.
  revert l1. induction l as [|y l IH]; intros l1; simpl.
  - destruct l1; discriminate.
  - destruct (f y) eqn:E.
    + destruct l1 as [|z l1]; simpl; intros H; injection H as Hy Hl.
      * subst. exists [], l. simpl. auto.
      * subst z. destruct (IH _ Hl) as (a & b & -> & Ha & Hb).
        exists (y :: a), b. simpl. rewrite E, Ha. auto.
    + intros H. destruct (IH _ H) as (a & b & -> & Ha & Hb).
      exists (y :: a), b. simpl. rewrite E. auto.
Qed.

(** The scan keeps the first maximum: with everything before the current
    choice strictly smaller and nothing since then larger, the final
    choice splits the whole list the same way. *)
Lemma max_scan_invariant {A} (key : A -> nat) (l : list A) :
  forall best pre mid,
    (forall e, In e pre -> key e < key best)%nat ->
    (forall e, In e mid -> key e <= key best)%nat ->
    exists before after,
      pre ++ best :: mid ++ l = before ++ Py.max_scan key best l :: after /\
      (forall e, In e before -> key e < key (Py.max_scan key best l))%nat /\
      (forall e, In e after -> key e <= key (Py.max_scan key best l))%nat.
Proof.
  induction l as [|x l IH]; intros best pre mid Hpre Hmid; simpl.
  - exists pre, mid. rewrite app_nil_r. auto.
  - destruct (Nat.ltb (key best) (key x)) eqn:E.
    + apply Nat.ltb_lt in E.
      destruct (IH x (pre ++ best :: mid) []) as (before & after & Heq & H).
      * intros e He. apply in_app_iff in He. simpl in He.
        destruct He as [He|[<-|He]]; [apply Hpre in He | | apply Hmid in He];
          lia.
      * intros e [].
      * exists before, after. split; [|exact H].
        rewrite <- Heq. simpl. rewrite <- app_assoc. reflexivity.
    + apply Nat.ltb_ge in E.
      destruct (IH best pre (mid ++ [x])) as (before & after & Heq & H).
      * exact Hpre.
      * intros e He. apply in_app_iff in He. simpl in He.
        destruct He as [He|[<-|[]]]; [now apply Hmid | exact E].
      * exists before, after. split; [|exact H].
        rewrite <- Heq. rewrite <- app_assoc. reflexivity.
Qed.

Lemma max_by_first {A} (key : A -> nat) (l : list A) (x : A) :
  Py.max_by key l = Some x ->
  exists before after,
    l = before ++ x :: after /\
    (forall e, In e before -> key e < key x)%nat /\
    (forall e, In e after -> key e <= key x)%nat.
Proof.
  destruct l as [|y l]; simpl; [discriminate|].
  intros H; injection H as <-.
  destruct (max_scan_invariant key l y [] []) as (before & after & Heq & H);
    [intros e [] | intros e [] |].
  exists before, after. split; [exact Heq | exact H].
Qed.

End DictFacts.

(* ================================================================== *)
(** * Properties of destination matching *)

Module DestinationFacts.
Import NlpParser DictFacts.


(** The list the code builds has as many elements as keywords occur,
    and is non-empty exactly for a candidate. *)
Lemma matching_keywords_count (keywords : list string) (l : string) :
  List.length (matching_keywords keywords l) = count_hits l keywords.
Proof.
  unfold matching_keywords.
  induction keywords as [|kw keywords IH]; [reflexivity|].
  simpl. destruct (Py.contains kw l); simpl; now rewrite IH.
Qed.

Lemma candidate_hit_count (l : string) (entry : string * list string) :
  candidate l entry = Nat.ltb 0 (hit_count l entry).
Proof.
  unfold candidate, hit_count.
  induction (snd entry) as [|kw keywords IH]; [reflexivity|].
  simpl. destruct (Py.contains kw l); [reflexivity | exact IH].
Qed.

Lemma find_matches_filter (items : Py.dict (list string)) (l : string) :
  forall acc,
    NoDup (Py.keys items) ->
    (forall e, In e items -> ~ In (fst e) (Py.keys acc)) ->
    find_matches items l acc
    = acc ++ map (tally l) (filter (candidate l) items).
Proof.
  induction items as [|[d kws] rest IH]; intros acc Hnd Hfresh; simpl.
  - now rewrite app_nil_r.
  - inversion Hnd as [|? ? Hd Hrest]; subst.
    rewrite (candidate_hit_count l (d, kws)). unfold hit_count at 1.
    simpl snd. rewrite <- matching_keywords_count.
    destruct (matching_keywords kws l) as [|kw found] eqn:E.
    + simpl. apply IH; [exact Hrest|].
      intros e He. apply Hfresh. now right.
    + cbn [List.length Nat.ltb Nat.leb]. simpl map.
      rewrite IH; [|exact Hrest|].
      * rewrite set_fresh by (apply (Hfresh (d, kws)); now left).
        rewrite <- app_assoc. simpl. unfold tally at 2, hit_count. simpl.
        now rewrite <- matching_keywords_count, E.
      * intros e He Hin.
        rewrite set_fresh in Hin by (apply (Hfresh (d, kws)); now left).
        unfold Py.keys in Hin. rewrite map_app, in_app_iff in Hin.
        destruct Hin as [Hin|[Hin|[]]].
        -- apply (Hfresh e); [now right | exact Hin].
        -- simpl in Hin. apply Hd. unfold Py.keys. rewrite Hin.
           now apply in_map.
Qed.

Lemma unique_key {V} (d : Py.dict V) (e e' : string * V) :
  NoDup (Py.keys d) -> In e d -> In e' d -> fst e = fst e' -> e = e'.
Proof.
  induction d as [|x d IH]; simpl; [tauto|].
  intros Hnd. inversion Hnd as [|? ? Hx Hd]; subst.
  intros [->|He] [->|He'] Hk.
  - reflexivity.
  - exfalso. apply Hx. rewrite Hk. now apply in_map.
  - exfalso. apply Hx. rewrite <- Hk. now apply in_map.
  - now apply IH.
Qed.

(** With distinct keys, a destination is in [matches] exactly when it has
    a keyword hit. *)
Lemma matched_iff_candidate (table : Py.dict (list string)) (l : string) e :
  NoDup (Py.keys table) -> In e table ->
  Py.mem (fst e) (map (tally l) (filter (candidate l) table))
  = candidate l e.
Proof.
  intros Hnd He. apply eq_true_iff_eq. rewrite mem_true_in.
  unfold Py.keys. rewrite map_map. simpl. rewrite in_map_iff. split.
  - intros [e' [Hk He']]. apply filter_In in He'. destruct He' as [Hin Hc].
    now rewrite <- (unique_key table e' e Hnd Hin He Hk).
  - intros Hc. exists e. split; [reflexivity|]. apply filter_In. auto.
Qed.

Lemma is_specific_iff (kw : string) :
  is_specific kw = true <-> specific_keyword kw.
Proof.
  unfold is_specific, specific_keyword.
  rewrite !orb_true_iff, andb_true_iff, Nat.ltb_lt. tauto.
Qed.

Lemma specific_matches_hit (l : string) (entry : string * list string) :
  specific_matches (snd entry) l <> [] <-> specific_hit l entry.
Proof.
  unfold specific_matches, specific_hit. split.
  - intros H.
    destruct (filter _ (filter is_specific (snd entry))) as [|kw ms] eqn:E;
      [congruence|].
    assert (Hin : In kw (kw :: ms)) by now left.
    rewrite <- E in Hin. apply filter_In in Hin. destruct Hin as [Hin Hc].
    apply filter_In in Hin. destruct Hin as [Hin Hs].
    exists kw. rewrite <- is_specific_iff. auto.
  - intros [kw (Hin & Hs & Hc)] E.
    assert (H : In kw (filter (fun kw0 => Py.contains kw0 l)
                              (filter is_specific (snd entry)))).
    { apply filter_In. split; [|exact Hc].
      apply filter_In. split; [exact Hin | now apply is_specific_iff]. }
    rewrite E in H. exact H.
Qed.

Lemma specific_hit_candidate (l : string) (entry : string * list string) :
  specific_hit l entry -> candidate l entry = true.
Proof.
  intros [kw (Hin & _ & Hc)]. unfold candidate.
  apply existsb_exists. now exists kw.
Qed.

(** The second loop returns the first entry, in table order, that has a
    specific hit, and nothing when there is none. *)
Lemma disambiguate_first (items : Py.dict (list string)) (l : string)
      (matches : Py.dict nat) :
  (forall e, In e items -> Py.mem (fst e) matches = candidate l e) ->
  (forall before entry after,
      items = before ++ entry :: after ->
      specific_hit l entry ->
      (forall e, In e before -> ~ specific_hit l e) ->
      disambiguate items l matches = Some (fst entry)) /\
  ((forall e, In e items -> ~ specific_hit l e) ->
   disambiguate items l matches = None).
Proof.
  induction items as [|[d kws] rest IH]; intros Hmem.
  - split; [|reflexivity]. intros [|? ?] ? ? H; discriminate.
  - destruct IH as [IHa IHb];
      [intros e He; apply Hmem; now right|].
    pose proof (specific_matches_hit l (d, kws)) as Hsm. simpl snd in Hsm.
    split.
    + intros before entry after Heq Hhit Hbefore. simpl.
      destruct before as [|b before]; simpl in Heq; injection Heq as Hb Hrest.
      * subst entry.
        pose proof (Hmem (d, kws) (or_introl eq_refl)) as Hm.
        simpl fst in Hm. rewrite Hm.
        rewrite (specific_hit_candidate _ _ Hhit). simpl.
        apply Hsm in Hhit.
        destruct (specific_matches kws l); [congruence | reflexivity].
      * subst b. assert (Hno : ~ specific_hit l (d, kws))
          by (apply Hbefore; now left).
        assert (E : specific_matches kws l = []).
        { destruct (specific_matches kws l) eqn:E; [reflexivity|].
          exfalso. apply Hno, Hsm. discriminate. }
        rewrite E.
        assert (Hgo : disambiguate rest l matches = Some (fst entry)).
        { apply (IHa before entry after Hrest Hhit).
          intros e He. apply Hbefore. now right. }
        destruct (negb (Py.mem d matches)); exact Hgo.
    + intros Hnone. simpl.
      assert (E : specific_matches kws l = []).
      { destruct (specific_matches kws l) eqn:E; [reflexivity|].
        exfalso. apply (Hnone (d, kws)); [now left|]. apply Hsm.
        discriminate. }
      rewrite E.
      assert (Hgo : disambiguate rest l matches = None)
        by (apply IHb; intros e He; apply Hnone; now right).
      destruct (negb (Py.mem d matches)); exact Hgo.
Qed.

End DestinationFacts.

Section DestinationClaims.
Import NlpParser DictFacts DestinationFacts.

(** C6. Destination disambiguation. When more than one destination of the
    table has keyword matches in the lower-cased input, the result is the
    first entry in table order with a hit on a specific keyword (longer
    than 3 characters and purely numeric, or containing "sec" or
    "sector"), whatever the match counts are; when no entry has such a
    hit, the result is the entry with the highest match count, the first
    one in table order among equals. *)
Theorem destination_disambiguation
        (table : Py.dict (list string)) (user_input : string) :
  NoDup (Py.keys table) ->
  (1 < List.length (filter (candidate (Py.lower user_input)) table))%nat ->
  (forall before entry after,
      table = before ++ entry :: after ->
      specific_hit (Py.lower user_input) entry ->
      (forall e, In e before -> ~ specific_hit (Py.lower user_input) e) ->
      match_destination_in table user_input = Some (fst entry)) /\
  ((forall e, In e table -> ~ specific_hit (Py.lower user_input) e) ->
   exists before entry after,
     table = before ++ entry :: after /\
     match_destination_in table user_input = Some (fst entry) /\
     (forall e, In e before ->
                hit_count (Py.lower user_input) e
                < hit_count (Py.lower user_input) entry)%nat /\
     (forall e, In e after ->
                hit_count (Py.lower user_input) e
                <= hit_count (Py.lower user_input) entry)%nat).
Proof.
  intros Hnd Hmany. set (l := Py.lower user_input) in *.
  assert (Hfm : find_matches table l []
                = map (tally l) (filter (candidate l) table)).
  { rewrite find_matches_filter; [reflexivity | exact Hnd | intros e _ []]. }
  destruct (disambiguate_first table l (find_matches table l [])) as [Ha Hb].
  { intros e He. rewrite Hfm. now apply matched_iff_candidate. }
  unfold match_destination_in. fold l.
  destruct (filter (candidate l) table) as [|c1 [|c2 cs]] eqn:Ecs;
    simpl in Hmany; try lia.
  rewrite Hfm in *. simpl map in *. cbv beta iota.
  split.
  - intros before entry after Heq Hhit Hbefore.
    now rewrite (Ha before entry after Heq Hhit Hbefore).
  - intros Hnone. rewrite (Hb Hnone).
    destruct (Py.max_by snd (tally l c1 :: tally l c2 :: map (tally l) cs))
      as [m|] eqn:Emax; [|discriminate].
    apply max_by_first in Emax.
    destruct Emax as (mb & ma & Heq & Hlt & Hle).
    change (tally l c1 :: tally l c2 :: map (tally l) cs)
      with (map (tally l) (c1 :: c2 :: cs)) in Heq.
    apply map_eq_app in Heq. destruct Heq as (fb & rest & Hsplit & Hfb & Hr).
    apply map_eq_cons in Hr. destruct Hr as (entry & fa & -> & Hm & Hfa).
    rewrite <- Ecs in Hsplit. pose proof Hsplit as Hfilter.
    apply filter_split in Hsplit.
    destruct Hsplit as (before & after & Htab & Hbf & Haf).
    assert (Hentry : (0 < hit_count l entry)%nat).
    { assert (H : In entry (filter (candidate l) table))
        by (rewrite Hfilter; apply in_elt).
      apply filter_In in H. destruct H as [_ H].
      rewrite candidate_hit_count in H. now apply Nat.ltb_lt in H. }
    exists before, entry, after. subst m mb ma. simpl.
    split; [exact Htab|]. split; [reflexivity|].
    assert (Hside : forall part e (bound : nat -> Prop),
               (forall x, In x (map (tally l) (filter (candidate l) part)) ->
                          bound (snd x)) ->
               bound 0%nat -> In e part -> bound (hit_count l e)).
    { intros part e bound Hin H0 He.
      destruct (candidate l e) eqn:Ec.
      - apply (Hin (tally l e)). apply in_map. apply filter_In. auto.
      - rewrite candidate_hit_count in Ec. apply Nat.ltb_ge in Ec.
        replace (hit_count l e) with 0%nat by lia. exact H0. }
    split; intros e He.
    + apply (Hside before e (fun n => (n < hit_count l entry)%nat));
        [|exact Hentry | exact He].
      intros x Hx. rewrite Hbf in Hx. exact (Hlt x Hx).
    + apply (Hside after e (fun n => (n <= hit_count l entry)%nat));
        [| lia | exact He].
      intros x Hx. rewrite Haf in Hx. exact (Hle x Hx).
Qed.

Lemma destination_disambiguation_witness :
  NoDup (Py.keys Config.COMMON_DESTINATIONS) /\
  _match_destination "Home, house or apartment near sector 62"
  = Some "jaypee institute of information technology sec 62 noida" /\
  (exists before entry after,
    Config.COMMON_DESTINATIONS = before ++ entry :: after /\
    match_destination_in Config.COMMON_DESTINATIONS
      "From the office to my house or apartment" = Some (fst entry) /\
    (forall e, In e before ->
               hit_count (Py.lower "From the office to my house or apartment") e
               < hit_count (Py.lower "From the office to my house or apartment")
                           entry)%nat /\
    (forall e, In e after ->
               hit_count (Py.lower "From the office to my house or apartment") e
               <= hit_count (Py.lower "From the office to my house or apartment")
                            entry)%nat) /\
  _match_destination "From the office to my house or apartment" = Some "home".
Proof.
  assert (Hnd : NoDup (Py.keys Config.COMMON_DESTINATIONS)).
  { repeat constructor; simpl; intuition discriminate. }
  split; [exact Hnd|]. split; [|split; [|reflexivity]].
  - refine (proj1 (destination_disambiguation Config.COMMON_DESTINATIONS
                     "Home, house or apartment near sector 62" Hnd _)
              [ ("work", ["work"; "office"; "workplace"; "company"]);
                ("home", ["home"; "house"; "apartment"; "residence"]) ]
              ("jaypee institute of information technology sec 62 noida",
               ["jaypee"; "jiit"; "sec 62"; "sector 62"; "noida"])
              _ eq_refl _ _).
    + vm_compute. lia.
    + exists "sector 62". split; [simpl; auto|]. split; [|reflexivity].
      right. left. reflexivity.
    + intros e [<-|[<-|[]]] [kw (Hin & Hs & _)]; simpl in Hin;
        repeat (destruct Hin as [<-|Hin]; [|]); try contradiction;
        destruct Hs as [[_ H]|[H|H]]; vm_compute in H; discriminate.
  - refine (proj2 (destination_disambiguation Config.COMMON_DESTINATIONS
                     "From the office to my house or apartment" Hnd _) _).
    + vm_compute. lia.
    + intros e He [kw (Hin & Hs & Hc)].
      simpl in He.
      repeat (destruct He as [<-|He]; [|]); try contradiction;
        simpl in Hin;
        repeat (destruct Hin as [<-|Hin]; [|]); try contradiction;
        first [ vm_compute in Hc; discriminate Hc
              | destruct Hs as [[_ H]|[H|H]]; vm_compute in H;
                discriminate H ].
Defined.

End DestinationClaims.

(* ================================================================== *)
(** * Properties of the orchestrator *)

Module OrchestratorFacts.
Import Py Orchestrator DictFacts.

(** ** The first minimum *)

Lemma Qlt_bool_true (x y : Q) : Qlt_bool x y = true <-> x < y.
Proof.
  unfold Qlt_bool. rewrite negb_true_iff, <- not_true_iff_false, Qle_bool_iff.
  split; [apply Qnot_le_lt | apply Qlt_not_le].
Qed.

Lemma Qlt_bool_false (x y : Q) : Qlt_bool x y = false <-> y <= x.
Proof.
  unfold Qlt_bool. rewrite negb_false_iff. apply Qle_bool_iff.
Qed.

Lemma min_scan_invariant {A} (key : A -> Q) (l : list A) :
  forall best pre mid,
    (forall e, In e pre -> key best < key e) ->
    (forall e, In e mid -> key best <= key e) ->
    exists before after,
      pre ++ best :: mid ++ l = before ++ min_scan key best l :: after /\
      (forall e, In e before -> key (min_scan key best l) < key e) /\
      (forall e, In e after -> key (min_scan key best l) <= key e).
Proof.
  induction l as [|x l IH]; intros best pre mid Hpre Hmid; simpl.
  - exists pre, mid. rewrite app_nil_r. auto.
  - destruct (Qlt_bool (key x) (key best)) eqn:E.
    + apply Qlt_bool_true in E.
      destruct (IH x (pre ++ best :: mid) []) as (before & after & Heq & H).
      * intros e He. apply in_app_iff in He. simpl in He.
        destruct He as [He|[<-|He]].
        -- eapply Qlt_trans; [exact E | now apply Hpre].
        -- exact E.
        -- eapply Qlt_le_trans; [exact E | now apply Hmid].
      * intros e [].
      * exists before, after. split; [|exact H].
        rewrite <- Heq. simpl. rewrite <- app_assoc. reflexivity.
    + apply Qlt_bool_false in E.
      destruct (IH best pre (mid ++ [x])) as (before & after & Heq & H).
      * exact Hpre.
      * intros e He. apply in_app_iff in He. simpl in He.
        destruct He as [He|[<-|[]]]; [now apply Hmid | exact E].
      * exists before, after. split; [|exact H].
        rewrite <- Heq. rewrite <- app_assoc. reflexivity.
Qed.

(** [min] returns the first minimum: strictly below everything before
    it, not above anything after it. *)
Lemma min_by_first {A} (key : A -> Q) (l : list A) (x : A) :
  min_by key l = Some x ->
  exists before after,
    l = before ++ x :: after /\
    (forall e, In e before -> key x < key e) /\
    (forall e, In e after -> key x <= key e).
Proof.
  destruct l as [|y l]; simpl; [discriminate|].
  intros H; injection H as <-.
  destruct (min_scan_invariant key l y [] []) as (before & after & Heq & H);
    [intros e [] | intros e [] |].
  exists before, after. split; [exact Heq | exact H].
Qed.

Section Comparison.
Variable w : World.
Variables (pickup_location destination : string).
Variable preferences : RidePreferences.t.

Local Abbreviation fetch :=
  (_fetch_price_from_app w pickup_location destination preferences).
Local Abbreviation gather :=
  (Orchestrator.gather w pickup_location destination preferences).
Local Abbreviation compare_prices :=
  (Orchestrator.compare_prices w pickup_location destination preferences).
Local Abbreviation quotes_in_order :=
  (Orchestrator.quotes_in_order w pickup_location destination preferences).
Local Abbreviation book_cheapest :=
  (Orchestrator.book_cheapest w pickup_location destination preferences).

(** ** Launching and gathering *)

Lemma gather_nth (tasks : list string) :
  forall first n,
    nth_error (gather first tasks) n
    = option_map (fetch (first + n)) (nth_error tasks n).
Proof.
  induction tasks as [|a tasks IH]; intros first n; simpl.
  - now destruct n.
  - destruct n as [|n]; simpl.
    + now rewrite Nat.add_0_r.
    + rewrite IH. simpl. now rewrite Nat.add_succ_r.
Qed.

Lemma launch_all_registered (apps : list string) :
  Forall (fun a => registered a = true) apps -> launch apps = apps.
Proof.
  unfold launch. induction 1 as [|a apps Ha _ IH]; simpl; [reflexivity|].
  now rewrite Ha, IH.
Qed.

(** ** The loop that fills [prices] *)

(** Whatever is stored under a key was already there or is the result
    paired with an occurrence of that key in [apps]. *)
Lemma collect_sound (apps : list string) :
  forall i results acc k q,
    get k (collect i apps results acc) = Some q ->
    get k acc = Some q \/
    exists n, nth_error apps n = Some k /\ registered k = true /\
              nth_error results (i + n) = Some (Some q).
Proof.
  induction apps as [|a apps IH]; intros i results acc k q; simpl.
  - auto.
  - intros H. apply IH in H. destruct H as [H|[n (Hn & Hr & Hres)]].
    + destruct (registered a) eqn:Ereg; [|auto].
      destruct (nth_error results i) as [[result|]|] eqn:Eres; auto.
      rewrite get_set in H. destruct (String.eqb k a) eqn:E; [|auto].
      apply String.eqb_eq in E. subst a. injection H as ->.
      right. exists 0%nat. rewrite Nat.add_0_r. auto.
    + right. exists (S n). rewrite Nat.add_succ_r. auto.
Qed.

(** Every key of [prices] is registered or was there before. *)
Lemma collect_keys (apps : list string) :
  forall i results acc k,
    In k (keys (collect i apps results acc)) ->
    In k (keys acc) \/ (In k apps /\ registered k = true).
Proof.
  intros i results acc k H. apply mem_true_in in H. unfold mem in H.
  destruct (get k (collect i apps results acc)) as [q|] eqn:E;
    [|discriminate].
  apply collect_sound in E. destruct E as [E|[n (Hn & Hr & _)]].
  - left. apply keys_in with (v := q). now apply get_some_in.
  - right. split; [|exact Hr]. eapply nth_error_In; eauto.
Qed.

(** When no result is a quote, the loop stores nothing. *)
Lemma collect_nothing (apps : list string) :
  forall i results acc,
    (forall n q, nth_error results n <> Some (Some q)) ->
    collect i apps results acc = acc.
Proof.
  induction apps as [|a apps IH]; intros i results acc Hnone; simpl.
  - reflexivity.
  - rewrite IH by exact Hnone.
    destruct (registered a); [|reflexivity].
    destruct (nth_error results i) as [[result|]|] eqn:E; try reflexivity.
    exfalso. exact (Hnone _ _ E).
Qed.

(** For registered, pairwise distinct names whose results sit at their
    own positions, the loop appends the quotes in the order of [apps]. *)
Lemma collect_quotes (apps : list string) :
  forall i results acc,
    Forall (fun a => registered a = true) apps ->
    NoDup apps ->
    (forall a, In a apps -> ~ In a (keys acc)) ->
    (forall n a, nth_error apps n = Some a ->
                 nth_error results (i + n) = Some (fetch (i + n) a)) ->
    collect i apps results acc = acc ++ quotes_in_order i apps.
Proof.
  induction apps as [|a apps IH]; intros i results acc Hreg Hnd Hfresh Hres;
    simpl.
  - now rewrite app_nil_r.
  - inversion Hreg as [|? ? Ha Hreg']; subst.
    inversion Hnd as [|? ? Hnew Hnd']; subst.
    rewrite Ha. pose proof (Hres 0%nat a eq_refl) as H0.
    rewrite Nat.add_0_r in H0. rewrite H0.
    assert (Hshift : forall n b, nth_error apps n = Some b ->
              nth_error results (S i + n) = Some (fetch (S i + n) b)).
    { intros n b Hn. specialize (Hres (S n) b Hn).
      now rewrite Nat.add_succ_r in Hres. }
    destruct (fetch i a) as [quote|].
    + rewrite set_fresh by (apply Hfresh; now left).
      rewrite IH; [now rewrite <- app_assoc | exact Hreg' | exact Hnd' | |
                   exact Hshift].
      intros b Hb Hin. unfold keys in Hin.
      rewrite map_app, in_app_iff in Hin. simpl in Hin.
      destruct Hin as [Hin|[Hin|[]]].
      * apply (Hfresh b); [now right | exact Hin].
      * subst b. contradiction.
    + apply IH; [exact Hreg' | exact Hnd' | | exact Hshift].
      intros b Hb. apply Hfresh. now right.
Qed.

(** ** The quote map of the specification *)

Lemma quotes_in (apps : list string) :
  forall first a q,
    In (a, q) (quotes_in_order first apps) <->
    exists n, nth_error apps n = Some a /\ fetch (first + n) a = Some q.
Proof.
  induction apps as [|a0 apps IH]; intros first a q; simpl.
  - split; [tauto | intros [[|n] [H _]]; discriminate].
  - assert (Hrest : In (a, q) (quotes_in_order (S first) apps) <->
              exists n, nth_error apps n = Some a /\
                        fetch (first + S n) a = Some q).
    { rewrite IH. split; intros [n [H1 H2]]; exists n;
        [rewrite Nat.add_succ_r | rewrite Nat.add_succ_r in H2]; auto. }
    destruct (fetch first a0) as [q0|] eqn:E0; simpl; rewrite Hrest; split.
    + intros [H|[n [H1 H2]]].
      * injection H as -> ->. exists 0%nat. now rewrite Nat.add_0_r.
      * exists (S n). auto.
    + intros [[|n] [H1 H2]].
      * simpl in H1. injection H1 as ->. rewrite Nat.add_0_r, E0 in H2.
        injection H2 as ->. now left.
      * right. eauto.
    + intros [n [H1 H2]]. exists (S n). auto.
    + intros [[|n] [H1 H2]].
      * simpl in H1. injection H1 as ->. rewrite Nat.add_0_r, E0 in H2.
        discriminate.
      * eauto.
Qed.

Lemma quotes_keys_nodup (apps : list string) :
  forall first, NoDup apps -> NoDup (keys (quotes_in_order first apps)).
Proof.
  induction apps as [|a0 apps IH]; intros first Hnd; simpl.
  - constructor.
  - inversion Hnd as [|? ? Hnew Hnd']; subst.
    destruct (fetch first a0) as [q0|]; [|now apply IH].
    simpl. constructor; [|now apply IH].
    intros Hin. apply Hnew. unfold keys in Hin. apply in_map_iff in Hin.
    destruct Hin as [[a q] [Ha Hin]]. simpl in Ha. subst a.
    apply quotes_in in Hin. destruct Hin as [n [Hn _]].
    eapply nth_error_In; eauto.
Qed.

(** Where an entry sits in the quote map tells where its provider sits
    in [apps]: quotes of earlier providers come before it, quotes of
    later ones after it. *)
Lemma quotes_split (apps : list string) :
  forall first before c q after,
    quotes_in_order first apps = before ++ (c, q) :: after ->
    exists n,
      nth_error apps n = Some c /\ fetch (first + n) c = Some q /\
      forall m a q',
        nth_error apps m = Some a -> fetch (first + m) a = Some q' ->
        (m < n -> In (a, q') before)%nat /\
        (n < m -> In (a, q') after)%nat.
Proof.
  induction apps as [|a0 apps IH]; intros first before c q after; simpl.
  - destruct before; discriminate.
  - destruct (fetch first a0) as [q0|] eqn:E0.
    + destruct before as [|b before]; simpl; intros H.
      * injection H as -> -> H2. exists 0%nat. rewrite Nat.add_0_r.
        split; [reflexivity|]. split; [exact E0|].
        intros m a q' Hm Hf. split; [lia|].
        intros Hlt. destruct m as [|m]; [lia|]. simpl in Hm.
        rewrite <- H2. apply quotes_in. exists m.
        now rewrite Nat.add_succ_r in Hf.
      * injection H as <- H2.
        destruct (IH _ _ _ _ _ H2) as (n & Hn & Hq & Hord).
        exists (S n). rewrite Nat.add_succ_r. split; [exact Hn|].
        split; [exact Hq|].
        intros m a q' Hm Hf. destruct m as [|m].
        -- simpl in Hm. injection Hm as ->. rewrite Nat.add_0_r, E0 in Hf.
           injection Hf as ->. split; [now left | lia].
        -- simpl in Hm. rewrite Nat.add_succ_r in Hf.
           destruct (Hord m a q' Hm Hf) as [Hb Ha].
           split; intros Hlt; [right; apply Hb | apply Ha]; lia.
    + intros H. destruct (IH _ _ _ _ _ H) as (n & Hn & Hq & Hord).
      exists (S n). rewrite Nat.add_succ_r. split; [exact Hn|].
      split; [exact Hq|].
      intros m a q' Hm Hf. destruct m as [|m].
      * simpl in Hm. injection Hm as ->. rewrite Nat.add_0_r, E0 in Hf.
        discriminate.
      * simpl in Hm. rewrite Nat.add_succ_r in Hf.
        destruct (Hord m a q' Hm Hf) as [Hb Ha].
        split; intros Hlt; [apply Hb | apply Ha]; lia.
Qed.

(** ** [compare_prices] step by step *)

Lemma compare_prices_cases (apps : option (list string)) (st : state) :
  let found := collect 0 (requested apps)
                       (gather 0 (launch (requested apps))) [] in
  (found = [] /\
   exists st',
     compare_prices apps st
     = (Raised (ValueError "Could not fetch prices from any app"), st') /\
     last_comparison st' = last_comparison st /\
     last_booking st' = last_booking st /\
     calls st' = calls st ++ map Fetch (launch (requested apps))) \/
  (found <> [] /\
   exists r st',
     compare_prices apps st = (Ok r, st') /\
     prices r = found /\
     min_by (price_of found) (keys found) = Some (cheapest_app r) /\
     cheapest_price r = price_of found (cheapest_app r) /\
     last_comparison st' = Some r /\
     last_booking st' = last_booking st /\
     calls st' = calls st ++ map Fetch (launch (requested apps))).
Proof.
  intros found. unfold Orchestrator.compare_prices.
  fold found. unfold mbind, record, set_last_comparison, ret, raise.
  destruct found as [|[k q] rest] eqn:E.
  - left. split; [reflexivity|]. eexists. repeat split.
  - right. split; [discriminate|]. simpl. do 2 eexists. repeat split.
Qed.

Lemma compare_prices_ok (apps : option (list string)) (st st' : state)
      (r : ComparisonResult) :
  compare_prices apps st = (Ok r, st') ->
  prices r = collect 0 (requested apps)
                     (gather 0 (launch (requested apps))) [] /\
  prices r <> [] /\
  min_by (price_of (prices r)) (keys (prices r)) = Some (cheapest_app r) /\
  cheapest_price r = price_of (prices r) (cheapest_app r) /\
  last_comparison st' = Some r /\
  last_booking st' = last_booking st /\
  calls st' = calls st ++ map Fetch (launch (requested apps)).
Proof.
  intros H. destruct (compare_prices_cases apps st)
    as [[_ (st1 & H1 & _)] | [Hne (r1 & st1 & H1 & Hp & Hmin & Hc & Hrest)]].
  - rewrite H1 in H. discriminate.
  - rewrite H1 in H. injection H as -> ->. rewrite Hp. auto.
Qed.

(** The selected provider is a key of the map, and the selected price is
    the price stored under it. *)
Lemma cheapest_stored (r : ComparisonResult) :
  min_by (price_of (prices r)) (keys (prices r)) = Some (cheapest_app r) ->
  cheapest_price r = price_of (prices r) (cheapest_app r) ->
  In (cheapest_app r) (keys (prices r)) /\
  exists q, get (cheapest_app r) (prices r) = Some q /\
            cheapest_price r = PriceInfo.estimated_price q.
Proof.
  intros Hmin Hprice. apply min_by_first in Hmin.
  destruct Hmin as (before & after & Heq & _).
  assert (Hin : In (cheapest_app r) (keys (prices r)))
    by (rewrite Heq; apply in_elt).
  split; [exact Hin|].
  apply mem_true_in in Hin. unfold mem in Hin.
  unfold price_of in Hprice.
  destruct (get (cheapest_app r) (prices r)) as [q|]; [|discriminate].
  eauto.
Qed.

(** The results gathered for a list of registered names sit at the
    positions of the names. *)
Lemma results_in_place (apps : list string) (n : nat) (a : string) :
  Forall (fun a => registered a = true) apps ->
  nth_error apps n = Some a ->
  nth_error (gather 0 (launch apps)) n = Some (fetch n a).
Proof.
  intros Hreg Hn. rewrite launch_all_registered by exact Hreg.
  rewrite gather_nth. simpl. rewrite Hn. reflexivity.
Qed.

End Comparison.
End OrchestratorFacts.

Section OrchestratorClaims.
Import Py Orchestrator DictFacts OrchestratorFacts.

Variable w : World.
Variables (pickup_location destination : string).
Variable preferences : RidePreferences.t.

Local Abbreviation fetch :=
  (_fetch_price_from_app w pickup_location destination preferences).
Local Abbreviation compare_prices :=
  (Orchestrator.compare_prices w pickup_location destination preferences).
Local Abbreviation book_cheapest :=
  (Orchestrator.book_cheapest w pickup_location destination preferences).
Local Abbreviation quotes_in_order :=
  (Orchestrator.quotes_in_order w pickup_location destination preferences).

(** C2. If every requested provider fails to return a quote,
    [compare_prices] raises "Could not fetch prices from any app" and
    records no comparison; and whenever it does return a
    [ComparisonResult], the quote map of that result is not empty. *)
Theorem no_quotes_is_a_hard_error
        (apps : option (list string)) (st : state) :
  ((forall task app_name,
       In app_name (requested apps) -> fetch task app_name = None) ->
   exists st',
     compare_prices apps st
     = (Raised (ValueError "Could not fetch prices from any app"), st') /\
     last_comparison st' = last_comparison st) /\
  (forall r st', compare_prices apps st = (Ok r, st') -> prices r <> []).
Proof.
  split.
  - intros Hfail.
    destruct (compare_prices_cases w pickup_location destination preferences
                                   apps st)
      as [[_ (st' & H & Hlast & _)] | [Hne _]]; [eauto|].
    exfalso. apply Hne. apply collect_nothing. intros n q Hn.
    rewrite gather_nth in Hn. simpl in Hn.
    destruct (nth_error (launch (requested apps)) n) as [a|] eqn:Ea;
      [|discriminate].
    simpl in Hn. injection Hn as Hn.
    apply nth_error_In in Ea. unfold launch in Ea. apply filter_In in Ea.
    rewrite (Hfail n a (proj1 Ea)) in Hn. discriminate.
  - intros r st' H. apply compare_prices_ok in H. tauto.
Qed.

(** C4, as the code has it. Every [ComparisonResult] returned by
    [compare_prices] has a non-empty quote map whose keys are registered
    names taken from the requested list; the selected provider is one of
    these keys and the selected price is the price stored under it. The
    [app_name] inside a stored quote is whatever the agent reported and is
    not compared with the key. *)
Theorem comparison_result_invariants
        (apps : option (list string)) (st st' : state)
        (r : ComparisonResult) :
  compare_prices apps st = (Ok r, st') ->
  prices r <> [] /\
  In (cheapest_app r) (keys (prices r)) /\
  (exists q, get (cheapest_app r) (prices r) = Some q /\
             cheapest_price r = PriceInfo.estimated_price q) /\
  (forall k, In k (keys (prices r)) ->
             registered k = true /\ In k (requested apps)) /\
  last_comparison st' = Some r.
Proof.
  intros H. apply compare_prices_ok in H.
  destruct H as (Hp & Hne & Hmin & Hprice & Hlast & _).
  destruct (cheapest_stored r Hmin Hprice) as [Hin Hq].
  split; [exact Hne|]. split; [exact Hin|]. split; [exact Hq|].
  split; [|exact Hlast].
  intros k Hk. rewrite Hp in Hk. apply collect_keys in Hk.
  destruct Hk as [[]|[Hr Hreg]]. auto.
Qed.

(** C5. [book_cheapest] without a comparison first runs [compare_prices]
    over all agents. When that fails nothing is booked and the answer is
    [None]. Otherwise exactly one booking call follows, on the selected
    provider and with the quote stored for it; the answer is the answer of
    that call, so a failed booking gives [None], no other provider is
    tried and no booking is recorded. *)
Theorem book_cheapest_books_only_the_winner (st : state) :
  exists outcome st1,
    compare_prices None st = (outcome, st1) /\
    calls st1 = calls st ++ map Fetch agents /\
    match outcome with
    | Raised _ => book_cheapest None st = (Ok None, st1)
    | Ok comparison =>
        exists price_info st2,
          get (cheapest_app comparison) (prices comparison)
          = Some price_info /\
          book_cheapest None st
          = (Ok (book_ride w (cheapest_app comparison) pickup_location
                           destination preferences price_info), st2) /\
          calls st2
          = calls st1 ++ [Book (cheapest_app comparison) price_info] /\
          (book_ride w (cheapest_app comparison) pickup_location
                     destination preferences price_info = None ->
           last_booking st2 = last_booking st)
    end.
Proof.
  unfold Orchestrator.book_cheapest, try_except, mbind.
  destruct (compare_prices None st) as [[comparison|e] st1] eqn:E.
  - exists (Ok comparison), st1.
    destruct (comparison_result_invariants None st st1 comparison E)
      as (_ & Hin & [q [Hq _]] & Hkeys & _).
    destruct (Hkeys _ Hin) as [Hreg _].
    apply compare_prices_ok in E.
    destruct E as (_ & _ & _ & _ & _ & Hbook & Hcalls).
    split; [reflexivity|]. split; [exact Hcalls|].
    exists q. unfold lift, getitem. rewrite Hq, Hreg.
    unfold ret, record, set_last_booking.
    destruct (book_ride w (cheapest_app comparison) pickup_location
                        destination preferences q) as [confirmed|];
      eexists; (split; [reflexivity|]); (split; [reflexivity|]); simpl;
      (split; [reflexivity|]); [discriminate | intros _; exact Hbook].
  - exists (Raised e), st1.
    destruct (compare_prices_cases w pickup_location destination preferences
                                   None st)
      as [[_ (st' & H & _ & _ & Hcalls)] | [_ (r & st' & H & _)]];
      rewrite E in H; [|discriminate].
    injection H as _ <-. auto.
Qed.

(** C10. When every entry of the requested list is a registered name,
    whatever is stored under a key is the quote returned by a fetch task
    launched for that very name. With an unregistered name in front of
    registered ones, the results are read one place too far: what is
    stored under a name is the quote fetched for the next name of the
    list. So in the request for "lyft", "uber" and "ola", the quote ola
    returned is stored under "uber" and the quote uber returned is stored
    nowhere. *)
Theorem quote_pairing :
  (forall apps st r st',
      Forall (fun a => registered a = true) (requested apps) ->
      compare_prices apps st = (Ok r, st') ->
      forall k q,
        get k (prices r) = Some q ->
        exists task,
          nth_error (launch (requested apps)) task = Some k /\
          fetch task k = Some q) /\
  (forall stranger rest st r st',
      registered stranger = false ->
      Forall (fun a => registered a = true) rest ->
      compare_prices (Some (stranger :: rest)) st = (Ok r, st') ->
      forall k q,
        get k (prices r) = Some q ->
        exists n next,
          nth_error rest n = Some k /\
          nth_error rest (S n) = Some next /\
          fetch (S n) next = Some q) /\
  (exists r st',
      Orchestrator.compare_prices Scenario.three_quotes "here" "airport"
        Scenario.to_airport (Some ["lyft"; "uber"; "ola"]) initial
      = (Ok r, st') /\
      registered "lyft" = false /\
      _fetch_price_from_app Scenario.three_quotes "here" "airport"
        Scenario.to_airport 0 "uber" = Some Scenario.uber_quote /\
      _fetch_price_from_app Scenario.three_quotes "here" "airport"
        Scenario.to_airport 1 "ola" = Some Scenario.ola_quote /\
      prices r = [("uber", Scenario.ola_quote)]).
Proof.
  split; [|split].
  - intros apps st r st' Hreg H k q Hk.
    apply compare_prices_ok in H. destruct H as (Hp & _).
    rewrite Hp in Hk. apply collect_sound in Hk.
    destruct Hk as [Hk|[n (Hn & _ & Hres)]]; [discriminate|].
    simpl in Hres. rewrite gather_nth in Hres. simpl in Hres.
    rewrite launch_all_registered in * by exact Hreg.
    rewrite Hn in Hres. simpl in Hres. injection Hres as Hres.
    exists n. auto.
  - intros stranger rest st r st' Hout Hreg H k q Hk.
    apply compare_prices_ok in H. destruct H as (Hp & _).
    rewrite Hp in Hk. apply collect_sound in Hk.
    destruct Hk as [Hk|[m (Hm & Hregk & Hres)]]; [discriminate|].
    simpl requested in *. unfold launch in Hres. simpl filter in Hres.
    rewrite Hout in Hres. fold (launch rest) in Hres.
    rewrite launch_all_registered in Hres by exact Hreg.
    destruct m as [|n]; simpl in Hm.
    { injection Hm as ->. congruence. }
    rewrite gather_nth in Hres.
    change (0 + (0 + S n))%nat with (S n) in Hres.
    change (0 + S n)%nat with (S n) in Hres.
    destruct (nth_error rest (S n)) as [next|] eqn:Enext; [|discriminate].
    simpl in Hres. injection Hres as Hres. eauto.
  - do 2 eexists. split; [vm_compute; reflexivity|].
    repeat split; reflexivity.
Qed.

(** C1, as the code has it. For a requested list of registered names
    without repetition in which at least one provider returns a quote,
    [compare_prices] succeeds; the quote map holds exactly the providers
    that returned a quote, each with its own quote, in the order of the
    list; the selected provider returned a quote that no other returned
    quote undercuts, and every provider that comes earlier in the list and
    returned a quote is strictly more expensive, so that a tie goes to the
    earliest provider of the list. *)
Theorem cheapest_is_first_minimum
        (apps : option (list string)) (st : state) :
  Forall (fun a => registered a = true) (requested apps) ->
  NoDup (requested apps) ->
  (exists n a q,
      nth_error (requested apps) n = Some a /\ fetch n a = Some q) ->
  exists r st',
    compare_prices apps st = (Ok r, st') /\
    prices r = quotes_in_order 0 (requested apps) /\
    exists n q,
      nth_error (requested apps) n = Some (cheapest_app r) /\
      fetch n (cheapest_app r) = Some q /\
      cheapest_price r = PriceInfo.estimated_price q /\
      forall m a q',
        nth_error (requested apps) m = Some a -> fetch m a = Some q' ->
        PriceInfo.estimated_price q <= PriceInfo.estimated_price q' /\
        ((m < n)%nat ->
         PriceInfo.estimated_price q < PriceInfo.estimated_price q').
Proof.
  pose proof (compare_prices_cases w pickup_location destination
                                   preferences apps st) as Hcases.
  cbv zeta in Hcases. revert Hcases.
  generalize (requested apps). intros names Hcases.
  intros Hreg Hnd (n0 & a0 & q0 & Hn0 & Hq0).
  assert (Hfound : collect 0 names
                     (gather w pickup_location destination preferences 0
                             (launch names)) []
                   = quotes_in_order 0 names).
  { rewrite (collect_quotes w pickup_location destination preferences);
      [reflexivity | exact Hreg | exact Hnd | intros a _ [] |].
    intros n a Hn. now apply results_in_place. }
  rewrite Hfound in Hcases.
  destruct Hcases
    as [[Hnil _] | [_ (r & st' & H & Hp & Hmin & Hprice & _)]].
  { exfalso. assert (Hin : In (a0, q0) (quotes_in_order 0 names))
      by (apply quotes_in; exists n0; auto).
    rewrite Hnil in Hin. exact Hin. }
  exists r, st'. split; [exact H|]. split; [exact Hp|].
  pose proof (quotes_keys_nodup w pickup_location destination preferences
                                names 0 Hnd) as Hkeys.
  assert (Hprice_of : forall a q', In (a, q') (quotes_in_order 0 names) ->
            price_of (quotes_in_order 0 names) a
            = PriceInfo.estimated_price q').
  { intros a q' Hin. unfold price_of.
    now rewrite (get_in_nodup a q' _ Hkeys Hin). }
  apply min_by_first in Hmin.
  destruct Hmin as (kb & ka & Heq & Hlt & Hle).
  unfold keys in Heq. apply map_eq_app in Heq.
  destruct Heq as (db & rest & Hsplit & Hdb & Hrest).
  apply map_eq_cons in Hrest.
  destruct Hrest as ([c q] & da & -> & Hc & Hda). simpl in Hc.
  destruct (quotes_split w pickup_location destination preferences
                         names 0 db c q da Hsplit) as (n & Hn & Hq & Hord).
  simpl in Hq.
  assert (Hcq : price_of (quotes_in_order 0 names) (cheapest_app r)
                = PriceInfo.estimated_price q).
  { rewrite <- Hc. apply Hprice_of. rewrite Hsplit. apply in_elt. }
  exists n, q. rewrite <- Hc at 1 2.
  split; [exact Hn|]. split; [exact Hq|].
  split; [now rewrite Hprice, Hcq|].
  intros m a q' Hm Hf.
  assert (Hin : In (a, q') (quotes_in_order 0 names))
    by (apply quotes_in; exists m; auto).
  destruct (Hord m a q' Hm Hf) as [Hbefore Hafter].
  assert (Hcases : (m < n \/ m = n \/ n < m)%nat) by lia.
  rewrite <- Hcq, <- (Hprice_of a q' Hin).
  destruct Hcases as [Hm_lt | [Hm_eq | Hm_gt]].
  - assert (Hk : In a kb).
    { rewrite <- Hdb. apply (in_map fst) in Hbefore; [exact Hbefore|].
      exact Hm_lt. }
    split; [apply Qlt_le_weak|intros _]; now apply Hlt.
  - subst m. rewrite Hn in Hm. injection Hm as <-. rewrite Hc.
    split; [apply Qle_refl | lia].
  - assert (Hk : In a ka).
    { rewrite <- Hda. apply (in_map fst) in Hafter; [exact Hafter|].
      exact Hm_gt. }
    split; [now apply Hle | lia].
Qed.

End OrchestratorClaims.

(* ================================================================== *)
(** * The statements at concrete requests *)

Section Instances.
Import Py Orchestrator.

(** All three providers fail: the comparison raises. *)
Lemma no_quotes_is_a_hard_error_witness :
  exists st',
    compare_prices Scenario.all_fail "here" "airport" Scenario.to_airport
                   None initial
    = (Raised (ValueError "Could not fetch prices from any app"), st') /\
    last_comparison st' = last_comparison initial.
Proof.
  apply (proj1 (no_quotes_is_a_hard_error
                  Scenario.all_fail "here" "airport" Scenario.to_airport
                  None initial)).
  intros task app_name _. unfold _fetch_price_from_app.
  now destruct (registered app_name).
Defined.

(** Prices 120, 150 and 99: the result is well formed. *)
Lemma comparison_result_invariants_witness :
  exists r st',
    compare_prices Scenario.three_quotes "here" "airport"
                   Scenario.to_airport None initial = (Ok r, st') /\
    prices r <> [] /\
    In (cheapest_app r) (keys (prices r)).
Proof.
  destruct (compare_prices Scenario.three_quotes "here" "airport"
                           Scenario.to_airport None initial)
    as [[r|e] st'] eqn:E; [|vm_compute in E; discriminate].
  exists r, st'. split; [reflexivity|].
  destruct (comparison_result_invariants
              Scenario.three_quotes "here" "airport" Scenario.to_airport
              None initial st' r E) as (Hne & Hin & _).
  split; assumption.
Defined.

(** C4 fails on the name: the quote the Uber agent reports carries the
    app name "Uber" and is stored under the key "uber". *)
Lemma quote_name_differs_from_key :
  exists r st' q,
    compare_prices Scenario.three_quotes "here" "airport"
                   Scenario.to_airport None initial = (Ok r, st') /\
    get "uber" (prices r) = Some q /\
    PriceInfo.app_name q = "Uber" /\
    PriceInfo.app_name q <> "uber".
Proof.
  do 3 eexists. split; [vm_compute; reflexivity|].
  split; [reflexivity|]. split; [reflexivity | discriminate].
Qed.

(** Prices 120, 150 and 99: the provider reporting 99 is selected. *)
Lemma cheapest_is_first_minimum_witness :
  exists r st',
    compare_prices Scenario.three_quotes "here" "airport"
                   Scenario.to_airport (Some Config.DEFAULT_APPS) initial
    = (Ok r, st') /\
    prices r = quotes_in_order Scenario.three_quotes "here" "airport"
                               Scenario.to_airport 0 Config.DEFAULT_APPS.
Proof.
  destruct (cheapest_is_first_minimum
              Scenario.three_quotes "here" "airport" Scenario.to_airport
              (Some Config.DEFAULT_APPS) initial)
    as (r & st' & H & Hp & _).
  - repeat constructor.
  - repeat constructor; simpl; intuition discriminate.
  - exists 0%nat, "uber", Scenario.uber_quote. split; reflexivity.
  - exists r, st'. split; assumption.
Defined.

(** C1 fails in two ways. With uber requested twice, its first fetch
    failing, and ola and uber both quoting 100, "ola" is selected although
    "uber" comes first in the requested list. With an unregistered name in
    front of "uber", the comparison raises although uber returned a
    quote. *)
Lemma tie_and_pairing_counterexample :
  (exists r st' q_ola q_uber,
      compare_prices Scenario.uber_twice "here" "airport"
                     Scenario.to_airport (Some ["uber"; "ola"; "uber"])
                     initial = (Ok r, st') /\
      nth_error ["uber"; "ola"; "uber"] 0 = Some "uber" /\
      nth_error ["uber"; "ola"; "uber"] 1 = Some "ola" /\
      _fetch_price_from_app Scenario.uber_twice "here" "airport"
                            Scenario.to_airport 1 "ola" = Some q_ola /\
      _fetch_price_from_app Scenario.uber_twice "here" "airport"
                            Scenario.to_airport 2 "uber" = Some q_uber /\
      PriceInfo.estimated_price q_uber == PriceInfo.estimated_price q_ola /\
      cheapest_app r = "ola") /\
  (exists st',
      _fetch_price_from_app Scenario.only_uber "here" "airport"
                            Scenario.to_airport 0 "uber"
      = Some Scenario.uber_quote /\
      compare_prices Scenario.only_uber "here" "airport"
                     Scenario.to_airport (Some ["lyft"; "uber"]) initial
      = (Raised (ValueError "Could not fetch prices from any app"), st')).
Proof.
  split.
  - do 4 eexists. split; [vm_compute; reflexivity|].
    repeat split; reflexivity.
  - eexists. split; [reflexivity | vm_compute; reflexivity].
Qed.

(** All names registered: rapido's quote is stored under "rapido". *)
Lemma quote_pairing_witness :
  exists task,
    nth_error (launch (requested None)) task = Some "rapido" /\
    _fetch_price_from_app Scenario.three_quotes "here" "airport"
                          Scenario.to_airport task "rapido"
    = Some Scenario.rapido_quote.
Proof.
  destruct (compare_prices Scenario.three_quotes "here" "airport"
                           Scenario.to_airport None initial)
    as [[r|e] st'] eqn:E; [|vm_compute in E; discriminate].
  refine (proj1 (quote_pairing Scenario.three_quotes "here" "airport"
                               Scenario.to_airport)
                None initial r st' _ E "rapido" Scenario.rapido_quote _).
  - repeat constructor.
  - vm_compute in E. injection E as <- _. reflexivity.
Defined.

End Instances.

(* ================================================================== *)
(** * The scenarios of the specification *)

Section Scenarios.
Import Py Orchestrator.

(** "Go to jiit sec 62 by rickshaw": the sec 62 campus, by rickshaw. *)
Example scenario_jiit_by_rickshaw :
  exists prefs,
    NlpParser.parse_ride_preferences "Go to jiit sec 62 by rickshaw"
    = NlpParser.Json prefs /\
    RidePreferences.destination prefs
    = "jaypee institute of information technology sec 62 noida" /\
    RidePreferences.ride_type prefs = "rickshaw".
Proof. eexists. repeat split. Qed.

(** Prices 120, 150 and 99: the provider reporting 99 wins. *)
Example scenario_three_prices :
  exists r st',
    compare_prices Scenario.three_quotes "here" "airport"
                   Scenario.to_airport (Some Config.DEFAULT_APPS) initial
    = (Ok r, st') /\
    cheapest_app r = "rapido" /\ cheapest_price r == 99.
Proof.
  do 2 eexists. split; [vm_compute; reflexivity|].
  split; reflexivity.
Qed.

(** One provider of three fails: the other two are compared. *)
Example scenario_one_provider_fails :
  exists r st',
    compare_prices Scenario.uber_down "here" "airport"
                   Scenario.to_airport (Some Config.DEFAULT_APPS) initial
    = (Ok r, st') /\
    keys (prices r) = ["ola"; "rapido"] /\ cheapest_app r = "rapido".
Proof.
  do 2 eexists. split; [vm_compute; reflexivity|].
  split; reflexivity.
Qed.

(** The booking on the winner fails: [None], and nobody else is asked. *)
Example scenario_booking_fails :
  exists st',
    book_cheapest Scenario.three_quotes "here" "airport"
                  Scenario.to_airport None initial = (Ok None, st') /\
    calls st' = [Fetch "uber"; Fetch "ola"; Fetch "rapido";
                 Book "rapido" Scenario.rapido_quote] /\
    last_booking st' = None.
Proof.
  eexists. split; [vm_compute; reflexivity|].
  split; reflexivity.
Qed.

End Scenarios.

(* ================================================================== *)
(** * Further properties of the text tools *)

Module TextFacts.
Import NlpParser ParserFacts DictFacts DestinationFacts.

Lemma lower_char_idempotent (c : ascii) :
  Py.lower_char (Py.lower_char c) = Py.lower_char c.
Proof.
  destruct c as [[] [] [] [] [] [] [] []]; reflexivity.
Qed.

Lemma lower_idempotent (s : string) : Py.lower (Py.lower s) = Py.lower s.
Proof.
  induction s as [|c s IH]; simpl; [reflexivity|].
  now rewrite lower_char_idempotent, IH.
Qed.

(** ** [strip] *)

Lemma rstrip_idempotent (s : string) : Py.rstrip (Py.rstrip s) = Py.rstrip s.
Proof.
  induction s as [|c s IH]; simpl; [reflexivity|].
  destruct (Py.rstrip s) as [|d t] eqn:E.
  - destruct (Py.isspace c) eqn:Ec; simpl; [reflexivity|].
    now rewrite Ec.
  - change (Py.rstrip (String c (String d t)))
      with (match Py.rstrip (String d t) with
            | EmptyString =>
                if Py.isspace c then EmptyString else String c EmptyString
            | u => String c u
            end).
    now rewrite IH.
Qed.

(** The head of a text that does not start with a blank survives. *)
Lemma rstrip_head (c : ascii) (s : string) :
  Py.isspace c = false ->
  exists t, Py.rstrip (String c s) = String c t.
Proof.
  intros Hc. simpl. destruct (Py.rstrip s); [rewrite Hc|]; eauto.
Qed.

Lemma lstrip_head (s : string) :
  Py.lstrip s = EmptyString \/
  exists c t, Py.lstrip s = String c t /\ Py.isspace c = false.
Proof.
  induction s as [|c s IH]; simpl; [now left|].
  destruct (Py.isspace c) eqn:Ec; [exact IH | right; eauto].
Qed.

Lemma lstrip_fixed (c : ascii) (t : string) :
  Py.isspace c = false -> Py.lstrip (String c t) = String c t.
Proof. intros Hc. simpl. now rewrite Hc. Qed.

Lemma strip_idempotent (s : string) : Py.strip (Py.strip s) = Py.strip s.
Proof.
  unfold Py.strip.
  destruct (lstrip_head s) as [E | (c & t & E & Hc)]; rewrite E.
  - reflexivity.
  - destruct (rstrip_head c t Hc) as [u Hu]. rewrite Hu.
    rewrite (lstrip_fixed c u Hc), <- Hu. apply rstrip_idempotent.
Qed.

(** ** [_match_destination]: what it can return *)

Lemma disambiguate_some (items : Py.dict (list string)) (l : string)
      (matches : Py.dict nat) (d : string) :
  disambiguate items l matches = Some d ->
  exists e, In e items /\ fst e = d /\ Py.mem d matches = true.
Proof.
  induction items as [|[d0 kws] rest IH]; simpl; [discriminate|].
  destruct (Py.mem d0 matches) eqn:Em; simpl.
  - destruct (specific_matches kws l).
    + intros H. destruct (IH H) as (e & He & Hd & Hm). eauto.
    + intros H. injection H as <-. exists (d0, kws). auto.
  - intros H. destruct (IH H) as (e & He & Hd & Hm). eauto.
Qed.

Lemma max_by_in {A} (key : A -> nat) (l : list A) (x : A) :
  Py.max_by key l = Some x -> In x l.
Proof.
  intros H. apply max_by_first in H.
  destruct H as (before & after & -> & _). apply in_elt.
Qed.

(** The result is [None] exactly when no entry has a keyword in the
    text, and otherwise the key of an entry that has one. *)
Lemma match_destination_candidates
      (table : Py.dict (list string)) (user_input : string) :
  NoDup (Py.keys table) ->
  match match_destination_in table user_input with
  | None => filter (candidate (Py.lower user_input)) table = []
  | Some d =>
      exists e, In e table /\ fst e = d /\
                candidate (Py.lower user_input) e = true
  end.
Proof.
  intros Hnd. set (l := Py.lower user_input).
  assert (Hfm : find_matches table l []
                = map (tally l) (filter (candidate l) table)).
  { rewrite find_matches_filter; [reflexivity | exact Hnd | intros e _ []]. }
  assert (Hin : forall e, In e (filter (candidate l) table) ->
                  exists e', In e' table /\ fst e' = fst e /\
                             candidate l e' = true).
  { intros e He. apply filter_In in He. exists e. tauto. }
  unfold match_destination_in. fold l. rewrite Hfm.
  destruct (filter (candidate l) table) as [|c1 [|c2 cs]] eqn:Ecs; simpl map.
  - reflexivity.
  - apply (Hin c1). now left.
  - cbv beta iota.
    destruct (disambiguate table l _) as [d|] eqn:Ed.
    + apply disambiguate_some in Ed. destruct Ed as (e & He & Hd & Hm).
      exists e. split; [exact He|]. split; [exact Hd|].
      rewrite <- Hd in Hm.
      change (tally l c1 :: tally l c2 :: map (tally l) cs)
        with (map (tally l) (c1 :: c2 :: cs)) in Hm.
      rewrite <- Ecs in Hm.
      now rewrite (matched_iff_candidate table l e Hnd He) in Hm.
    + destruct (Py.max_by snd (tally l c1 :: tally l c2 :: map (tally l) cs))
        as [m|] eqn:Emax; [|discriminate]. simpl.
      apply max_by_in in Emax.
      change (tally l c1 :: tally l c2 :: map (tally l) cs)
        with (map (tally l) (c1 :: c2 :: cs)) in Emax.
      apply in_map_iff in Emax. destruct Emax as (e & <- & He).
      exact (Hin e He).
Qed.

Lemma common_destinations_nodup : NoDup (Py.keys Config.COMMON_DESTINATIONS).
Proof. repeat constructor; simpl; intuition discriminate. Qed.

Lemma candidate_iff (l : string) (e : string * list string) :
  candidate l e = true <->
  exists kw, In kw (snd e) /\ Py.contains kw l = true.
Proof.
  unfold candidate. apply existsb_exists.
Qed.

Lemma int_digits_nonneg (s : string) :
  forall acc, (0 <= acc)%Z -> (0 <= Py.int_digits acc s)%Z.
Proof.
  induction s as [|c s IH]; intros acc Hacc; cbn [Py.int_digits];
    [exact Hacc|].
  apply IH. unfold Py.digit_value.
  pose proof (N2Z.is_nonneg (Py.code c - 48)). lia.
Qed.

End TextFacts.

Section TextToolClaims.
Import NlpParser ParserFacts DictFacts DestinationFacts TextFacts.

(** X1. Preference extraction ignores the case of the text: the
    lower-cased text gives the same reply as the text itself. *)
Theorem parse_ignores_case (user_input : string) :
  parse_ride_preferences (Py.lower user_input)
  = parse_ride_preferences user_input.
Proof.
  unfold parse_ride_preferences, build_preferences, extract_destination,
    _match_destination, match_destination_in, regex_destination,
    detect_ride_type, detect_ac_preference, detect_luggage,
    detect_passengers.
  now rewrite !lower_idempotent.
Qed.

(** X2. A known destination wins over the directional phrase: when some
    keyword of the destination table occurs in the lower-cased text, the
    extracted destination is the full name of a table entry one of whose
    keywords occurs; when none occurs, it is what the pattern gives. *)
Theorem known_destination_wins
        (user_input : string) (prefs : RidePreferences.t) :
  parse_ride_preferences user_input = Json prefs ->
  let mentioned := fun entry : string * list string =>
    exists kw, In kw (snd entry) /\
               Py.contains kw (Py.lower user_input) = true in
  ((exists entry, In entry Config.COMMON_DESTINATIONS /\ mentioned entry) ->
   exists entry,
     In entry Config.COMMON_DESTINATIONS /\ mentioned entry /\
     RidePreferences.destination prefs = fst entry) /\
  ((forall entry, In entry Config.COMMON_DESTINATIONS -> ~ mentioned entry) ->
   RidePreferences.destination prefs = regex_destination user_input).
Proof.
  intros Hparse mentioned.
  destruct (parse_json_fields _ _ Hparse) as (Hdest & _).
  rewrite Hdest. unfold extract_destination, _match_destination.
  pose proof (match_destination_candidates Config.COMMON_DESTINATIONS
                user_input common_destinations_nodup) as Hm.
  destruct (match_destination_in Config.COMMON_DESTINATIONS user_input)
    as [d|].
  - destruct Hm as (e & He & Hd & Hc). apply candidate_iff in Hc.
    assert (Htruthy : Py.truthy d = true).
    { subst d. simpl in He.
      destruct He as [<-|[<-|[<-|[<-|[]]]]]; reflexivity. }
    rewrite Htruthy. split.
    + intros _. exists e. auto.
    + intros Hnone. exfalso. exact (Hnone e He Hc).
  - split; [|reflexivity].
    intros (e & He & Hc). apply candidate_iff in Hc.
    assert (Hin : In e (filter (candidate (Py.lower user_input))
                               Config.COMMON_DESTINATIONS))
      by (apply filter_In; auto).
    rewrite Hm in Hin. destruct Hin.
Qed.

Lemma known_destination_wins_witness :
  exists prefs,
    parse_ride_preferences "Take me to the office" = Json prefs /\
    exists entry,
      In entry Config.COMMON_DESTINATIONS /\
      RidePreferences.destination prefs = fst entry.
Proof.
  eexists. split; [vm_compute; reflexivity|].
  destruct (proj1 (known_destination_wins "Take me to the office" _ eq_refl))
    as (entry & Hin & _ & Hd).
  - exists ("work", ["work"; "office"; "workplace"; "company"]).
    split; [now left|]. exists "office". split; [simpl; auto | reflexivity].
  - exists entry. auto.
Defined.

(** X3. The passenger count of a reply is never negative, and it is 1
    unless "we" or "us" occurs in the lower-cased text, whatever number
    the text gives. *)
Theorem passengers_default
        (user_input : string) (prefs : RidePreferences.t) :
  parse_ride_preferences user_input = Json prefs ->
  (0 <= RidePreferences.passengers prefs)%Z /\
  (Py.contains "we" (Py.lower user_input) = false ->
   Py.contains "us" (Py.lower user_input) = false ->
   RidePreferences.passengers prefs = 1%Z).
Proof.
  intros Hparse.
  destruct (parse_json_fields _ _ Hparse) as (_ & _ & _ & _ & Hp).
  unfold detect_passengers in Hp. split.
  - destruct (Py.contains "we" (Py.lower user_input)
              || Py.contains "us" (Py.lower user_input)).
    + destruct (Re.search passengers_pattern (Py.lower user_input))
        as [num_match|].
      * unfold Py.int in Hp.
        destruct (Nat.ltb Py.int_max_str_digits
                          (String.length (Re.group1 num_match)));
          [discriminate|].
        injection Hp as <-. apply int_digits_nonneg. lia.
      * injection Hp as <-. lia.
    + injection Hp as <-. lia.
  - intros Hwe Hus. rewrite Hwe, Hus in Hp. simpl in Hp.
    now injection Hp as <-.
Qed.

Lemma passengers_default_witness :
  exists prefs,
    parse_ride_preferences "3 people to the airport" = Json prefs /\
    RidePreferences.passengers prefs = 1%Z.
Proof.
  eexists. split; [vm_compute; reflexivity|].
  apply (proj2 (passengers_default "3 people to the airport" _ eq_refl));
    reflexivity.
Defined.

(** X4. Every ride category a reply can carry has an entry of its own in
    the ride-type table of each of the three agents, so that no agent
    falls back to its default for a parsed request. *)
Theorem parsed_category_is_mapped
        (user_input : string) (prefs : RidePreferences.t) :
  parse_ride_preferences user_input = Json prefs ->
  let category := RidePreferences.ride_type prefs in
  In category ["car"; "rickshaw"; "bike"; "auto"; "premium"] /\
  Py.get (Py.lower category) UberAgent.mapping
  = Some (UberAgent._map_ride_type category) /\
  Py.get (Py.lower category) OlaAgent.mapping
  = Some (OlaAgent._map_ride_type category) /\
  Py.get (Py.lower category) RapidoAgent.mapping
  = Some (RapidoAgent._map_ride_type category).
Proof.
  intros Hparse category.
  destruct (parse_json_fields _ _ Hparse) as (_ & Hrt & _).
  unfold category. rewrite Hrt. unfold detect_ride_type.
  repeat match goal with
         | |- context [Py.any_in ?ws ?l] => destruct (Py.any_in ws l)
         end; simpl; intuition reflexivity.
Qed.

Lemma parsed_category_is_mapped_witness :
  exists prefs,
    parse_ride_preferences "Need an auto to the station" = Json prefs /\
    Py.get (Py.lower (RidePreferences.ride_type prefs)) RapidoAgent.mapping
    = Some (RapidoAgent._map_ride_type (RidePreferences.ride_type prefs)).
Proof.
  eexists. split; [vm_compute; reflexivity|].
  exact (proj2 (proj2 (proj2
    (parsed_category_is_mapped "Need an auto to the station" _ eq_refl)))).
Defined.

(** X5. [validate_location] is idempotent, and what it returns carries no
    blank at either end. *)
Theorem validate_location_idempotent (location : string) :
  LocationTools.validate_location (LocationTools.validate_location location)
  = LocationTools.validate_location location /\
  Py.strip (LocationTools.validate_location location)
  = LocationTools.validate_location location.
Proof.
  assert (Hdef : LocationTools.validate_location location
                 = match Py.get (Py.lower (Py.strip location))
                                LocationTools.common_locations with
                   | Some v => v
                   | None => Py.strip location
                   end) by reflexivity.
  rewrite Hdef. clear Hdef.
  destruct (Py.get (Py.lower (Py.strip location))
                   LocationTools.common_locations) as [v|] eqn:E.
  - apply get_some_in in E. simpl in E.
    repeat (destruct E as [E|E]; [injection E as _ <-; split; reflexivity|]).
    destruct E.
  - unfold LocationTools.validate_location.
    rewrite strip_idempotent, E. split; reflexivity.
Qed.

End TextToolClaims.

(* ================================================================== *)
(** * Properties of [utils.py] *)

Module UtilsFacts.
Import Py Utils Re.

(** A greedy run followed by a continuation that always accepts takes
    the whole run. *)
Lemma plus_greedy_whole {R} (cls : ascii -> bool) (run rest : string)
      (k : string -> option R) :
  run <> EmptyString ->
  all_chars cls run = true ->
  head_is cls rest = false ->
  (forall s, k s <> None) ->
  plus_greedy cls (run ++ rest) k = k rest.
Proof.
  intros Hne Hall Hrest Hk. induction run as [|c run IH]; [congruence|].
  simpl in Hall. apply andb_true_iff in Hall. destruct Hall as [Hc Hall].
  simpl. rewrite Hc. destruct run as [|d run].
  - simpl. destruct rest as [|e rest]; simpl.
    + reflexivity.
    + simpl in Hrest. rewrite Hrest. reflexivity.
  - rewrite IH by (discriminate || exact Hall).
    destruct (k rest) eqn:E; [reflexivity|]. exfalso. exact (Hk rest E).
Qed.

Lemma take_app (s rest : string) : take (String.length s) (s ++ rest) = s.
Proof. induction s as [|c s IH]; simpl; [now destruct rest | now rewrite IH]. Qed.

Lemma length_app (s rest : string) :
  String.length (s ++ rest) = (String.length s + String.length rest)%nat.
Proof. induction s as [|c s IH]; simpl; [reflexivity | now rewrite IH]. Qed.

Lemma consumed_app (s rest : string) : consumed (s ++ rest) rest = s.
Proof.
  unfold consumed. rewrite length_app.
  replace (String.length s + String.length rest - String.length rest)%nat
    with (String.length s) by lia.
  apply take_app.
Qed.

Lemma search_cons (r : regex) (c : ascii) (s : string) :
  search r (String c s)
  = match run r (String c s) None (fun _ g => Some g) with
    | Some g => Some g
    | None => search r s
    end.
Proof. reflexivity. Qed.

(** The search skips what is not a digit and stops at the first run of
    digits, which it takes whole. *)
Lemma search_first_number (before digits rest : string) :
  all_chars (fun c => negb (isdigit_char c)) before = true ->
  digits <> EmptyString ->
  all_chars isdigit_char digits = true ->
  head_is isdigit_char rest = false ->
  search eta_pattern (before ++ digits ++ rest) = Some (Some digits).
Proof.
  intros Hbefore Hne Hall Hrest.
  induction before as [|c before IH].
  - simpl append. destruct digits as [|d digits]; [congruence|].
    assert (Hrun : run eta_pattern (String d digits ++ rest) None
                       (fun _ g => Some g) = Some (Some (String d digits))).
    { unfold eta_pattern. cbn [run].
      rewrite plus_greedy_whole; try assumption; [|discriminate].
      now rewrite consumed_app. }
    simpl append in *. now rewrite search_cons, Hrun.
  - simpl in Hbefore. apply andb_true_iff in Hbefore.
    destruct Hbefore as [Hc Hbefore]. apply negb_true_iff in Hc.
    simpl append. rewrite search_cons.
    unfold eta_pattern at 1. cbn [run plus_greedy].
    rewrite Hc. now apply IH.
Qed.

Lemma search_no_number (s : string) :
  all_chars (fun c => negb (isdigit_char c)) s = true ->
  search eta_pattern s = None.
Proof.
  induction s as [|c s IH]; intros H.
  - reflexivity.
  - simpl in H. apply andb_true_iff in H. destruct H as [Hc H].
    apply negb_true_iff in Hc.
    rewrite search_cons. unfold eta_pattern at 1. cbn [run plus_greedy].
    rewrite Hc. now apply IH.
Qed.

End UtilsFacts.

Section UtilsClaims.
Import Py Utils UtilsFacts.

(** X6. [calculate_eta_in_minutes] reads the first run of digits of the
    text, whole, as a decimal number; it answers [None] when that run has
    more than 4300 digits and when the text has no digit at all. *)
Theorem eta_is_first_number :
  (forall before digits rest,
      all_chars (fun c => negb (isdigit_char c)) before = true ->
      digits <> EmptyString ->
      all_chars isdigit_char digits = true ->
      head_is isdigit_char rest = false ->
      calculate_eta_in_minutes (before ++ digits ++ rest)
      = if Nat.ltb 4300 (String.length digits) then None
        else Some (int_digits 0 digits)) /\
  (forall text,
      all_chars (fun c => negb (isdigit_char c)) text = true ->
      calculate_eta_in_minutes text = None).
Proof.
  split.
  - intros before digits rest Hb Hne Hd Hr.
    unfold calculate_eta_in_minutes.
    rewrite (search_first_number before digits rest Hb Hne Hd Hr).
    unfold int, Re.group1, int_max_str_digits.
    destruct (Nat.ltb 4300 (String.length digits)); reflexivity.
  - intros text H. unfold calculate_eta_in_minutes.
    now rewrite search_no_number.
Qed.

Lemma eta_is_first_number_witness :
  calculate_eta_in_minutes "in 7-10 mins" = Some 7%Z.
Proof.
  exact (proj1 eta_is_first_number "in " "7" "-10 mins"
               eq_refl ltac:(discriminate) eq_refl eq_refl).
Defined.

End UtilsClaims.

Section FareHistoryClaims.
Import FareHistory.

(** X7. With a limit of at least 1, [add_comparison] puts the new entry
    last, drops only the oldest entries, and leaves
    [min(len(history) + 1, max_entries)] entries; the limit is unchanged. *)
Theorem history_keeps_latest
        (now : string) (comparison_data : Py.dict PriceInfo.t) (self : t) :
  (1 <= max_entries self)%Z ->
  let added := {| timestamp := now; data := comparison_data |} in
  let after := add_comparison now comparison_data self in
  (exists dropped, history self ++ [added] = dropped ++ history after) /\
  (exists front, history after = front ++ [added]) /\
  total_entries after
  = Nat.min (S (total_entries self)) (Z.to_nat (max_entries self)) /\
  max_entries after = max_entries self.
Proof.
  intros Hmax added after. unfold total_entries.
  subst after. unfold add_comparison. fold added.
  assert (Hlen : List.length (history self ++ [added])
                 = S (List.length (history self)))
    by (rewrite length_app; simpl; lia).
  destruct (Z.of_nat (List.length (history self ++ [added]))
            >? max_entries self)%Z eqn:E; cbn [history max_entries].
  - apply Z.gtb_lt in E. unfold slice_from.
    assert (Hneg : (- max_entries self <? 0)%Z = true)
      by (apply Z.ltb_lt; lia).
    rewrite Hneg. rewrite Hlen in *.
    set (k := Z.to_nat
                (Z.max (- max_entries self
                        + Z.of_nat (S (List.length (history self)))) 0)).
    assert (Hk : (k = S (List.length (history self))
                      - Z.to_nat (max_entries self))%nat) by (subst k; lia).
    assert (Hle : (k <= List.length (history self))%nat) by lia.
    split; [|split; [|split; [|reflexivity]]].
    + exists (firstn k (history self ++ [added])).
      now rewrite firstn_skipn.
    + exists (skipn k (history self)). rewrite skipn_app.
      replace (k - List.length (history self))%nat with 0%nat by lia.
      reflexivity.
    + rewrite length_skipn, Hlen. lia.
  - rewrite Z.gtb_ltb in E. apply Z.ltb_ge in E. rewrite Hlen in *.
    split; [|split; [|split; [|reflexivity]]].
    + now exists [].
    + now exists (history self).
    + lia.
Qed.

Lemma history_keeps_latest_witness :
  total_entries
    (add_comparison "t3" [] (add_comparison "t2" []
       (add_comparison "t1" [] (init 2))))
  = 2%nat.
Proof.
  destruct (history_keeps_latest "t3" []
              (add_comparison "t2" [] (add_comparison "t1" [] (init 2))))
    as (_ & _ & H & _).
  - simpl. lia.
  - exact H.
Defined.

(** X8. A limit below 1 does not limit as one would expect: with
    [max_entries = 0] nothing is ever dropped, and with a negative limit
    every call drops the first [-max_entries] entries of the extended
    history, the new entry included when the history is that short. *)
Theorem history_limit_below_one
        (now : string) (comparison_data : Py.dict PriceInfo.t) (self : t) :
  let added := {| timestamp := now; data := comparison_data |} in
  let after := add_comparison now comparison_data self in
  (max_entries self = 0%Z -> history after = history self ++ [added]) /\
  ((max_entries self < 0)%Z ->
   history after
   = skipn (Z.to_nat (- max_entries self)) (history self ++ [added])).
Proof.
  intros added after. subst after. unfold add_comparison. fold added.
  assert (Hlen : List.length (history self ++ [added])
                 = S (List.length (history self)))
    by (rewrite length_app; simpl; lia).
  split; intros Hmax.
  - rewrite Hmax.
    destruct (Z.of_nat (List.length (history self ++ [added])) >? 0)%Z;
      cbn [history]; [|reflexivity].
    unfold slice_from. change (- 0 <? 0)%Z with false. cbv iota.
    rewrite Z.min_l by lia. reflexivity.
  - assert (E : (Z.of_nat (List.length (history self ++ [added]))
                 >? max_entries self)%Z = true)
      by (apply Z.gtb_lt; lia).
    rewrite E. cbn [history]. unfold slice_from.
    assert (Hpos : (- max_entries self <? 0)%Z = false)
      by (apply Z.ltb_ge; lia).
    rewrite Hpos.
    destruct (Z.min_spec (- max_entries self)
                (Z.of_nat (List.length (history self ++ [added]))))
      as [[_ ->]|[Hge ->]]; [reflexivity|].
    rewrite Nat2Z.id.
    rewrite !skipn_all2; [reflexivity | lia | lia].
Qed.

Lemma history_limit_below_one_witness :
  history (add_comparison "t1" [] (init 0))
  = [{| timestamp := "t1"; data := [] |}].
Proof.
  exact (proj1 (history_limit_below_one "t1" [] (init 0)) eq_refl).
Defined.

End FareHistoryClaims.

(* ================================================================== *)
(** * Further properties of the orchestrator *)

Module ComparisonFacts.
Import Py Orchestrator DictFacts OrchestratorFacts.

(** ** Keys stay distinct *)

Lemma keys_set {V} (k : string) (v : V) (d : dict V) :
  keys (set k v d) = if mem k d then keys d else keys d ++ [k].
Proof.
  unfold mem. induction d as [|[k' v'] d IH]; simpl; [reflexivity|].
  destruct (String.eqb k k') eqn:E; simpl; [reflexivity|].
  rewrite IH. now destruct (get k d).
Qed.

Lemma set_keys_nodup {V} (k : string) (v : V) (d : dict V) :
  NoDup (keys d) -> NoDup (keys (set k v d)).
Proof.
  intros Hnd. rewrite keys_set. destruct (mem k d) eqn:E; [exact Hnd|].
  assert (Hout : ~ In k (keys d)).
  { intros Hin. apply mem_true_in in Hin. congruence. }
  clear E. induction (keys d) as [|a l IH]; simpl.
  - constructor; [intros [] | constructor].
  - inversion Hnd as [|? ? Ha Hl]; subst. constructor.
    + rewrite in_app_iff. simpl. intros [H|[H|[]]]; [tauto|].
      subst. apply Hout. now left.
    + apply IH; [exact Hl|]. intros H. apply Hout. now right.
Qed.

Lemma collect_keys_nodup (apps : list string) :
  forall i results acc,
    NoDup (keys acc) -> NoDup (keys (collect i apps results acc)).
Proof.
  induction apps as [|a apps IH]; intros i results acc Hnd; simpl;
    [exact Hnd|].
  apply IH. destruct (registered a); [|exact Hnd].
  destruct (nth_error results i) as [[result|]|]; try exact Hnd.
  now apply set_keys_nodup.
Qed.

(** ** The first minimum, read over the entries of the map *)

Lemma first_minimum_entry (d : dict PriceInfo.t) (c : string) :
  NoDup (keys d) ->
  min_by (price_of d) (keys d) = Some c ->
  exists before q after,
    d = before ++ (c, q) :: after /\
    get c d = Some q /\
    price_of d c = PriceInfo.estimated_price q /\
    (forall k q', In (k, q') before ->
       PriceInfo.estimated_price q < PriceInfo.estimated_price q') /\
    (forall k q', In (k, q') after ->
       PriceInfo.estimated_price q <= PriceInfo.estimated_price q').
Proof.
  intros Hnd Hmin. apply min_by_first in Hmin.
  destruct Hmin as (kb & ka & Heq & Hlt & Hle).
  unfold keys in Heq. apply map_eq_app in Heq.
  destruct Heq as (db & rest & Hsplit & Hdb & Hrest).
  apply map_eq_cons in Hrest.
  destruct Hrest as ([c' q] & da & -> & Hc & Hda). simpl in Hc. subst c'.
  assert (Hprice : forall k q', In (k, q') d ->
            price_of d k = PriceInfo.estimated_price q').
  { intros k q' Hin. unfold price_of.
    now rewrite (get_in_nodup k q' d Hnd Hin). }
  assert (Hc : In (c, q) d) by (rewrite Hsplit; apply in_elt).
  exists db, q, da. split; [exact Hsplit|].
  split; [exact (get_in_nodup c q d Hnd Hc)|].
  split; [exact (Hprice c q Hc)|].
  rewrite <- (Hprice c q Hc). split; intros k q' Hin.
  - rewrite <- (Hprice k q'); [|rewrite Hsplit; apply in_or_app; now left].
    apply Hlt. rewrite <- Hdb. exact (in_map fst _ _ Hin).
  - rewrite <- (Hprice k q');
      [|rewrite Hsplit; apply in_or_app; right; now right].
    apply Hle. rewrite <- Hda. exact (in_map fst _ _ Hin).
Qed.

Section Request.
Variable w : World.
Variables (pickup_location destination : string).
Variable preferences : RidePreferences.t.

Local Abbreviation fetch :=
  (_fetch_price_from_app w pickup_location destination preferences).
Local Abbreviation last_quote :=
  (Pairing.last_quote w pickup_location destination preferences).

(** With every name registered and the results in place, a key holds
    the quote of the last fetch for it that returned one. *)
Lemma collect_last (apps : list string) :
  forall i results acc k,
    Forall (fun a => registered a = true) apps ->
    (forall n a, nth_error apps n = Some a ->
                 nth_error results (i + n) = Some (fetch (i + n) a)) ->
    get k (collect i apps results acc)
    = match last_quote i apps k with
      | Some q => Some q
      | None => get k acc
      end.
Proof.
  induction apps as [|a apps IH]; intros i results acc k Hreg Hres; simpl.
  - reflexivity.
  - inversion Hreg as [|? ? Ha Hreg']; subst.
    pose proof (Hres 0%nat a eq_refl) as H0.
    rewrite Nat.add_0_r in H0. rewrite Ha, H0.
    rewrite IH; [|exact Hreg'|].
    + destruct (last_quote (S i) apps k); [reflexivity|].
      destruct (fetch i a) as [q|].
      * rewrite get_set. now destruct (String.eqb k a).
      * now destruct (String.eqb k a).
    + intros n b Hn. specialize (Hres (S n) b Hn).
      now rewrite Nat.add_succ_r in Hres.
Qed.

End Request.
End ComparisonFacts.

Section ComparisonClaims.
Import Py Orchestrator DictFacts OrchestratorFacts ComparisonFacts.

Variable w : World.
Variables (pickup_location destination : string).
Variable preferences : RidePreferences.t.

Local Abbreviation fetch :=
  (_fetch_price_from_app w pickup_location destination preferences).
Local Abbreviation compare_prices :=
  (Orchestrator.compare_prices w pickup_location destination preferences).
Local Abbreviation book_cheapest :=
  (Orchestrator.book_cheapest w pickup_location destination preferences).

(** X9. For quotes with finite prices (no NaN and no infinity, as the
    prices of this model are): whatever list is requested, the quote map
    of a returned comparison has distinct keys, and the selected provider
    is the first minimum of that map in insertion order: its price is the
    selected price, every entry stored before it is strictly more
    expensive and no entry stored after it is cheaper. *)
Theorem selected_is_first_minimum_of_map
        (apps : option (list string)) (st st' : state)
        (r : ComparisonResult) :
  compare_prices apps st = (Ok r, st') ->
  NoDup (keys (prices r)) /\
  exists before q after,
    prices r = before ++ (cheapest_app r, q) :: after /\
    cheapest_price r = PriceInfo.estimated_price q /\
    (forall k q', In (k, q') before ->
       PriceInfo.estimated_price q < PriceInfo.estimated_price q') /\
    (forall k q', In (k, q') after ->
       PriceInfo.estimated_price q <= PriceInfo.estimated_price q').
Proof.
  intros H. apply compare_prices_ok in H.
  destruct H as (Hp & _ & Hmin & Hprice & _).
  assert (Hnd : NoDup (keys (prices r))).
  { rewrite Hp. apply collect_keys_nodup. constructor. }
  split; [exact Hnd|].
  destruct (first_minimum_entry (prices r) (cheapest_app r) Hnd Hmin)
    as (before & q & after & Hsplit & _ & Hq & Hlt & Hle).
  exists before, q, after. rewrite Hprice, Hq. auto.
Qed.

(** X10. [compare_prices] launches one fetch for every entry of the
    requested list that is a registered name, in list order and as often
    as the name is listed, and none for any other entry, whether it
    succeeds or not. It raises nothing but "Could not fetch prices from
    any app", then leaving the last comparison as it was; on success the
    returned result becomes the last comparison. The last booking is
    untouched. *)
Theorem comparison_effects (apps : option (list string)) (st : state) :
  exists outcome st',
    compare_prices apps st = (outcome, st') /\
    calls st' = calls st ++ map Fetch (filter registered (requested apps)) /\
    last_booking st' = last_booking st /\
    match outcome with
    | Ok r => last_comparison st' = Some r
    | Raised e =>
        e = ValueError "Could not fetch prices from any app" /\
        last_comparison st' = last_comparison st
    end.
Proof.
  destruct (compare_prices_cases w pickup_location destination preferences
                                 apps st)
    as [[_ (st' & H & Hc & Hb & Hcalls)]
       | [_ (r & st' & H & _ & _ & _ & Hc & Hb & Hcalls)]].
  - exists (Raised (ValueError "Could not fetch prices from any app")), st'.
    auto.
  - exists (Ok r), st'. auto.
Qed.

(** X11. [book_cheapest] with a comparison supplied runs no fetch and
    leaves the last comparison alone. When the selected name is a key of
    the supplied quote map and a registered agent, it makes exactly one
    booking call, on that agent with the quote stored under that key, and
    returns its answer; otherwise it makes no call at all and returns
    [None]. *)
Theorem book_supplied_comparison
        (comparison : ComparisonResult) (st : state) :
  exists answer st',
    book_cheapest (Some comparison) st = (Ok answer, st') /\
    last_comparison st' = last_comparison st /\
    match get (cheapest_app comparison) (prices comparison) with
    | Some price_info =>
        if registered (cheapest_app comparison)
        then answer = book_ride w (cheapest_app comparison) pickup_location
                                destination preferences price_info /\
             calls st'
             = calls st ++ [Book (cheapest_app comparison) price_info]
        else answer = None /\ calls st' = calls st
    | None => answer = None /\ calls st' = calls st
    end.
Proof.
  unfold Orchestrator.book_cheapest, try_except, mbind, ret, lift, getitem.
  destruct (get (cheapest_app comparison) (prices comparison))
    as [price_info|]; [|do 2 eexists; repeat split].
  destruct (registered (cheapest_app comparison));
    [|do 2 eexists; repeat split].
  unfold raise, record, set_last_booking.
  destruct (book_ride w (cheapest_app comparison) pickup_location
                      destination preferences price_info);
    do 2 eexists; repeat split.
Qed.

(** X12. [book_cheapest] never raises, with or without a comparison
    supplied; the last booking becomes the confirmation it returns and
    stays what it was when it returns [None]. *)
Theorem book_cheapest_never_raises
        (comparison : option ComparisonResult) (st : state) :
  exists answer st',
    book_cheapest comparison st = (Ok answer, st') /\
    last_booking st'
    = match answer with
      | Some confirmed => Some confirmed
      | None => last_booking st
      end.
Proof.
  destruct comparison as [comparison|].
  - unfold Orchestrator.book_cheapest, try_except, mbind, ret, lift, getitem.
    destruct (get (cheapest_app comparison) (prices comparison))
      as [price_info|]; [|do 2 eexists; repeat split].
    destruct (registered (cheapest_app comparison));
      [|do 2 eexists; repeat split].
    unfold raise, record, set_last_booking.
    destruct (book_ride w (cheapest_app comparison) pickup_location
                        destination preferences price_info);
      do 2 eexists; repeat split.
  - unfold Orchestrator.book_cheapest, try_except, mbind.
    destruct (compare_prices_cases w pickup_location destination preferences
                                   None st)
      as [[_ (st1 & H & _ & Hb & _)]
         | [_ (r & st1 & H & _ & _ & _ & _ & Hb & _)]]; rewrite H.
    + exists None, st1. split; [reflexivity | exact Hb].
    + unfold ret, lift, getitem, raise, record, set_last_booking.
      destruct (get (cheapest_app r) (prices r)) as [price_info|];
        [|exists None, st1; split; [reflexivity | exact Hb]].
      destruct (registered (cheapest_app r));
        [|exists None, st1; split; [reflexivity | exact Hb]].
      destruct (book_ride w (cheapest_app r) pickup_location destination
                          preferences price_info);
        do 2 eexists; (split; [reflexivity|]); simpl;
        [reflexivity | exact Hb].
Qed.

(** X13. When every requested name is registered, a name that is listed
    several times keeps the quote of its last fetch that returned one
    (a later failure does not erase it), and a name is missing from the
    quote map exactly when none of its fetches returned a quote. *)
Theorem repeated_name_keeps_last_quote
        (apps : option (list string)) (st st' : state)
        (r : ComparisonResult) :
  Forall (fun a => registered a = true) (requested apps) ->
  compare_prices apps st = (Ok r, st') ->
  forall k,
    get k (prices r)
    = Pairing.last_quote w pickup_location destination preferences
                         0 (requested apps) k.
Proof.
  intros Hreg H k. apply compare_prices_ok in H. destruct H as (Hp & _).
  rewrite Hp.
  rewrite (collect_last w pickup_location destination preferences);
    [|exact Hreg|].
  - now destruct (Pairing.last_quote _ _ _ _ _ _ _).
  - intros n a Hn. now apply results_in_place.
Qed.

End ComparisonClaims.

Section ComparisonInstances.
Import Py Orchestrator.

Lemma selected_is_first_minimum_of_map_witness :
  exists r st',
    compare_prices Scenario.uber_twice "here" "airport" Scenario.to_airport
                   (Some ["uber"; "ola"; "uber"]) initial = (Ok r, st') /\
    NoDup (keys (prices r)).
Proof.
  destruct (compare_prices Scenario.uber_twice "here" "airport"
                           Scenario.to_airport
                           (Some ["uber"; "ola"; "uber"]) initial)
    as [[r|e] st'] eqn:E; [|vm_compute in E; discriminate].
  exists r, st'. split; [reflexivity|].
  exact (proj1 (selected_is_first_minimum_of_map
                  Scenario.uber_twice "here" "airport" Scenario.to_airport
                  (Some ["uber"; "ola"; "uber"]) initial st' r E)).
Defined.

Lemma repeated_name_keeps_last_quote_witness :
  exists r st',
    compare_prices Scenario.uber_twice "here" "airport" Scenario.to_airport
                   (Some ["uber"; "ola"; "uber"]) initial = (Ok r, st') /\
    get "uber" (prices r)
    = Pairing.last_quote Scenario.uber_twice "here" "airport"
                         Scenario.to_airport 0 ["uber"; "ola"; "uber"]
                         "uber".
Proof.
  destruct (compare_prices Scenario.uber_twice "here" "airport"
                           Scenario.to_airport
                           (Some ["uber"; "ola"; "uber"]) initial)
    as [[r|e] st'] eqn:E; [|vm_compute in E; discriminate].
  exists r, st'. split; [reflexivity|].
  apply (repeated_name_keeps_last_quote
           Scenario.uber_twice "here" "airport" Scenario.to_airport
           (Some ["uber"; "ola"; "uber"]) initial st' r);
    [repeat constructor | exact E].
Defined.

End ComparisonInstances.

(* ================================================================== *)
(** * The ranking and the best deal *)

Module RankingFacts.
Import Py Orchestrator DictFacts OrchestratorFacts ComparisonFacts Ranking.

(** ** [min] read from the right *)

Lemma min_scan_tail {A} (key : A -> Q) (l : list A) :
  forall best,
    min_scan key best l
    = match min_by key l with
      | None => best
      | Some m => if Qlt_bool (key m) (key best) then m else best
      end.
Proof.
  induction l as [|y l IH]; intros best; [reflexivity|].
  cbn [min_scan min_by]. rewrite (IH y), IH.
  destruct (min_by key l) as [m|]; [|reflexivity].
  destruct (Qlt_bool (key y) (key best)) eqn:Eyb;
    destruct (Qlt_bool (key m) (key y)) eqn:Emy; try reflexivity.
  - (* m < y < best *)
    apply Qlt_bool_true in Eyb. apply Qlt_bool_true in Emy.
    assert (H : Qlt_bool (key m) (key best) = true)
      by (apply Qlt_bool_true; eapply Qlt_trans; eauto).
    now rewrite H.
  - now rewrite Eyb.
  - (* best <= y <= m *)
    rewrite Eyb.
    apply Qlt_bool_false in Eyb. apply Qlt_bool_false in Emy.
    assert (H : Qlt_bool (key m) (key best) = false)
      by (apply Qlt_bool_false; eapply Qle_trans; eauto).
    now rewrite H.
Qed.

Lemma min_by_cons {A} (key : A -> Q) (x : A) (l : list A) :
  min_by key (x :: l)
  = Some match min_by key l with
         | None => x
         | Some m => if Qlt_bool (key m) (key x) then m else x
         end.
Proof. cbn [min_by]. now rewrite min_scan_tail. Qed.

(** ** The stable sort *)

Lemma insert_sorted_perm {A} (key : A -> Q) (x : A) (l : list A) :
  Permutation (insert_sorted key x l) (x :: l).
Proof.
  induction l as [|y l IH]; simpl; [reflexivity|].
  destruct (Qlt_bool (key y) (key x)); [|reflexivity].
  rewrite IH. apply perm_swap.
Qed.

Lemma sorted_perm {A} (key : A -> Q) (l : list A) :
  Permutation (sorted key l) l.
Proof.
  induction l as [|x l IH]; simpl; [reflexivity|].
  rewrite insert_sorted_perm. now constructor.
Qed.

(** The sorted list starts with the first minimum. *)
Lemma sorted_head {A} (key : A -> Q) (l : list A) :
  min_by key l = hd_error (sorted key l).
Proof.
  induction l as [|x l IH]; [reflexivity|].
  rewrite min_by_cons, IH. simpl sorted.
  destruct (sorted key l) as [|y s]; simpl; [reflexivity|].
  now destruct (Qlt_bool (key y) (key x)).
Qed.

(** ** From keys to entries *)

Lemma min_scan_map {A B} (f : A -> B) (key : B -> Q) (key' : A -> Q)
      (l : list A) :
  forall best,
    (forall e, In e (best :: l) -> key (f e) = key' e) ->
    min_scan key (f best) (map f l) = f (min_scan key' best l).
Proof.
  induction l as [|x l IH]; intros best Hkey; simpl; [reflexivity|].
  rewrite (Hkey x), (Hkey best) by (simpl; auto).
  destruct (Qlt_bool (key' x) (key' best)); apply IH;
    intros e [<-|He]; apply Hkey; simpl; auto.
Qed.

Lemma min_over_entries (d : dict PriceInfo.t) :
  NoDup (keys d) ->
  min_by (price_of d) (keys d)
  = option_map fst
      (min_by (fun x => PriceInfo.estimated_price (snd x)) d).
Proof.
  intros Hnd. destruct d as [|e d']; [reflexivity|].
  unfold keys. cbn [map min_by option_map]. f_equal.
  apply min_scan_map. intros [k q] Hin. unfold price_of. cbn [fst snd].
  now rewrite (get_in_nodup k q _ Hnd Hin).
Qed.

(** ** The medals *)

Lemma medals_agree_below (cheapest_app : string)
      (items : list (string * PriceInfo.t)) :
  forall rank,
    (2 <= rank)%nat ->
    (forall e, In e items -> fst e <> cheapest_app) ->
    summary_rows_from cheapest_app rank items = display_rows_from rank items.
Proof.
  induction items as [|[a q] items IH]; intros rank Hrank Hother; simpl;
    [reflexivity|].
  rewrite IH; [|lia | intros e He; apply Hother; now right].
  f_equal. unfold summary_medal, display_medal.
  assert (Ha : String.eqb a cheapest_app = false).
  { apply String.eqb_neq. apply (Hother (a, q)). now left. }
  rewrite Ha. destruct rank as [|[|rank]]; try lia. reflexivity.
Qed.

End RankingFacts.

Module BestDealFacts.
Import Py Utils DictFacts.

Lemma savings_from_filter (float_sub : Q -> Q -> Q)
      (cheapest_app : string) (cheapest_price : Q)
      (items : list (string * PriceInfo.t)) :
  forall savings,
    NoDup (keys items) ->
    (forall e, In e items -> ~ In (fst e) (keys savings)) ->
    savings_from float_sub cheapest_app cheapest_price items savings
    = savings
      ++ map (fun e => (fst e,
                        float_sub (PriceInfo.estimated_price (snd e))
                                  cheapest_price))
             (filter (fun e => negb (String.eqb (fst e) cheapest_app))
                     items).
Proof.
  induction items as [|[app price] rest IH]; intros savings Hnd Hfresh;
    simpl.
  - now rewrite app_nil_r.
  - inversion Hnd as [|? ? Happ Hrest]; subst.
    destruct (String.eqb app cheapest_app); simpl.
    + apply IH; [exact Hrest|]. intros e He. apply Hfresh. now right.
    + rewrite set_fresh by (apply (Hfresh (app, price)); now left).
      rewrite IH; [now rewrite <- app_assoc | exact Hrest |].
      intros e He Hin. unfold keys in Hin.
      rewrite map_app, in_app_iff in Hin. simpl in Hin.
      destruct Hin as [Hin|[Hin|[]]].
      * apply (Hfresh e); [now right | exact Hin].
      * apply Happ. unfold keys. rewrite Hin. now apply in_map.
Qed.

End BestDealFacts.

Section RankingClaims.
Import Py Orchestrator DictFacts OrchestratorFacts ComparisonFacts.
Import Ranking RankingFacts Utils BestDealFacts.

Variable w : World.
Variables (pickup_location destination : string).
Variable preferences : RidePreferences.t.

Local Abbreviation compare_prices :=
  (Orchestrator.compare_prices w pickup_location destination preferences).

(** X14. For quotes with finite prices (no NaN and no infinity, as the
    prices of this model are): in the ranking built from a returned
    comparison, row 1 is the selected provider with the quote stored for
    it, also when prices tie; hence the summary, which gives gold to the
    selected provider, and the table of the command line, which gives
    gold to rank 1, show the same rows with the same medals. *)
Theorem ranking_starts_with_selected
        (apps : option (list string)) (st st' : state)
        (r : ComparisonResult) :
  compare_prices apps st = (Ok r, st') ->
  (exists q rest,
      sorted_prices (prices r) = (cheapest_app r, q) :: rest /\
      get (cheapest_app r) (prices r) = Some q) /\
  summary_rows (prices r) (cheapest_app r) = display_rows (prices r).
Proof.
  intros H. apply compare_prices_ok in H.
  destruct H as (Hp & _ & Hmin & _).
  assert (Hnd : NoDup (keys (prices r))).
  { rewrite Hp. apply collect_keys_nodup. constructor. }
  rewrite (min_over_entries _ Hnd), sorted_head in Hmin.
  fold (sorted_prices (prices r)) in Hmin.
  pose proof (sorted_perm (fun x => PriceInfo.estimated_price (snd x))
                          (prices r)) as Hperm.
  fold (sorted_prices (prices r)) in Hperm.
  assert (Hnd' : NoDup (keys (sorted_prices (prices r)))).
  { unfold keys. eapply Permutation_NoDup; [|exact Hnd].
    apply Permutation_map. now symmetry. }
  unfold summary_rows, display_rows.
  destruct (sorted_prices (prices r)) as [|[c q] rest]; [discriminate|].
  simpl in Hmin. injection Hmin as <-.
  split.
  - exists q, rest. split; [reflexivity|].
    apply get_in_nodup; [exact Hnd|].
    eapply Permutation_in; [exact Hperm | now left].
  - simpl. unfold summary_medal at 1. rewrite String.eqb_refl.
    change (display_medal 1) with Gold. f_equal.
    apply medals_agree_below; [lia|].
    simpl in Hnd'. apply NoDup_cons_iff in Hnd'. destruct Hnd' as [Hout _].
    intros e He Hc. apply Hout. rewrite <- Hc. now apply in_map.
Qed.

(** X15. [get_best_deal] on the quote map of a returned comparison names
    the provider the comparison selected, with the quote stored for it,
    and lists a saving for every other key of the map and for no other,
    in the order of the map; on an empty map it returns
    [(None, None, {})]. *)
Theorem best_deal_agrees_with_comparison
        (float_sub : Q -> Q -> Q)
        (apps : option (list string)) (st st' : state)
        (r : ComparisonResult) :
  compare_prices apps st = (Ok r, st') ->
  (exists q,
      get (cheapest_app r) (prices r) = Some q /\
      get_best_deal float_sub (prices r)
      = (Some (cheapest_app r), Some q,
         map (fun e => (fst e,
                        float_sub (PriceInfo.estimated_price (snd e))
                                  (cheapest_price r)))
             (filter (fun e => negb (String.eqb (fst e) (cheapest_app r)))
                     (prices r)))) /\
  get_best_deal float_sub [] = (None, None, []).
Proof.
  intros H. apply compare_prices_ok in H.
  destruct H as (Hp & Hne & Hmin & Hprice & _).
  assert (Hnd : NoDup (keys (prices r))).
  { rewrite Hp. apply collect_keys_nodup. constructor. }
  split; [|reflexivity].
  destruct (cheapest_stored r Hmin Hprice) as [_ [q [Hq _]]].
  exists q. split; [exact Hq|].
  unfold get_best_deal. rewrite Hmin, Hq, <- Hprice.
  rewrite savings_from_filter; [|exact Hnd | intros e _ []].
  destruct (prices r); [congruence | reflexivity].
Qed.

End RankingClaims.

Section RankingInstances.
Import Py Orchestrator Ranking Utils.

Lemma ranking_starts_with_selected_witness :
  exists r st',
    compare_prices Scenario.three_quotes "here" "airport"
                   Scenario.to_airport None initial = (Ok r, st') /\
    summary_rows (prices r) (cheapest_app r) = display_rows (prices r).
Proof.
  destruct (compare_prices Scenario.three_quotes "here" "airport"
                           Scenario.to_airport None initial)
    as [[r|e] st'] eqn:E; [|vm_compute in E; discriminate].
  exists r, st'. split; [reflexivity|].
  exact (proj2 (ranking_starts_with_selected
                  Scenario.three_quotes "here" "airport" Scenario.to_airport
                  None initial st' r E)).
Defined.

Lemma best_deal_agrees_with_comparison_witness :
  exists r st' q,
    compare_prices Scenario.three_quotes "here" "airport"
                   Scenario.to_airport None initial = (Ok r, st') /\
    get (cheapest_app r) (prices r) = Some q.
Proof.
  destruct (compare_prices Scenario.three_quotes "here" "airport"
                           Scenario.to_airport None initial)
    as [[r|e] st'] eqn:E; [|vm_compute in E; discriminate].
  destruct (proj1 (best_deal_agrees_with_comparison
                     Scenario.three_quotes "here" "airport"
                     Scenario.to_airport Qminus None initial st' r E))
    as (q & Hq & _).
  exists r, st', q. split; [reflexivity | exact Hq].
Defined.

End RankingInstances.

(* ================================================================== *)
(** * Properties of the validators *)

Module RxFacts.
Import Py Utils Rx.

Lemma drop_prefix_app (t s s' : string) :
  Re.drop_prefix t s = Some s' <-> s = (t ++ s')%string.
Proof.
  revert s. induction t as [|a t IH]; intros s; simpl.
  - split; [intros H; now injection H | intros ->; reflexivity].
  - destruct s as [|b s]; [split; discriminate|].
    destruct (Ascii.eqb a b) eqn:E.
    + apply Ascii.eqb_eq in E. subst b. rewrite IH.
      split; [intros ->; reflexivity | intros H; now injection H].
    + apply Ascii.eqb_neq in E. split; [discriminate|].
      intros H. injection H as H _. congruence.
Qed.

Section Accepts.
Context {R : Type}.
Implicit Type k : string -> option R.

Lemma run_seq r1 r2 s k :
  run (Seq r1 r2) s k = run r1 s (fun s' => run r2 s' k).
Proof. reflexivity. Qed.

Lemma accepts_chr cls s k :
  run (Chr cls) s k <> None <->
  exists c s', s = String c s' /\ cls c = true /\ k s' <> None.
Proof.
  simpl. destruct s as [|c s'].
  - split; [congruence | intros (c & s' & H & _); discriminate].
  - destruct (cls c) eqn:E.
    + split; [eauto | intros (c' & s'' & H & _ & Hk)].
      now injection H as <- <-.
    + split; [congruence | intros (c' & s'' & H & Hc & _)].
      injection H as <- <-. congruence.
Qed.

Lemma accepts_txt t s k :
  run (Txt t) s k <> None <->
  exists s', s = (t ++ s')%string /\ k s' <> None.
Proof.
  simpl. destruct (Re.drop_prefix t s) as [s'|] eqn:E.
  - apply drop_prefix_app in E. split; [eauto|].
    intros (s'' & H & Hk). subst s.
    assert (s'' = s'); [|now subst].
    clear -H. induction t; simpl in H; [auto | injection H; auto].
  - split; [congruence|]. intros (s' & H & _).
    apply drop_prefix_app in H. congruence.
Qed.

Lemma accepts_alt r1 r2 s k :
  run (Alt r1 r2) s k <> None <->
  run r1 s k <> None \/ run r2 s k <> None.
Proof.
  simpl. destruct (run r1 s k); [|tauto].
  split; [left|]; congruence.
Qed.

Lemma accepts_opt r s k :
  run (Opt r) s k <> None <-> run r s k <> None \/ k s <> None.
Proof.
  simpl. destruct (run r s k); [|tauto].
  split; [left|]; congruence.
Qed.

Lemma accepts_eol s k :
  run Eol s k <> None <-> at_end s = true /\ k s <> None.
Proof.
  simpl. destruct (at_end s); [tauto|]. split; [congruence|].
  intros [H _]. discriminate.
Qed.

(** A greedy run accepts exactly when some non-empty run of the class
    can be followed by the rest of the pattern. *)
Lemma accepts_plus cls s k :
  run (Plus cls) s k <> None <->
  exists pre rest,
    s = (pre ++ rest)%string /\ pre <> EmptyString /\
    all_chars cls pre = true /\ k rest <> None.
Proof.
  simpl. induction s as [|c s IH]; simpl.
  - split; [congruence|]. intros (pre & rest & H & Hne & _).
    destruct pre; [congruence | discriminate].
  - destruct (cls c) eqn:Ec.
    + destruct (Re.plus_greedy cls s k) as [x|] eqn:E.
      * split; [intros _ | congruence].
        destruct (proj1 IH) as (pre & rest & -> & _ & Hall & Hk);
          [congruence|].
        exists (String c pre), rest. simpl. rewrite Ec.
        repeat split; [discriminate | exact Hall | exact Hk].
      * split.
        -- intros Hk. exists (String c EmptyString), s. simpl. rewrite Ec.
           repeat split; [discriminate | exact Hk].
        -- intros (pre & rest & H & Hne & Hall & Hk).
           destruct pre as [|d pre]; [congruence|].
           simpl in H. injection H as <- ->. simpl in Hall.
           apply andb_true_iff in Hall. destruct Hall as [_ Hall].
           destruct pre as [|e pre]; [exact Hk|].
           exfalso. apply (proj2 IH); [|reflexivity].
           exists (String e pre), rest.
           repeat split; [discriminate | exact Hall | exact Hk].
    + split; [congruence|]. intros (pre & rest & H & Hne & Hall & _).
      destruct pre as [|d pre]; [congruence|].
      simpl in H. injection H as <- _. simpl in Hall. rewrite Ec in Hall.
      discriminate.
Qed.

Lemma accepts_star cls s k :
  run (Star cls) s k <> None <->
  exists pre rest,
    s = (pre ++ rest)%string /\ all_chars cls pre = true /\ k rest <> None.
Proof.
  simpl. induction s as [|c s IH]; simpl.
  - split.
    + intros Hk. exists EmptyString, EmptyString. auto.
    + intros (pre & rest & H & _ & Hk).
      destruct pre; [simpl in H; now subst | discriminate].
  - assert (Hstay : k (String c s) <> None ->
              exists pre rest,
                String c s = (pre ++ rest)%string /\
                all_chars cls pre = true /\ k rest <> None)
      by (intros Hk; exists EmptyString, (String c s); auto).
    destruct (cls c) eqn:Ec.
    + destruct (star_greedy cls s k) as [x|] eqn:E.
      * split; [intros _ | congruence].
        destruct (proj1 IH) as (pre & rest & -> & Hall & Hk); [congruence|].
        exists (String c pre), rest. simpl. rewrite Ec. auto.
      * split; [exact Hstay|].
        intros (pre & rest & H & Hall & Hk).
        destruct pre as [|d pre]; [simpl in H; now subst|].
        simpl in H. injection H as <- ->. simpl in Hall.
        apply andb_true_iff in Hall. destruct Hall as [_ Hall].
        exfalso. apply (proj2 IH); [|reflexivity]. eauto.
    + split; [exact Hstay|].
      intros (pre & rest & H & Hall & Hk).
      destruct pre as [|d pre]; [simpl in H; now subst|].
      simpl in H. injection H as <- _. simpl in Hall. rewrite Ec in Hall.
      discriminate.
Qed.

(** [cls{n}] accepts exactly [n] characters of the class. *)
Lemma accepts_times cls (n : nat) :
  forall s k,
    run (times (S n) (Chr cls)) s k <> None <->
    exists pre rest,
      s = (pre ++ rest)%string /\ String.length pre = S n /\
      all_chars cls pre = true /\ k rest <> None.
Proof.
  induction n as [|n IH]; intros s k.
  - change (times 1 (Chr cls)) with (Chr cls). rewrite accepts_chr. split.
    + intros (c & s' & -> & Hc & Hk). exists (String c EmptyString), s'.
      simpl. rewrite Hc. repeat split. exact Hk.
    + intros (pre & rest & -> & Hlen & Hall & Hk).
      destruct pre as [|c [|d pre]]; try discriminate.
      simpl in Hall. rewrite andb_true_r in Hall.
      exists c, rest. repeat split; assumption.
  - change (times (S (S n)) (Chr cls))
      with (Seq (Chr cls) (times (S n) (Chr cls))).
    rewrite run_seq, accepts_chr. split.
    + intros (c & s' & -> & Hc & Hk). apply IH in Hk.
      destruct Hk as (pre & rest & -> & Hlen & Hall & Hk).
      exists (String c pre), rest. simpl. rewrite Hc, Hlen.
      repeat split; assumption.
    + intros (pre & rest & -> & Hlen & Hall & Hk).
      destruct pre as [|c pre]; [discriminate|].
      simpl in Hlen, Hall. apply andb_true_iff in Hall.
      destruct Hall as [Hc Hall]. injection Hlen as Hlen.
      exists c, (pre ++ rest)%string.
      split; [reflexivity|]. split; [exact Hc|]. apply IH.
      exists pre, rest. repeat split; assumption.
Qed.

End Accepts.

Lemma matches_accepts (r : rx) (s : string) :
  matches r s = true <-> run r s (fun _ => Some tt) <> None.
Proof.
  unfold matches. destruct (run r s (fun _ => Some tt)).
  - split; congruence.
  - split; [discriminate | congruence].
Qed.

Lemma at_end_cases (s : string) :
  at_end s = true <->
  s = EmptyString \/ s = String (ascii_of_nat 10) EmptyString.
Proof.
  destruct s as [|c [|d s]]; simpl.
  - tauto.
  - unfold is_newline, code. rewrite N.eqb_eq. split.
    + intros H. right. f_equal.
      rewrite <- (ascii_N_embedding c), H. reflexivity.
    + intros [H|H]; [discriminate|]. now injection H as ->.
  - split; [discriminate | intros [H|H]; discriminate].
Qed.

End RxFacts.

Module ValidatorFacts.
Import Py Utils Rx RxFacts.

Lemma all_chars_app (p : ascii -> bool) (a b : string) :
  all_chars p (a ++ b) = all_chars p a && all_chars p b.
Proof.
  induction a as [|c a IH]; simpl; [reflexivity|].
  now rewrite IH, andb_assoc.
Qed.

Lemma line_end (rest : string) :
  run Eol rest (fun _ => Some tt) <> None <->
  rest = EmptyString \/ rest = String (ascii_of_nat 10) EmptyString.
Proof.
  rewrite accepts_eol, at_end_cases. split; [tauto|].
  intros H. split; [exact H | discriminate].
Qed.

(** The part of the phone pattern after the optional prefix. *)
Lemma ten_digits (s : string) :
  run (Seq (Chr (between 54 57))
           (Seq (times 9 (Chr isdigit_char)) Eol)) s (fun _ => Some tt)
  <> None <->
  exists first rest tail,
    s = (String first rest ++ tail)%string /\
    between 54 57 first = true /\
    String.length rest = 9%nat /\ all_chars isdigit_char rest = true /\
    (tail = EmptyString \/ tail = String (ascii_of_nat 10) EmptyString).
Proof.
  rewrite run_seq, accepts_chr. split.
  - intros (c & s1 & -> & Hc & H).
    rewrite run_seq in H. apply (accepts_times isdigit_char 8) in H.
    destruct H as (pre & rest & -> & Hlen & Hall & H).
    apply line_end in H. exists c, pre, rest. auto.
  - intros (c & pre & tail & -> & Hc & Hlen & Hall & Htail).
    exists c, (pre ++ tail)%string. split; [reflexivity|].
    split; [exact Hc|]. rewrite run_seq.
    apply (accepts_times isdigit_char 8).
    exists pre, tail. repeat split; try assumption. now apply line_end.
Qed.

End ValidatorFacts.

Section ValidatorClaims.
Import Py Utils Rx RxFacts ValidatorFacts ParserFacts.

(** X16. [validate_phone_number] accepts exactly the texts that, once
    blanks and hyphens are removed, consist of an optional "+91" or "0",
    a digit from 6 to 9 and nine more digits; a single newline may
    follow, since [$] also matches before a final newline. *)
Theorem phone_numbers_accepted (phone : string) :
  validate_phone_number phone = true <->
  exists prefix first rest tail,
    remove_char "-" (remove_char " " phone)
    = (prefix ++ String first rest ++ tail)%string /\
    In prefix [EmptyString; "+91"; "0"] /\
    between 54 57 first = true /\
    String.length rest = 9%nat /\ all_chars isdigit_char rest = true /\
    (tail = EmptyString \/ tail = String (ascii_of_nat 10) EmptyString).
Proof.
  unfold validate_phone_number.
  generalize (remove_char "-" (remove_char " " phone)). intros s.
  rewrite matches_accepts. unfold phone_pattern.
  rewrite run_seq, accepts_opt, accepts_alt, !accepts_txt. split.
  - intros [[(s' & -> & H) | (s' & -> & H)] | H];
      apply ten_digits in H;
      destruct H as (first & rest & tail & -> & H).
    + exists "+91", first, rest, tail. simpl. tauto.
    + exists "0", first, rest, tail. simpl. tauto.
    + exists EmptyString, first, rest, tail. simpl. tauto.
  - intros (prefix & first & rest & tail & -> & Hin & H).
    assert (Hten : run (Seq (Chr (between 54 57))
                            (Seq (times 9 (Chr isdigit_char)) Eol))
                       (String first rest ++ tail) (fun _ => Some tt)
                   <> None)
      by (apply ten_digits; exists first, rest, tail; tauto).
    simpl in Hin. destruct Hin as [<-|[<-|[<-|[]]]].
    + right. exact Hten.
    + left. left. eexists. split; [reflexivity | exact Hten].
    + left. right. eexists. split; [reflexivity | exact Hten].
Qed.

(** X17. [validate_email] accepts exactly the texts of the form
    local "@" domain "." tld, with a non-empty local part over
    [a-zA-Z0-9._%+-], a non-empty domain over [a-zA-Z0-9.-] and at least
    two letters after the last dot; dots may stand anywhere in the local
    part and the domain, and a single newline may follow. *)
Theorem emails_accepted (email : string) :
  validate_email email = true <->
  exists local domain tld tail,
    email = (local ++ "@" ++ domain ++ "." ++ tld ++ tail)%string /\
    local <> EmptyString /\ all_chars local_char local = true /\
    domain <> EmptyString /\ all_chars domain_char domain = true /\
    (2 <= String.length tld)%nat /\ all_chars isalpha_ascii tld = true /\
    (tail = EmptyString \/ tail = String (ascii_of_nat 10) EmptyString).
Proof.
  unfold validate_email. rewrite matches_accepts. unfold email_pattern.
  rewrite run_seq, accepts_plus. split.
  - intros (local & s1 & -> & Hl & Hlall & H).
    rewrite run_seq in H. apply accepts_txt in H.
    destruct H as (s2 & -> & H).
    rewrite run_seq in H. apply accepts_plus in H.
    destruct H as (domain & s3 & -> & Hd & Hdall & H).
    rewrite run_seq in H. apply accepts_txt in H.
    destruct H as (s4 & -> & H).
    rewrite run_seq in H. apply (accepts_times isalpha_ascii 1) in H.
    destruct H as (two & s5 & -> & Hlen & Htwo & H).
    rewrite run_seq in H. apply accepts_star in H.
    destruct H as (more & tail & -> & Hmore & H).
    apply line_end in H.
    exists local, domain, (two ++ more)%string, tail.
    rewrite string_app_assoc, all_chars_app, Htwo, Hmore.
    repeat split; try assumption.
    rewrite UtilsFacts.length_app. lia.
  - intros (local & domain & tld & tail & -> & Hl & Hlall & Hd & Hdall
            & Hlen & Htld & Htail).
    exists local, ("@" ++ domain ++ "." ++ tld ++ tail)%string.
    split; [reflexivity|]. split; [exact Hl|]. split; [exact Hlall|].
    rewrite run_seq. apply accepts_txt. eexists. split; [reflexivity|].
    rewrite run_seq. apply accepts_plus.
    exists domain, ("." ++ tld ++ tail)%string.
    split; [reflexivity|]. split; [exact Hd|]. split; [exact Hdall|].
    rewrite run_seq. apply accepts_txt. eexists. split; [reflexivity|].
    destruct tld as [|a [|b more]]; simpl in Hlen; try lia.
    simpl in Htld. rewrite andb_assoc in Htld.
    apply andb_true_iff in Htld. destruct Htld as [Htwo Hmore].
    rewrite run_seq. apply (accepts_times isalpha_ascii 1).
    exists (String a (String b EmptyString)), (more ++ tail)%string.
    split; [reflexivity|]. split; [reflexivity|].
    split; [simpl; now rewrite andb_true_r|].
    rewrite run_seq. apply accepts_star.
    exists more, tail. repeat split; try assumption. now apply line_end.
Qed.

End ValidatorClaims.
(* ================================================================== *)
(** * Properties of the price tools *)

Module PriceToolFacts.
Import PriceComparator OrchestratorFacts.

Lemma lt_float_irrefl (x : float) : lt_float x x = false.
Proof.
  destruct x as [a| | |]; simpl; try reflexivity.
  apply Qlt_bool_false. apply Qle_refl.
Qed.

Lemma lt_float_trans (x y z : float) :
  lt_float x y = true -> lt_float y z = true -> lt_float x z = true.
Proof.
  destruct x as [a| | |], y as [b| | |], z as [c| | |]; simpl;
    try congruence.
  rewrite !Qlt_bool_true. apply Qlt_trans.
Qed.

(** Without NaN in the middle, "not smaller" is transitive. *)
Lemma ge_float_trans (x y z : float) :
  y <> NaN ->
  lt_float y x = false -> lt_float z y = false -> lt_float z x = false.
Proof.
  destruct x as [a| | |], y as [b| | |], z as [c| | |]; simpl;
    try congruence.
  intros _. rewrite !Qlt_bool_false. apply Qle_trans.
Qed.

Lemma le_float_ge (x y : float) :
  x <> NaN -> y <> NaN -> lt_float y x = false -> le_float x y = true.
Proof.
  destruct x as [a| | |], y as [b| | |]; simpl; try congruence.
  intros _ _. rewrite Qlt_bool_false. apply Qle_bool_iff.
Qed.

Lemma within_budget_lt (x y budget : float) :
  y <> NaN ->
  le_float x budget = true -> le_float y budget = false ->
  lt_float x y = true.
Proof.
  destruct x as [a| | |], y as [b| | |], budget as [c| | |]; simpl;
    try congruence.
  intros _ Ha Hb. apply Qlt_bool_true. apply Qle_bool_iff in Ha.
  apply Qle_lt_trans with (y := c); [exact Ha|].
  apply Qnot_le_lt. intros Hle. apply Qle_bool_iff in Hle. congruence.
Qed.

Lemma within_budget_down (x y budget : float) :
  x <> NaN ->
  le_float y budget = true -> lt_float y x = false ->
  le_float x budget = true.
Proof.
  destruct x as [a| | |], y as [b| | |], budget as [c| | |]; simpl;
    try congruence.
  intros _ Hb Hle. apply Qle_bool_iff. apply Qle_bool_iff in Hb.
  apply Qlt_bool_false in Hle. eapply Qle_trans; eauto.
Qed.

(** The key of an entry is NaN only when its price is present and NaN. *)
Lemma price_key_nan (p : price) :
  price_key p = NaN <-> estimated_price p = Some NaN.
Proof.
  unfold price_key. destruct (estimated_price p) as [a|].
  - split; congruence.
  - split; discriminate.
Qed.

(** A choice whose key is NaN is never replaced. *)
Lemma min_scan_nan (l : list price) (best : price) :
  price_key best = NaN -> min_scan best l = best.
Proof.
  intros Hnan. induction l as [|x l IH]; [reflexivity|].
  cbn [min_scan]. rewrite Hnan.
  replace (lt_float (price_key x) NaN) with false
    by now destruct (price_key x).
  exact IH.
Qed.

(** An entry whose key is NaN is never chosen over another one. *)
Lemma min_scan_skips_nan (before : list price) (x : price) (l : list price) :
  price_key x = NaN ->
  forall best, min_scan best (before ++ x :: l) = min_scan best (before ++ l).
Proof.
  intros Hnan. induction before as [|y before IH]; intros best.
  - cbn [app min_scan]. now rewrite Hnan.
  - cbn [app min_scan]. apply IH.
Qed.

Lemma price_scan_tail (l : list price) :
  (forall p, In p l -> price_key p <> NaN) ->
  forall best,
    min_scan best l
    = match min_by_price l with
      | None => best
      | Some m =>
          if lt_float (price_key m) (price_key best) then m else best
      end.
Proof.
  induction l as [|y l IH]; intros Hl best; [reflexivity|].
  assert (Hy : price_key y <> NaN) by (apply Hl; now left).
  assert (Htl : forall p, In p l -> price_key p <> NaN)
    by (intros p Hp; apply Hl; now right).
  cbn [min_scan min_by_price]. rewrite (IH Htl y), (IH Htl).
  destruct (min_by_price l) as [m|]; [|reflexivity].
  destruct (lt_float (price_key y) (price_key best)) eqn:Eyb;
    destruct (lt_float (price_key m) (price_key y)) eqn:Emy;
    try reflexivity.
  - now rewrite (lt_float_trans _ _ _ Emy Eyb).
  - now rewrite Eyb.
  - now rewrite (ge_float_trans _ _ _ Hy Eyb Emy), Eyb.
Qed.

Lemma min_by_price_cons (x : price) (l : list price) :
  (forall p, In p l -> price_key p <> NaN) ->
  min_by_price (x :: l)
  = Some match min_by_price l with
         | None => x
         | Some m => if lt_float (price_key m) (price_key x) then m else x
         end.
Proof. intros Hl. cbn [min_by_price]. now rewrite price_scan_tail. Qed.

(** Without NaN, the choice is an entry of the list and no entry is
    cheaper. *)
Lemma min_by_price_least (l : list price) (m : price) :
  (forall p, In p l -> price_key p <> NaN) ->
  min_by_price l = Some m ->
  In m l /\ forall e, In e l -> lt_float (price_key e) (price_key m) = false.
Proof.
  revert m. induction l as [|x l IH]; intros m Hl; [discriminate|].
  assert (Htl : forall p, In p l -> price_key p <> NaN)
    by (intros p Hp; apply Hl; now right).
  rewrite (min_by_price_cons x l Htl). intros H. injection H as <-.
  destruct (min_by_price l) as [m'|] eqn:E.
  - destruct (IH m' Htl eq_refl) as [Hin Hle].
    destruct (lt_float (price_key m') (price_key x)) eqn:Em.
    + split; [now right|]. intros e [<-|He]; [|now apply Hle].
      destruct (lt_float (price_key x) (price_key m')) eqn:Ex;
        [|reflexivity].
      pose proof (lt_float_trans _ _ _ Em Ex) as Hbad.
      now rewrite lt_float_irrefl in Hbad.
    + split; [now left|]. intros e [<-|He]; [apply lt_float_irrefl|].
      exact (ge_float_trans _ _ _ (Htl m' Hin) Em (Hle e He)).
  - destruct l; [|discriminate]. split; [now left|].
    intros e [<-|[]]. apply lt_float_irrefl.
Qed.

(** The choice is an entry of the list, NaN or not. *)
Lemma min_scan_in (l : list price) (best : price) :
  min_scan best l = best \/ In (min_scan best l) l.
Proof.
  revert best. induction l as [|x l IH]; intros best; [now left|].
  cbn [min_scan].
  destruct (lt_float (price_key x) (price_key best)).
  - destruct (IH x) as [-> | H]; right; [now left | now right].
  - destruct (IH best) as [-> | H]; [now left | right; now right].
Qed.

(** Dropping what is over budget does not change the choice, as long as
    something is within budget and no price is NaN. *)
Lemma min_by_price_filter (budget : float) (l : list price) :
  (forall p, In p l -> price_key p <> NaN) ->
  (exists e, In e l /\ le_float (price_key e) budget = true) ->
  min_by_price (filter (fun p => le_float (price_key p) budget) l)
  = min_by_price l.
Proof.
  set (within := fun p : price => le_float (price_key p) budget).
  induction l as [|x l IH]; intros Hl (e & He & Hw); [destruct He|].
  assert (Htl : forall p, In p l -> price_key p <> NaN)
    by (intros p Hp; apply Hl; now right).
  assert (Hfl : forall p, In p (filter within l) -> price_key p <> NaN)
    by (intros p Hp; apply filter_In in Hp; now apply Htl).
  assert (Hrest : (exists e', In e' l /\ within e' = true) \/
                  (forall e', In e' l -> within e' = false)).
  { clear. induction l as [|y l IH]; [right; intros e' []|].
    destruct (within y) eqn:Ey; [left; exists y; simpl; auto|].
    destruct IH as [(e' & He' & Hw')|Hnone].
    - left. exists e'. simpl. auto.
    - right. intros e' [<-|He']; auto. }
  rewrite (min_by_price_cons x l Htl). simpl filter.
  destruct (within x) eqn:Ex.
  - rewrite (min_by_price_cons x _ Hfl). destruct Hrest as [Hsome|Hnone].
    + now rewrite (IH Htl Hsome).
    + assert (Hnil : filter within l = []).
      { clear -Hnone. induction l as [|y l IH]; [reflexivity|].
        simpl. rewrite (Hnone y) by now left.
        apply IH. intros e' He'. apply Hnone. now right. }
      rewrite Hnil. simpl min_by_price at 1.
      destruct (min_by_price l) as [m|] eqn:Em; [|reflexivity].
      destruct (min_by_price_least l m Htl Em) as [Hin _].
      pose proof (within_budget_lt _ _ budget (Htl m Hin) Ex (Hnone m Hin))
        as Hlt.
      destruct (lt_float (price_key m) (price_key x)) eqn:Emx;
        [|reflexivity].
      pose proof (lt_float_trans _ _ _ Hlt Emx) as Hbad.
      now rewrite lt_float_irrefl in Hbad.
  - assert (Hsome : exists e', In e' l /\ within e' = true).
    { destruct He as [<-|He]; [unfold within in Ex; congruence | eauto]. }
    rewrite (IH Htl Hsome).
    destruct Hsome as (e' & He' & Hw').
    destruct (min_by_price l) as [m|] eqn:Em; [|now destruct l].
    destruct (min_by_price_least l m Htl Em) as [Hm_in Hle].
    pose proof (within_budget_down _ _ budget (Htl m Hm_in) Hw' (Hle e' He'))
      as Hm.
    now rewrite (within_budget_lt _ _ budget
                   (Hl x (or_introl eq_refl)) Hm Ex).
Qed.

End PriceToolFacts.

Section PriceToolClaims.
Import PriceComparator PriceToolFacts OrchestratorFacts.

(** X18. [find_cheapest] answers "No prices available" on an empty list.
    When no price of the list is NaN, an entry it returns is an entry of
    the list that has both an app name and a price, and that price is at
    most every price of the list. When no entry of a non-empty list has a
    price, the answer is an error text: the infinite default for a
    missing price does not save the call. A NaN price breaks the
    minimum: a first entry with a NaN price is the answer whatever
    follows it, and an entry with a NaN price that is not the first is
    passed over, the answer being what it is without that entry. *)
Theorem find_cheapest_answers :
  find_cheapest [] = Message "No prices available" /\
  (forall prices winner,
      (forall p, In p prices -> estimated_price p <> Some NaN) ->
      find_cheapest prices = Json winner ->
      In winner prices /\
      exists name amount,
        app_name winner = Some name /\
        estimated_price winner = Some amount /\
        forall p q, In p prices -> estimated_price p = Some q ->
                    le_float amount q = true) /\
  (forall prices,
      prices <> [] ->
      (forall p, In p prices -> estimated_price p = None) ->
      find_cheapest prices = Message "Error: 'app_name'" \/
      find_cheapest prices = Message "Error: 'estimated_price'") /\
  (forall first rest name,
      app_name first = Some name ->
      estimated_price first = Some NaN ->
      find_cheapest (first :: rest) = Json first) /\
  (forall first before later rest,
      estimated_price later = Some NaN ->
      find_cheapest (first :: before ++ later :: rest)
      = find_cheapest (first :: before ++ rest)).
Proof.
  split; [reflexivity|]. split; [|split; [|split]].
  - intros prices winner Hnan H. unfold find_cheapest in H.
    assert (Hkeys : forall p, In p prices -> price_key p <> NaN)
      by (intros p Hp Hk; apply price_key_nan in Hk; now apply (Hnan p)).
    destruct prices as [|x l]; [discriminate|].
    destruct (min_by_price (x :: l)) as [m|] eqn:Em; [|discriminate].
    destruct (app_name m) as [name|] eqn:En; [|discriminate].
    destruct (estimated_price m) as [amount|] eqn:Ea; [|discriminate].
    injection H as <-.
    destruct (min_by_price_least _ _ Hkeys Em) as [Hin Hle].
    split; [exact Hin|]. exists name, amount.
    split; [exact En|]. split; [exact Ea|].
    intros p q Hp Hq. specialize (Hle p Hp).
    pose proof (Hkeys p Hp) as Hpk. pose proof (Hkeys m Hin) as Hmk.
    unfold price_key in Hle, Hpk, Hmk. rewrite Hq in Hle, Hpk.
    rewrite Ea in Hle, Hmk. now apply le_float_ge.
  - intros prices Hne Hnone. unfold find_cheapest.
    destruct prices as [|x l]; [congruence|].
    cbn [min_by_price].
    assert (Hin : In (min_scan x l) (x :: l)).
    { destruct (min_scan_in l x) as [-> | H]; [now left | now right]. }
    rewrite (Hnone _ Hin).
    destruct (app_name (min_scan x l)); [right | left]; reflexivity.
  - intros first rest name Hname Hnan. unfold find_cheapest.
    cbn [min_by_price]. rewrite min_scan_nan
      by (apply price_key_nan; exact Hnan).
    now rewrite Hname, Hnan.
  - intros first before later rest Hnan. unfold find_cheapest.
    cbn [min_by_price]. rewrite min_scan_skips_nan
      by (apply price_key_nan; exact Hnan).
    reflexivity.
Qed.

(** X19. When no price of the list is NaN, filtering by budget and then
    finding the cheapest gives what finding the cheapest gives on the
    whole list whenever some entry is within budget, and "No prices
    available" when none is. An entry without a price counts as
    infinitely expensive, so only an infinite budget keeps it. *)
Theorem budget_filter_then_cheapest
        (prices filtered : list price) (budget : float) :
  (forall p, In p prices -> estimated_price p <> Some NaN) ->
  apply_budget_filter prices budget = Json filtered ->
  ((exists p, In p prices /\ le_float (price_key p) budget = true) ->
   find_cheapest filtered = find_cheapest prices) /\
  ((forall p, In p prices -> le_float (price_key p) budget = false) ->
   find_cheapest filtered = Message "No prices available") /\
  (forall p, In p filtered -> estimated_price p = None -> budget = PosInf).
Proof.
  unfold apply_budget_filter. intros Hnan H. injection H as <-.
  assert (Hkeys : forall p, In p prices -> price_key p <> NaN)
    by (intros p Hp Hk; apply price_key_nan in Hk; now apply (Hnan p)).
  split; [|split].
  - intros Hsome.
    pose proof (min_by_price_filter budget prices Hkeys Hsome) as Hm.
    destruct Hsome as (p & Hp & Hw).
    assert (Hin : In p (filter (fun p0 => le_float (price_key p0) budget)
                               prices))
      by (apply filter_In; auto).
    unfold find_cheapest. rewrite Hm.
    destruct (filter _ prices); [destruct Hin|].
    destruct prices; [destruct Hp | reflexivity].
  - intros Hnone.
    assert (Hnil : filter (fun p => le_float (price_key p) budget)
                          prices = []).
    { clear Hnan Hkeys. induction prices as [|x l IH]; [reflexivity|].
      simpl. rewrite (Hnone x) by now left.
      apply IH. intros p Hp. apply Hnone. now right. }
    now rewrite Hnil.
  - intros p Hp Hmissing. apply filter_In in Hp. destruct Hp as [_ Hw].
    unfold price_key in Hw. rewrite Hmissing in Hw.
    now destruct budget.
Qed.

End PriceToolClaims.

Section PriceToolInstances.
Import PriceComparator.

Lemma find_cheapest_answers_witness :
  let uber := {| app_name := Some "Uber"; ride_type := Some "UberGo";
                 estimated_price := Some (Finite 120) |} in
  let ola := {| app_name := Some "Ola"; ride_type := Some "Mini";
                estimated_price := Some (Finite 99) |} in
  let bike := {| app_name := Some "Rapido"; ride_type := Some "Bike";
                 estimated_price := None |} in
  find_cheapest [uber; bike; ola] = Json ola /\
  In ola [uber; bike; ola] /\
  exists name amount,
    app_name ola = Some name /\
    estimated_price ola = Some amount /\
    forall p q, In p [uber; bike; ola] -> estimated_price p = Some q ->
                le_float amount q = true.
Proof.
  intros uber ola bike. split; [reflexivity|].
  apply (proj1 (proj2 find_cheapest_answers) [uber; bike; ola] ola);
    [|reflexivity].
  intros p [<-|[<-|[<-|[]]]]; discriminate.
Defined.

Lemma budget_filter_then_cheapest_witness :
  let uber := {| app_name := Some "Uber"; ride_type := Some "UberGo";
                 estimated_price := Some (Finite 120) |} in
  let ola := {| app_name := Some "Ola"; ride_type := Some "Mini";
                estimated_price := Some (Finite 99) |} in
  apply_budget_filter [uber; ola] (Finite 100) = Json [ola] /\
  find_cheapest [ola] = find_cheapest [uber; ola].
Proof.
  intros uber ola. split; [reflexivity|].
  refine (proj1 (budget_filter_then_cheapest [uber; ola] [ola] (Finite 100)
                   _ eq_refl) _).
  - intros p [<-|[<-|[]]]; discriminate.
  - exists ola. split; [simpl; auto | reflexivity].
Defined.

End PriceToolInstances.

(* ================================================================== *)
(** * The ride type filter *)
(* ================================================================== *)

Module RideFilterFacts.
Import PriceComparator.

Lemma prefix_refl (s : string) : prefix s s = true.
Proof.
  induction s as [|c s IH]; [reflexivity|].
  simpl. destruct (ascii_dec c c) as [_|N]; [exact IH | now destruct N].
Qed.

Lemma contains_refl (s : string) : Py.contains s s = true.
Proof.
  destruct s; [reflexivity|].
  now rewrite ParserFacts.contains_cons, prefix_refl.
Qed.

Lemma contains_empty (s : string) : Py.contains EmptyString s = true.
Proof. now destruct s. Qed.

Lemma to_match_lower (rt : string) :
  map Py.lower (ride_types_to_match (Py.lower rt))
  = map Py.lower (ride_types_to_match rt).
Proof.
  unfold ride_types_to_match. rewrite TextFacts.lower_idempotent.
  destruct (Py.get (Py.lower rt) ride_type_mapping); [reflexivity|].
  simpl. now rewrite TextFacts.lower_idempotent.
Qed.

Lemma existsb_map {A B} (f : A -> B) (g : B -> bool) (l : list A) :
  existsb (fun x => g (f x)) l = existsb g (map f l).
Proof. induction l as [|x l IH]; simpl; [reflexivity | now rewrite IH]. Qed.

Lemma matches_lower (rt : string) (p : price) :
  matches_ride_type (Py.lower rt) p = matches_ride_type rt p.
Proof.
  unfold matches_ride_type.
  rewrite (existsb_map Py.lower
             (fun r => Py.contains r (Py.lower (ride_type_of p)))
             (ride_types_to_match (Py.lower rt))).
  rewrite (existsb_map Py.lower
             (fun r => Py.contains r (Py.lower (ride_type_of p)))
             (ride_types_to_match rt)).
  now rewrite to_match_lower, TextFacts.lower_idempotent.
Qed.

Lemma matches_unlisted (rt : string) (p : price) :
  Py.get (Py.lower rt) ride_type_mapping = None ->
  matches_ride_type rt p
  = Py.contains (Py.lower rt) (Py.lower (ride_type_of p)).
Proof.
  intros Hget. unfold matches_ride_type, ride_types_to_match.
  rewrite Hget. cbn [existsb]. rewrite orb_false_r.
  destruct (String.eqb_spec (Py.lower (ride_type_of p)) (Py.lower rt))
    as [->|_].
  - now rewrite contains_refl.
  - apply orb_false_r.
Qed.

Lemma filter_all {A} (f : A -> bool) (l : list A) :
  (forall x, In x l -> f x = true) -> filter f l = l.
Proof.
  induction l as [|x l IH]; intros H; [reflexivity|].
  simpl. rewrite (H x) by now left.
  f_equal. apply IH. intros y Hy. apply H. now right.
Qed.

End RideFilterFacts.

Section RideFilterClaims.
Import PriceComparator RideFilterFacts.

(** X20. [filter_by_ride_type] never answers with an error text and does
    not depend on the case of the requested type. For a type that is not
    one of the four listed ones (car, rickshaw, bike, premium) an entry
    is kept exactly when the lower-cased type occurs inside the entry's
    lower-cased ride type, a missing ride type counting as empty; hence
    the empty type keeps every entry, also those without a ride type. *)
Theorem ride_type_filter_answers (prices : list price) (rt : string) :
  (exists kept, filter_by_ride_type prices rt = Json kept) /\
  filter_by_ride_type prices (Py.lower rt) = filter_by_ride_type prices rt /\
  (Py.get (Py.lower rt) ride_type_mapping = None ->
   forall kept, filter_by_ride_type prices rt = Json kept ->
   forall p, In p kept <->
             In p prices /\
             Py.contains (Py.lower rt) (Py.lower (ride_type_of p)) = true) /\
  filter_by_ride_type prices EmptyString = Json prices.
Proof.
  split; [eexists; reflexivity|]. split; [|split].
  - unfold filter_by_ride_type. f_equal.
    apply filter_ext. intros p. apply matches_lower.
  - intros Hget kept H p. unfold filter_by_ride_type in H.
    injection H as <-. rewrite filter_In.
    now rewrite (matches_unlisted rt p Hget).
  - unfold filter_by_ride_type. f_equal. apply filter_all.
    intros p _. rewrite matches_unlisted by reflexivity.
    apply contains_empty.
Qed.

(** X21. The filter and the agents disagree on names. Take the category
    of a parsed request and an entry whose ride type is the very label an
    agent asks its app for under that category. The filter for the
    category keeps the entry of Uber unless the category is bike or
    premium, the entry of Ola unless it is premium, and the entry of
    Rapido unless it is car or premium. *)
Theorem filter_against_agent_labels
        (user_input : string) (prefs : RidePreferences.t)
        (prices kept : list price) (p : price) :
  NlpParser.parse_ride_preferences user_input = NlpParser.Json prefs ->
  let category := RidePreferences.ride_type prefs in
  filter_by_ride_type prices category = Json kept ->
  In p prices ->
  (ride_type p = Some (UberAgent._map_ride_type category) ->
   (In p kept <-> category <> "bike" /\ category <> "premium")) /\
  (ride_type p = Some (OlaAgent._map_ride_type category) ->
   (In p kept <-> category <> "premium")) /\
  (ride_type p = Some (RapidoAgent._map_ride_type category) ->
   (In p kept <-> category <> "car" /\ category <> "premium")).
Proof.
  intros Hparse category Hf Hp.
  destruct (ParserFacts.parse_json_fields _ _ Hparse) as (_ & Hrt & _).
  unfold filter_by_ride_type in Hf. injection Hf as <-.
  assert (Hin : In p (filter (matches_ride_type category) prices)
                <-> matches_ride_type category p = true)
    by (rewrite filter_In; tauto).
  assert (Hcat : In category ["car"; "rickshaw"; "bike"; "auto"; "premium"]).
  { unfold category. rewrite Hrt. unfold NlpParser.detect_ride_type.
    repeat match goal with
           | |- context [Py.any_in ?ws ?l] => destruct (Py.any_in ws l)
           end; simpl; intuition reflexivity. }
  assert (Hm : forall label,
             ride_type p = Some label ->
             matches_ride_type category p
             = (existsb (fun rt => Py.contains (Py.lower rt) (Py.lower label))
                        (ride_types_to_match category)
                || String.eqb (Py.lower label) (Py.lower category))).
  { intros label Hl. unfold matches_ride_type, ride_type_of. now rewrite Hl. }
  rewrite Hin. clear Hin Hrt Hparse.
  simpl in Hcat.
  destruct Hcat as [<-|[<-|[<-|[<-|[<-|[]]]]]];
    (split; [|split]); intros Hl; rewrite (Hm _ Hl);
    vm_compute; (split; [intros H; try discriminate H;
                         repeat split; discriminate
                        | intros H; try reflexivity;
                          exfalso; (tauto || (destruct H; tauto))]).
Qed.

End RideFilterClaims.

Section RideFilterInstances.
Import PriceComparator.

Lemma ride_type_filter_answers_witness :
  let a := {| app_name := Some "Uber"; ride_type := Some "Uber Auto";
              estimated_price := Some (Finite 95) |} in
  let b := {| app_name := Some "Ola"; ride_type := Some "Ola Prime";
              estimated_price := Some (Finite 140) |} in
  filter_by_ride_type [a; b] "Auto" = Json [a] /\
  (In a [a] <->
   In a [a; b] /\
   Py.contains (Py.lower "Auto") (Py.lower (ride_type_of a)) = true).
Proof.
  intros a b. split; [reflexivity|].
  exact (proj1 (proj2 (proj2 (ride_type_filter_answers [a; b] "Auto")))
               eq_refl [a] eq_refl a).
Defined.

Lemma filter_against_agent_labels_witness :
  let p := {| app_name := Some "Uber"; ride_type := Some "Uber XL";
              estimated_price := Some (Finite 310) |} in
  NlpParser.detect_ride_type "a comfortable cab to the airport" = "premium" /\
  filter_by_ride_type [p] "premium" = Json [] /\
  (In p [] <-> "premium" <> "bike" /\ "premium" <> "premium").
Proof.
  intros p. split; [reflexivity|]. split; [reflexivity|].
  exact (proj1 (filter_against_agent_labels
                  "a comfortable cab to the airport" _ [p] [] p
                  eq_refl eq_refl (or_introl eq_refl))
               eq_refl).
Defined.

End RideFilterInstances.

(* ================================================================== *)
(** * The time estimate *)
(* ================================================================== *)

Module TimeFacts.
Import Py Utils.

Lemma plus_greedy_longest {R} (cls : ascii -> bool) (digits rest : string)
      (k : string -> option R) :
  digits <> EmptyString ->
  all_chars cls digits = true ->
  head_is cls rest = false ->
  k rest <> None ->
  Re.plus_greedy cls (digits ++ rest) k = k rest.
Proof.
  intros Hne Hall Hrest Hk. induction digits as [|c digits IH]; [congruence|].
  simpl in Hall. apply andb_true_iff in Hall. destruct Hall as [Hc Hall].
  simpl. rewrite Hc. destruct digits as [|d digits].
  - simpl. destruct rest as [|e rest]; simpl.
    + reflexivity.
    + simpl in Hrest. rewrite Hrest. reflexivity.
  - rewrite IH by (discriminate || exact Hall).
    destruct (k rest) eqn:E; [reflexivity | congruence].
Qed.

Lemma plus_greedy_constant {R} (cls : ascii -> bool) (s : string) (x : R) :
  head_is cls s = true ->
  Re.plus_greedy cls s (fun _ => Some x) = Some x.
Proof.
  destruct s as [|c s]; [discriminate|]. simpl. intros ->.
  assert (H : forall t, Re.plus_greedy cls t (fun _ => Some x) = Some x
                        \/ Re.plus_greedy cls t (fun _ => Some x) = None).
  { induction t as [|d t IH]; [now right|].
    simpl. destruct (cls d); [|now right].
    destruct IH as [-> | ->]; now left. }
  destruct (H s) as [-> | ->]; reflexivity.
Qed.

Lemma plus_greedy_head {R} (cls : ascii -> bool) (s : string)
      (k : string -> option R) :
  head_is cls s = false -> Re.plus_greedy cls s k = None.
Proof. destruct s as [|c s]; [reflexivity|]. simpl. now intros ->. Qed.

(** The optional unit accepts whatever follows and leaves the groups. *)
Lemma unit_accepts (s : string) (g : Rg.groups) :
  Rg.run (Rg.Opt (Rg.Alt (Rg.Seq (Rg.Txt "min") (Rg.Opt (Rg.Txt "s")))
                         (Rg.Seq (Rg.Txt "minute") (Rg.Opt (Rg.Txt "s")))))
         s g (fun _ g' => Some g') = Some g.
Proof.
  cbn [Rg.run].
  destruct (Re.drop_prefix "min" s) as [s1|].
  - now destruct (Re.drop_prefix "s" s1).
  - destruct (Re.drop_prefix "minute" s) as [s2|]; [|reflexivity].
    now destruct (Re.drop_prefix "s" s2).
Qed.

Local Abbreviation accept := (fun (_ : string) (g : Rg.groups) => Some g).

Local Abbreviation unit_part :=
  (Rg.Opt (Rg.Alt (Rg.Seq (Rg.Txt "min") (Rg.Opt (Rg.Txt "s")))
                  (Rg.Seq (Rg.Txt "minute") (Rg.Opt (Rg.Txt "s"))))).

Local Abbreviation blank_part := (Rg.Seq (Rg.Plus isspace) unit_part).

Local Abbreviation range_part :=
  (Rg.Opt (Rg.Seq (Rg.Txt "-") (Rg.Group 2 (Rg.Plus isdigit_char)))).

Lemma group_run_seq {R} (r1 r2 : Rg.regex) (s : string) (g : Rg.groups)
      (k : string -> Rg.groups -> option R) :
  Rg.run (Rg.Seq r1 r2) s g k
  = Rg.run r1 s g (fun s' g' => Rg.run r2 s' g' k).
Proof. reflexivity. Qed.

Lemma plus_greedy_ext {R} (cls : ascii -> bool) (s : string)
      (k k' : string -> option R) :
  (forall t, k t = k' t) ->
  Re.plus_greedy cls s k = Re.plus_greedy cls s k'.
Proof.
  intros H. induction s as [|c s IH]; [reflexivity|].
  simpl. now rewrite IH, H.
Qed.

(** Blanks and then the optional unit. *)
Lemma blanks_accept (w : ascii) (rest : string) (g : Rg.groups) :
  isspace w = true ->
  Rg.run blank_part (String w rest) g accept = Some g.
Proof.
  intros Hw. rewrite group_run_seq.
  change (Re.plus_greedy isspace (String w rest)
            (fun s' => Rg.run unit_part s' g accept) = Some g).
  rewrite (plus_greedy_ext isspace (String w rest) _ (fun _ => Some g))
    by (intros t; apply unit_accepts).
  now apply plus_greedy_constant.
Qed.

Lemma blank_classes (w : ascii) :
  isspace w = true ->
  isdigit_char w = false /\ Ascii.eqb "-" w = false /\ lower_char w = w.
Proof.
  destruct w as [[] [] [] [] [] [] [] []]; intros H;
    try discriminate H; repeat split.
Qed.

Lemma digit_classes (c : ascii) :
  isdigit_char c = true -> lower_char c = c.
Proof.
  destruct c as [[] [] [] [] [] [] [] []]; intros H;
    try discriminate H; reflexivity.
Qed.

Lemma lower_char_classes (c : ascii) :
  isdigit_char (lower_char c) = isdigit_char c /\
  isspace (lower_char c) = isspace c.
Proof. destruct c as [[] [] [] [] [] [] [] []]; split; reflexivity. Qed.

Lemma lower_app (a b : string) : lower (a ++ b) = (lower a ++ lower b)%string.
Proof. induction a as [|c a IH]; simpl; [reflexivity | now rewrite IH]. Qed.

Lemma lower_digits (digits : string) :
  all_chars isdigit_char digits = true -> lower digits = digits.
Proof.
  induction digits as [|c digits IH]; [reflexivity|].
  simpl. intros H. apply andb_true_iff in H. destruct H as [Hc H].
  now rewrite (digit_classes c Hc), IH.
Qed.

Lemma lower_no_digit (s : string) :
  all_chars (fun c => negb (isdigit_char c)) (lower s)
  = all_chars (fun c => negb (isdigit_char c)) s.
Proof.
  induction s as [|c s IH]; [reflexivity|].
  simpl. now rewrite IH, (proj1 (lower_char_classes c)).
Qed.

Lemma lower_no_blank (s : string) :
  all_chars (fun c => negb (isspace c)) (lower s)
  = all_chars (fun c => negb (isspace c)) s.
Proof.
  induction s as [|c s IH]; [reflexivity|].
  simpl. now rewrite IH, (proj2 (lower_char_classes c)).
Qed.

(** After the first number: blanks follow at once. *)
Lemma single_tail (w : ascii) (rest : string) (g : Rg.groups) :
  isspace w = true ->
  Rg.run (Rg.Seq range_part blank_part) (String w rest) g accept = Some g.
Proof.
  intros Hw. destruct (blank_classes w Hw) as (_ & Hdash & _).
  rewrite group_run_seq. cbn [Rg.run Re.drop_prefix]. rewrite Hdash.
  exact (blanks_accept w rest g Hw).
Qed.

(** After the first number: a hyphen, a second number and blanks. *)
Lemma range_tail (digits : string) (w : ascii) (rest : string)
      (g : Rg.groups) :
  digits <> EmptyString ->
  all_chars isdigit_char digits = true ->
  isspace w = true ->
  Rg.run (Rg.Seq range_part blank_part)
         (String "-" (digits ++ String w rest)) g accept
  = Some (Rg.set_group 2 digits g).
Proof.
  intros Hne Hall Hw. destruct (blank_classes w Hw) as (Hd & _ & _).
  rewrite group_run_seq.
  change (match
             Re.plus_greedy isdigit_char (digits ++ String w rest)
               (fun s' =>
                  Rg.run blank_part s'
                    (Rg.set_group 2
                       (Re.consumed (digits ++ String w rest) s') g)
                    accept)
           with
           | Some x => Some x
           | None => Rg.run blank_part
                       (String "-" (digits ++ String w rest)) g accept
           end = Some (Rg.set_group 2 digits g)).
  rewrite plus_greedy_longest; try assumption.
  - now rewrite UtilsFacts.consumed_app, blanks_accept.
  - now rewrite UtilsFacts.consumed_app, blanks_accept.
Qed.

(** The first number is taken whole when what follows it lets the rest
    of the pattern match. *)
Lemma number_then (digits rest : string) (g : Rg.groups) :
  digits <> EmptyString ->
  all_chars isdigit_char digits = true ->
  head_is isdigit_char rest = false ->
  Rg.run (Rg.Seq range_part blank_part) rest
         (Rg.set_group 1 digits Rg.no_groups) accept = Some g ->
  Rg.run time_pattern (digits ++ rest) Rg.no_groups accept = Some g.
Proof.
  intros Hne Hall Hrest Htail.
  change (Re.plus_greedy isdigit_char (digits ++ rest)
            (fun s' =>
               Rg.run (Rg.Seq range_part blank_part) s'
                 (Rg.set_group 1 (Re.consumed (digits ++ rest) s')
                               Rg.no_groups)
                 accept) = Some g).
  rewrite plus_greedy_longest; try assumption;
    rewrite UtilsFacts.consumed_app, Htail; [reflexivity | discriminate].
Qed.

Lemma group_search_cons (r : Rg.regex) (c : ascii) (s : string) :
  Rg.search r (String c s)
  = match Rg.run r (String c s) Rg.no_groups accept with
    | Some g => Some g
    | None => Rg.search r s
    end.
Proof. reflexivity. Qed.

Lemma no_digit_no_start (s : string) :
  head_is isdigit_char s = false ->
  Rg.run time_pattern s Rg.no_groups accept = None.
Proof.
  intros H.
  change (Re.plus_greedy isdigit_char s
            (fun s' =>
               Rg.run (Rg.Seq range_part blank_part) s'
                 (Rg.set_group 1 (Re.consumed s s') Rg.no_groups)
                 accept) = None).
  now apply plus_greedy_head.
Qed.

(** The search skips what is not a digit. *)
Lemma search_skips (before s : string) (g : Rg.groups) :
  all_chars (fun c => negb (isdigit_char c)) before = true ->
  Rg.run time_pattern s Rg.no_groups accept = Some g ->
  Rg.search time_pattern (before ++ s) = Some g.
Proof.
  intros Hbefore Hrun. induction before as [|c before IH].
  - simpl append. destruct s as [|d s]; cbn [Rg.search]; now rewrite Hrun.
  - simpl in Hbefore. apply andb_true_iff in Hbefore.
    destruct Hbefore as [Hc Hbefore]. apply negb_true_iff in Hc.
    simpl append. rewrite group_search_cons, no_digit_no_start by exact Hc.
    now apply IH.
Qed.

(** A match ends where its continuation starts, further on in the text. *)
Lemma plus_greedy_reaches {R} (cls : ascii -> bool) (s : string)
      (k : string -> option R) (x : R) :
  Re.plus_greedy cls s k = Some x ->
  exists p s', s = (p ++ s')%string /\ k s' = Some x.
Proof.
  induction s as [|c s IH]; [discriminate|].
  simpl. destruct (cls c); [|discriminate].
  destruct (Re.plus_greedy cls s k) as [y|] eqn:E.
  - intros H. injection H as <-.
    destruct (IH eq_refl) as (p & s' & -> & Hk).
    now exists (String c p), s'.
  - intros H. now exists (String c EmptyString), s.
Qed.

Lemma drop_prefix_reaches (t s s' : string) :
  Re.drop_prefix t s = Some s' -> s = (t ++ s')%string.
Proof.
  revert s. induction t as [|a t IH]; intros s H.
  - simpl in H. now injection H as <-.
  - destruct s as [|b s]; [discriminate|]. simpl in H.
    destruct (Ascii.eqb_spec a b) as [<-|]; [|discriminate].
    simpl. now rewrite (IH _ H).
Qed.

Lemma run_reaches {R} (r : Rg.regex) :
  forall (s : string) (g : Rg.groups)
         (k : string -> Rg.groups -> option R) (x : R),
    Rg.run r s g k = Some x ->
    exists p s' g', s = (p ++ s')%string /\ k s' g' = Some x.
Proof.
  induction r as [t|r1 IH1 r2 IH2|r1 IH1 r2 IH2|r1 IH1|cls|n r1 IH1];
    intros s g k x H; cbn [Rg.run] in H.
  - destruct (Re.drop_prefix t s) as [s'|] eqn:E; [|discriminate].
    exists t, s', g. split; [now apply drop_prefix_reaches | exact H].
  - destruct (Rg.run r1 s g k) as [y|] eqn:E.
    + injection H as <-. now apply (IH1 _ _ _ _ E).
    + now apply (IH2 _ _ _ _ H).
  - destruct (IH1 _ _ _ _ H) as (p1 & s1 & g1 & -> & H1).
    destruct (IH2 _ _ _ _ H1) as (p2 & s2 & g2 & -> & H2).
    exists (p1 ++ p2)%string, s2, g2.
    split; [now rewrite ParserFacts.string_app_assoc | exact H2].
  - destruct (Rg.run r1 s g k) as [y|] eqn:E.
    + injection H as <-. now apply (IH1 _ _ _ _ E).
    + now exists EmptyString, s, g.
  - destruct (plus_greedy_reaches _ _ _ _ H) as (p & s' & -> & Hk).
    now exists p, s', g.
  - destruct (IH1 _ _ _ _ H) as (p & s' & g' & -> & Hk).
    now exists p, s', (Rg.set_group n (Re.consumed (p ++ s') s') g').
Qed.

(** Without a blank in the text there is no match. *)
Lemma no_blank_no_start (s : string) :
  all_chars (fun c => negb (isspace c)) s = true ->
  Rg.run time_pattern s Rg.no_groups accept = None.
Proof.
  intros Hall.
  destruct (Rg.run time_pattern s Rg.no_groups accept) as [x|] eqn:E;
    [exfalso | reflexivity].
  change (Rg.run (Rg.Seq (Rg.Group 1 (Rg.Plus isdigit_char)) range_part)
                 s Rg.no_groups
                 (fun s' g' => Rg.run blank_part s' g' accept) = Some x)
    in E.
  destruct (run_reaches _ _ _ _ _ E) as (p & s' & g' & -> & Hk).
  rewrite ValidatorFacts.all_chars_app in Hall.
  apply andb_true_iff in Hall. destruct Hall as [_ Hall].
  rewrite group_run_seq in Hk.
  change (Re.plus_greedy isspace s'
            (fun t => Rg.run unit_part t g' accept) = Some x) in Hk.
  destruct s' as [|c s']; [discriminate|].
  simpl in Hall. apply andb_true_iff in Hall. destruct Hall as [Hc _].
  apply negb_true_iff in Hc.
  rewrite plus_greedy_head in Hk by exact Hc. discriminate.
Qed.

Lemma search_none (s : string) :
  (forall t p, s = (p ++ t)%string ->
               Rg.run time_pattern t Rg.no_groups accept = None) ->
  Rg.search time_pattern s = None.
Proof.
  induction s as [|c s IH]; intros H.
  - cbn [Rg.search]. now rewrite (H EmptyString EmptyString).
  - rewrite group_search_cons, (H (String c s) EmptyString) by reflexivity.
    apply IH. intros t p ->. now apply (H t (String c p)).
Qed.

End TimeFacts.

Section TimeClaims.
Import Py Utils TimeFacts.

(** X22. [format_time_estimate] formats the first number of the text
    that is followed at once by a blank, and nothing else of the text
    counts: what stands before the number and what follows the blank,
    the unit included, is dropped, so that a duration in hours comes out
    in minutes. A number of more than 4300 digits makes [int] raise, and
    the text is returned as it came. *)
Theorem time_estimate_drops_the_unit
        (before digits : string) (w : ascii) (rest : string) :
  all_chars (fun c => negb (isdigit_char c)) before = true ->
  digits <> EmptyString ->
  all_chars isdigit_char digits = true ->
  isspace w = true ->
  format_time_estimate (before ++ digits ++ String w rest)%string
  = if (String.length digits <=? int_max_str_digits)%nat
    then ("~" ++ str_int (int_digits 0 digits) ++ " min")%string
    else (before ++ digits ++ String w rest)%string.
Proof.
  intros Hbefore Hne Hall Hw.
  destruct (blank_classes w Hw) as (Hd & _ & Hlow).
  unfold format_time_estimate.
  rewrite !lower_app, (lower_digits digits Hall).
  cbn [lower]. rewrite Hlow.
  rewrite (search_skips (lower before) _
             (Rg.set_group 1 digits Rg.no_groups)).
  - cbn [Rg.set_group Rg.group_1 Rg.group_2 Rg.no_groups Re.group1 truthy].
    unfold int. rewrite Nat.ltb_antisym.
    destruct (String.length digits <=? int_max_str_digits)%nat;
      cbn [negb]; [|reflexivity].
    now rewrite Z.eqb_refl.
  - now rewrite lower_no_digit.
  - apply number_then; try assumption.
    now apply single_tail.
Qed.

(** X23. A range, two numbers joined by a hyphen and followed at once by
    a blank, is printed as a range without leading zeros, and as a single
    estimate when both ends have the same value. *)
Theorem time_estimate_range
        (before first last : string) (w : ascii) (rest : string) :
  all_chars (fun c => negb (isdigit_char c)) before = true ->
  first <> EmptyString -> all_chars isdigit_char first = true ->
  last <> EmptyString -> all_chars isdigit_char last = true ->
  (String.length first <= int_max_str_digits)%nat ->
  (String.length last <= int_max_str_digits)%nat ->
  isspace w = true ->
  format_time_estimate
    (before ++ first ++ String "-" (last ++ String w rest))%string
  = if (int_digits 0 first =? int_digits 0 last)%Z
    then ("~" ++ str_int (int_digits 0 first) ++ " min")%string
    else (str_int (int_digits 0 first) ++ "-"
          ++ str_int (int_digits 0 last) ++ " min")%string.
Proof.
  intros Hbefore Hne1 Hall1 Hne2 Hall2 Hlen1 Hlen2 Hw.
  destruct (blank_classes w Hw) as (Hd & _ & Hlow).
  unfold format_time_estimate.
  rewrite !lower_app, (lower_digits first Hall1).
  cbn [lower]. rewrite lower_app, (lower_digits last Hall2).
  cbn [lower]. rewrite Hlow.
  change (lower_char "-") with "-"%char.
  rewrite (search_skips (lower before) _
             (Rg.set_group 2 last (Rg.set_group 1 first Rg.no_groups))).
  - cbn [Rg.set_group Rg.group_1 Rg.group_2 Rg.no_groups Re.group1].
    assert (Hint : forall t, (String.length t <= int_max_str_digits)%nat ->
                             int t = Ok (int_digits 0 t)).
    { intros t Ht. unfold int.
      now rewrite (proj2 (Nat.ltb_ge _ _) Ht). }
    rewrite (Hint first Hlen1).
    destruct last as [|c last]; [congruence|].
    cbn [truthy]. now rewrite (Hint _ Hlen2).
  - now rewrite lower_no_digit.
  - apply number_then; try assumption; [reflexivity|].
    now apply range_tail.
Qed.

(** X24. A text without any blank, or without any digit, is returned as
    it came: the pattern asks for a number and at least one blank after
    it, even though the unit it then looks for is optional. *)
Theorem time_estimate_unchanged (minutes : string) :
  all_chars (fun c => negb (isspace c)) minutes = true \/
  all_chars (fun c => negb (isdigit_char c)) minutes = true ->
  format_time_estimate minutes = minutes.
Proof.
  intros H. unfold format_time_estimate.
  rewrite search_none; [reflexivity|].
  intros t p Hs. destruct H as [H|H].
  - apply no_blank_no_start.
    rewrite <- lower_no_blank, Hs, ValidatorFacts.all_chars_app in H.
    apply andb_true_iff in H. tauto.
  - apply no_digit_no_start.
    rewrite <- lower_no_digit, Hs, ValidatorFacts.all_chars_app in H.
    apply andb_true_iff in H. destruct H as [_ H].
    destruct t as [|c t]; [reflexivity|].
    simpl in H. apply andb_true_iff in H. destruct H as [H _].
    now apply negb_true_iff in H.
Qed.

End TimeClaims.

Section TimeInstances.
Import Py Utils.

Lemma time_estimate_drops_the_unit_witness :
  format_time_estimate "about 2 hours" = "~2 min".
Proof.
  exact (time_estimate_drops_the_unit "about " "2" " " "hours"
           eq_refl ltac:(discriminate) eq_refl eq_refl).
Defined.

Lemma time_estimate_range_witness :
  format_time_estimate "07-10 mins away" = "7-10 min".
Proof.
  refine (time_estimate_range "" "07" "10" " " "mins away"
            eq_refl ltac:(discriminate) eq_refl ltac:(discriminate) eq_refl
            _ _ eq_refl); vm_compute; lia.
Defined.

Lemma time_estimate_unchanged_witness :
  format_time_estimate "5min" = "5min".
Proof. exact (time_estimate_unchanged "5min" (or_introl eq_refl)). Defined.

End TimeInstances.
